(** * RIFT: the scope chain, the value model and the tree-walking evaluator

    A shallow embedding of [src/environment.py], [src/errors.py],
    [src/types.py], the evaluation engine of [src/interpreter.py] and the
    range production of [src/parser.py].

    Conventions of the embedding.
    - Python objects that are mutated or compared by identity live in a
      store and are named by an address: scopes ([Environment]), classes
      ([RiftClass]) and instances ([RiftInstance]).  Function, lambda and
      bound-method wrappers are immutable; they carry the serial number of
      their creation, which is what the host compares.
    - [VBuiltin] is a built-in of the interpreter, [VHostMethod] a method
      of the host bound to its receiver, [VAccessor] one of the closures
      over a receiver that [_get_string_method] and [_get_list_method]
      build at every access; a closure carries the serial number of its
      creation, the host comparing closures by identity.
    - Sequences and maps are trees.  The host operations that update a
      sequence or a map in place are outside the embedding and end in
      [Abort Unmodelled], as does every host operation that is not
      transcribed below.
    - The host compares the items of sequences and maps by identity first
      and by [==] next.  The two differ only on an object unequal to
      itself, that is on a NaN: a NaN is kept apart from the other floats
      ([VNaN]) and carries the serial number of its creation; [VFloat] is
      built for the other floats.
    - Source positions (line, column) only decorate error messages and are
      left out of the nodes; an error carries its class and its message.
    - Floating-point numbers are IEEE 754 binary64 values, written with the
      Standard Library's [spec_float]. *)

From Stdlib Require Import ZArith String List Bool Lia.
From Stdlib Require Import Floats.SpecFloat.
From stdpp Require Import base option list gmap strings pretty.

Local Open Scope string_scope.
Local Open Scope list_scope.
Local Open Scope Z_scope.

(** ** Syntax tree ([src/ast_nodes.py]) *)

Module Ast.

(** The payload of a [Literal] node, as [Parser.parse_primary] builds it. *)
Inductive literal_value : Type :=
| LitNone
| LitBool (b : bool)
| LitInt (z : Z)
| LitFloat (f : spec_float)
| LitStr (s : string).

Record Parameter_ (N : Type) : Type := mkParameter {
  p_name : string;
  p_type_hint : option string;
  p_default : option N;
  p_rest : bool }.

Record CheckCase_ (N : Type) : Type := mkCheckCase {
  c_pattern : N;
  c_guard : option N;
  c_body : N }.

Inductive ClassMember_ (N : Type) : Type :=
| Constructor (params : list (Parameter_ N)) (body : N)
| MethodDeclaration (name : string) (params : list (Parameter_ N)) (body : N)
    (static : bool)
| PropertyDeclaration (name : string) (value : option N) (static : bool).

#[local] Unset Elimination Schemes.
Inductive node : Type :=
(* expressions *)
| Literal (value : literal_value)
| Identifier (name : string)
| BinaryOp (operator : string) (left right : node)
| UnaryOp (operator : string) (operand : node)
| Comparison (operators : list string) (operands : list node)
| LogicalOp (operator : string) (left right : node)
| Assignment (target value : node) (operator : string)
| Call (callee : node) (arguments : list node)
| MemberAccess (object : node) (property : string) (safe : bool)
| ListLiteral (elements : list node)
| MapLiteral (entries : list (option node * node))
| Range (start end_ : node) (inclusive : bool)
| Pipeline (value : node) (stages : list node) (async_ : bool)
| Lambda (params : list (Parameter_ node)) (body : node)
| Ternary (condition then_expr else_expr : node)
| NullCoalesce (left right : node)
| SpreadElement (argument : node)
| Yield (expression : option node)
| Me
(* statements *)
| Block (statements : list node)
| ExpressionStatement (expression : node)
| VariableDeclaration (kind name : string) (type_hint : option string)
    (value : option node)
| FunctionDeclaration (name : string) (params : list (Parameter_ node))
    (body : node)
| IfStatement (condition then_branch : node) (else_branch : option node)
| WhileStatement (condition body : node)
| RepeatStatement (variable : string) (index_var : option string)
    (iterable body : node)
| CheckStatement (value : node) (cases : list (CheckCase_ node))
| TryStatement (try_block : node) (catch_var : option string)
    (catch_block finally_block : option node)
| FailStatement (error : node)
| GiveStatement (value : option node)
| StopStatement
| NextStatement
| ClassDeclaration (name : string) (parent : option string)
    (body : list (ClassMember_ node))
(* patterns *)
| RangePattern (start end_ : node)
| BindingPattern (name : string)
| WildcardPattern.

#[local] Set Elimination Schemes.

Arguments mkParameter {N}.
Arguments p_name {N}.
Arguments p_type_hint {N}.
Arguments p_default {N}.
Arguments p_rest {N}.
Arguments mkCheckCase {N}.
Arguments c_pattern {N}.
Arguments c_guard {N}.
Arguments c_body {N}.
Arguments Constructor {N}.
Arguments MethodDeclaration {N}.
Arguments PropertyDeclaration {N}.

Abbreviation Param := (Parameter_ node).
Abbreviation CheckCase := (CheckCase_ node).
Abbreviation ClassMember := (ClassMember_ node).

(** [Range(start, end)] as the parser writes it: the dataclass default
    [inclusive = True] applies. *)
Definition Range_default (start end_ : node) : node := Range start end_ true.

End Ast.
Export Ast.

(** ** Runtime values ([src/types.py], the wrappers of [src/interpreter.py]) *)

Abbreviation loc := nat.

(** The fields of a [FunctionDeclaration] that a [RiftFunction] reads. *)
Record FunctionDecl : Type := mkFunctionDecl {
  fd_name : string;
  fd_params : list Param;
  fd_body : node }.

(** [fn_serial] is the identity of the wrapper object: the host compares
    wrappers by identity. *)
Record RiftFunction : Type := mkRiftFunction {
  fn_serial : nat;
  declaration : FunctionDecl;
  closure : loc;
  is_method : bool }.

#[local] Unset Elimination Schemes.
Inductive value : Type :=
| VNone
| VBool (b : bool)
| VInt (z : Z)
| VFloat (f : spec_float)
| VStr (s : string)
| VList (items : list value)
| VMap (entries : list (value * value))
| VRange (start stop : Z)
| VFunction (f : RiftFunction)
| VLambda (serial : nat) (params : list Param) (body : node) (closure : loc)
| VBoundMethod (serial : nat) (instance : loc) (method : RiftFunction)
| VClass (cls : loc)
| VInstance (inst : loc)
| VBuiltin (name : string)
| VHostMethod (receiver : value) (name : string)
| VAccessor (serial : nat) (receiver : value) (name : string)
| VNaN (serial : nat).
#[local] Set Elimination Schemes.

Record RiftClass : Type := mkRiftClass {
  cls_name : string;
  methods : gmap string RiftFunction;
  properties : gmap string value;
  cls_parent : option loc;
  static_methods : gmap string RiftFunction;
  static_properties : gmap string value;
  _constructor : option (list Param * node) }.

Record RiftInstance : Type := mkRiftInstance {
  _class : loc;
  _properties : gmap string value }.

(** ** Errors and signals ([src/errors.py]) *)

Inductive error_class : Type :=
| LexerError | ParseError | RuntimeError | TypeError | NameError | ImportError
| AssignmentError | IndexError | KeyError | DivisionByZeroError
| ArgumentError | StopIteration.

Record RiftError : Type := mkRiftError {
  err_class : error_class;
  message : string }.

(** The four signal classes derive from the host's [Exception], not from
    [RiftError]. *)
Inductive signal : Type :=
| BreakSignal
| ContinueSignal
| ReturnSignal (v : value)
| YieldSignal (v : value).

(** Exceptions of the host itself (its own [TypeError], [ZeroDivisionError],
    [AttributeError], ...): subclasses of [Exception] that are not
    [RiftError]s. *)
Record HostException : Type := mkHostException {
  exc_class : string;
  exc_message : string }.

Inductive abort_reason : Type :=
| OutOfFuel
| Unmodelled.

Inductive outcome (A : Type) : Type :=
| Ok (a : A)
| Signalled (s : signal)
| Raised (e : RiftError)
| HostRaised (e : HostException)
| Abort (why : abort_reason).

Arguments Ok {A}.
Arguments Signalled {A}.
Arguments Raised {A}.
Arguments HostRaised {A}.
Arguments Abort {A}.

Definition raise {A : Type} (c : error_class) (msg : string) : outcome A :=
  Raised (mkRiftError c msg).

Definition host_raise {A : Type} (c msg : string) : outcome A :=
  HostRaised (mkHostException c msg).

(** ** The scope chain ([src/environment.py]) *)

Module Environment.

Record t : Type := mk {
  parent : option loc;
  name : string;
  _variables : gmap string value;
  _immutables : gset string;
  _constants : gset string;
  _types : gmap string string }.

(** All scopes ever created; a scope is named by its position. *)
Abbreviation store := (list t).

(** [Environment.__init__]. *)
Definition init (parent : option loc) (name : string) : t :=
  mk parent name ∅ ∅ ∅ ∅.

(** [define] on the scope object itself. *)
Definition define_in (e : t) (x : string) (v : value)
    (mutable constant : bool) (type_hint : option string) : t :=
  mk (parent e) (name e)
     (<[x := v]> (_variables e))
     (if constant then {[x]} ∪ _immutables e
      else if mutable then _immutables e else {[x]} ∪ _immutables e)
     (if constant then {[x]} ∪ _constants e else _constants e)
     (match type_hint with
      | Some h => if String.eqb h "" then _types e else <[x := h]> (_types e)
      | None => _types e
      end).

Definition define (σ : store) (a : loc) (x : string) (v : value)
    (mutable constant : bool) (type_hint : option string) : store :=
  alter (fun e => define_in e x v mutable constant type_hint) a σ.

(** [child]: the new scope is appended, its address is returned. *)
Definition child (σ : store) (a : loc) (name : string) : loc * store :=
  (List.length σ, σ ++ [init (Some a) name]).

(** The parent-ward walks.  A parent is always older than its child, so
    [S a] steps suffice from scope [a]; see [wf_store]. *)
Fixpoint get_walk (steps : nat) (σ : store) (a : loc) (x : string)
    : outcome value :=
  match steps with
  | O => Abort OutOfFuel
  | S n =>
    match σ !! a with
    | None => Abort OutOfFuel
    | Some e =>
      match _variables e !! x with
      | Some v => Ok v
      | None =>
        match parent e with
        | Some p => get_walk n σ p x
        | None => raise NameError ("Undefined variable '" +:+ x +:+ "'")
        end
      end
    end
  end.

Definition get (σ : store) (a : loc) (x : string) : outcome value :=
  get_walk (S a) σ a x.

Fixpoint set_walk (steps : nat) (σ : store) (a : loc) (x : string) (v : value)
    : outcome unit * store :=
  match steps with
  | O => (Abort OutOfFuel, σ)
  | S n =>
    match σ !! a with
    | None => (Abort OutOfFuel, σ)
    | Some e =>
      match _variables e !! x with
      | Some _ =>
        if decide (x ∈ _constants e) then
          (raise AssignmentError ("Cannot reassign constant '" +:+ x +:+ "'"), σ)
        else if decide (x ∈ _immutables e) then
          (raise AssignmentError
             ("Cannot reassign immutable variable '" +:+ x
              +:+ "' (use 'mut' to make it mutable)"), σ)
        else
          (Ok tt,
           <[a := mk (parent e) (name e) (<[x := v]> (_variables e))
                     (_immutables e) (_constants e) (_types e)]> σ)
      | None =>
        match parent e with
        | Some p => set_walk n σ p x v
        | None => (raise NameError ("Undefined variable '" +:+ x +:+ "'"), σ)
        end
      end
    end
  end.

Definition set (σ : store) (a : loc) (x : string) (v : value)
    : outcome unit * store :=
  set_walk (S a) σ a x v.

(** The scope in which a parent-ward walk from [a] finds [x]: the nearest
    binding. *)
Fixpoint resolve_walk (steps : nat) (σ : store) (a : loc) (x : string)
    : option loc :=
  match steps with
  | O => None
  | S n =>
    match σ !! a with
    | None => None
    | Some e =>
      match _variables e !! x with
      | Some _ => Some a
      | None =>
        match parent e with
        | Some p => resolve_walk n σ p x
        | None => None
        end
      end
    end
  end.

Definition resolve (σ : store) (a : loc) (x : string) : option loc :=
  resolve_walk (S a) σ a x.

(** Parents are older than their children. *)
Definition wf_store (σ : store) : Prop :=
  ∀ a e p, σ !! a = Some e → parent e = Some p → (p < a)%nat.

(** [GlobalEnvironment._setup_builtins]. *)
Definition global : t :=
  define_in
    (define_in
       (define_in (init None "global") "yes" (VBool true) false true None)
       "no" (VBool false) false true None)
    "none" VNone false true None.

(** [assign_at]: a write into the scope itself, without a walk; the name
    need not be bound there. *)
Definition assign_at (σ : store) (a : loc) (x : string) (v : value)
    : outcome unit * store :=
  match σ !! a with
  | None => (Abort OutOfFuel, σ)
  | Some e =>
      if decide (x ∈ _constants e) then
        (raise AssignmentError ("Cannot reassign constant '" +:+ x +:+ "'"), σ)
      else if decide (x ∈ _immutables e) then
        (raise AssignmentError
           ("Cannot reassign immutable variable '" +:+ x +:+ "'"), σ)
      else
        (Ok tt,
         <[a := mk (parent e) (name e) (<[x := v]> (_variables e))
                   (_immutables e) (_constants e) (_types e)]> σ)
  end.

(** [has]: the recursive call passes no [local_only], which is then off. *)
Fixpoint has_walk (steps : nat) (σ : store) (a : loc) (x : string)
    (local_only : bool) : outcome bool :=
  match steps with
  | O => Abort OutOfFuel
  | S n =>
    match σ !! a with
    | None => Abort OutOfFuel
    | Some e =>
      match _variables e !! x with
      | Some _ => Ok true
      | None =>
        if local_only then Ok false
        else
          match parent e with
          | Some p => has_walk n σ p x false
          | None => Ok false
          end
      end
    end
  end.

Definition has (σ : store) (a : loc) (x : string) (local_only : bool)
    : outcome bool :=
  has_walk (S a) σ a x local_only.

(** [is_immutable] and [is_constant]: the walks read the two sets of names,
    not the bindings. *)
Fixpoint is_immutable_walk (steps : nat) (σ : store) (a : loc) (x : string)
    : outcome bool :=
  match steps with
  | O => Abort OutOfFuel
  | S n =>
    match σ !! a with
    | None => Abort OutOfFuel
    | Some e =>
      if decide (x ∈ _immutables e) then Ok true
      else
        match parent e with
        | Some p => is_immutable_walk n σ p x
        | None => Ok false
        end
    end
  end.

Definition is_immutable (σ : store) (a : loc) (x : string) : outcome bool :=
  is_immutable_walk (S a) σ a x.

Fixpoint is_constant_walk (steps : nat) (σ : store) (a : loc) (x : string)
    : outcome bool :=
  match steps with
  | O => Abort OutOfFuel
  | S n =>
    match σ !! a with
    | None => Abort OutOfFuel
    | Some e =>
      if decide (x ∈ _constants e) then Ok true
      else
        match parent e with
        | Some p => is_constant_walk n σ p x
        | None => Ok false
        end
    end
  end.

Definition is_constant (σ : store) (a : loc) (x : string) : outcome bool :=
  is_constant_walk (S a) σ a x.

(** [copy]: a new scope object with the same parent and copies of the four
    tables; its address is returned. *)
Definition copy (σ : store) (a : loc) : outcome loc * store :=
  match σ !! a with
  | Some e =>
      (Ok (List.length σ),
       σ ++ [mk (parent e) (name e) (_variables e) (_immutables e)
                (_constants e) (_types e)])
  | None => (Abort OutOfFuel, σ)
  end.

End Environment.

(** ** The host's operations on values

    What the evaluator delegates to the host language: equality, ordering,
    arithmetic, text forms and container lookups.  A host operation ends in
    [Ok], in [HostRaised] (an exception of the host) or in
    [Abort Unmodelled]. *)

Module Host.

Definition prec : Z := 53.
Definition emax : Z := 1024.

Inductive number : Type :=
| NInt (z : Z)
| NFloat (f : spec_float).

(** The host's numeric tower: booleans are integers. *)
Definition number_of (v : value) : option number :=
  match v with
  | VBool b => Some (NInt (Z.b2z b))
  | VInt z => Some (NInt z)
  | VFloat f => Some (NFloat f)
  | VNaN _ => Some (NFloat S754_nan)
  | _ => None
  end.

Definition is_nan (f : spec_float) : bool :=
  match f with S754_nan => true | _ => false end.

(** An integer as an exact (unrounded) binary number. *)
Definition exact_of_int (z : Z) : spec_float :=
  match z with
  | Z0 => S754_zero false
  | Zpos p => S754_finite false p 0
  | Zneg p => S754_finite true p 0
  end.

(** Integer to float, rounding to nearest even; the host refuses integers
    beyond the float range. *)
Definition float_of_int (z : Z) : outcome spec_float :=
  match binary_normalize prec emax z 0 false with
  | S754_infinity _ =>
      host_raise "OverflowError" "int too large to convert to float"
  | f => Ok f
  end.

(** Exact comparison of an integer with a float; [None] for a NaN. *)
Definition int_float_compare (z : Z) (f : spec_float) : option comparison :=
  match f with
  | S754_nan => None
  | S754_infinity s => Some (if s then Gt else Lt)
  | S754_zero _ => Some (z ?= 0)
  | S754_finite s m e =>
      let mz := if s then Z.neg m else Z.pos m in
      Some (if 0 <=? e then z ?= mz * 2 ^ e else z * 2 ^ (- e) ?= mz)
  end.

Definition number_compare (a b : number) : option comparison :=
  match a, b with
  | NInt x, NInt y => Some (x ?= y)
  | NFloat x, NFloat y => SFcompare x y
  | NInt x, NFloat y => int_float_compare x y
  | NFloat x, NInt y => CompOpp <$> int_float_compare y x
  end.

Definition number_eqb (a b : number) : bool :=
  match number_compare a b with Some Eq => true | _ => false end.

Definition range_len (start stop : Z) : Z := Z.max 0 (stop - start).

(** The items of the host's [range(start, stop)]. *)
Definition range_items (start stop : Z) : list Z :=
  map (fun i => start + Z.of_nat i) (seq 0 (Z.to_nat (stop - start))).

Definition range_eqb (s1 e1 s2 e2 : Z) : bool :=
  (range_len s1 e1 =? range_len s2 e2)
  && ((range_len s1 e1 =? 0) || (s1 =? s2)).

(** The identity test of the host on two items, where the embedding
    records it: two NaN are one object when they carry one serial.  On
    every other pair of items the test adds nothing to [==]. *)
Definition same_nan (x y : value) : bool :=
  match x, y with
  | VNaN i, VNaN j => (i =? j)%nat
  | _, _ => false
  end.

(** The host's [==].  Numbers compare by value across the tower (a NaN is
    unequal to everything, itself included); text, sequences, maps and
    ranges compare by content; wrappers, closures, classes and instances by
    identity; a method of the host bound to its receiver by receiver and
    name, the receiver standing for one object where its content is the
    same.  Two items of sequences, two keys and two values of maps are
    taken as equal when they are one object, and compared otherwise
    ([PyObject_RichCompareBool]).  A map lookup finds the first stored key
    that the probe is, or equals; host equality is symmetric on these
    values, the recursion takes the probe first. *)
Fixpoint py_eq (x y : value) {struct x} : bool :=
  match number_of x, number_of y with
  | Some a, Some b => number_eqb a b
  | Some _, None | None, Some _ => false
  | None, None =>
    match x, y with
    | VNone, VNone => true
    | VStr a, VStr b => String.eqb a b
    | VList xs, VList ys =>
      (fix all2 (xs ys : list value) {struct xs} : bool :=
         match xs, ys with
         | [], [] => true
         | a :: xs', b :: ys' => (same_nan a b || py_eq a b) && all2 xs' ys'
         | _, _ => false
         end) xs ys
    | VMap m1, VMap m2 =>
      (List.length m1 =? List.length m2)%nat
      && (fix each (m : list (value * value)) {struct m} : bool :=
            match m with
            | [] => true
            | (k, v) :: m' =>
              (fix find (n : list (value * value)) {struct n} : bool :=
                 match n with
                 | [] => false
                 | (k', v') :: n' =>
                     if same_nan k k' || py_eq k k'
                     then same_nan v v' || py_eq v v'
                     else find n'
                 end) m2
              && each m'
            end) m1
    | VRange s1 e1, VRange s2 e2 => range_eqb s1 e1 s2 e2
    | VFunction f, VFunction g => (fn_serial f =? fn_serial g)%nat
    | VLambda i _ _ _, VLambda j _ _ _ => (i =? j)%nat
    | VBoundMethod i _ _, VBoundMethod j _ _ => (i =? j)%nat
    | VClass a, VClass b => (a =? b)%nat
    | VInstance a, VInstance b => (a =? b)%nat
    | VBuiltin a, VBuiltin b => String.eqb a b
    | VHostMethod r1 n1, VHostMethod r2 n2 =>
        (same_nan r1 r2 || py_eq r1 r2) && String.eqb n1 n2
    | VAccessor i _ _, VAccessor j _ _ => (i =? j)%nat
    | _, _ => false
    end
  end.

(** The comparison of two items: one object, or equal objects. *)
Definition py_eq_item (x y : value) : bool := same_nan x y || py_eq x y.

(** Elementwise equality of two sequences, as the [VList] case of [py_eq]
    unfolds. *)
Fixpoint list_eq (xs ys : list value) : bool :=
  match xs, ys with
  | [], [] => true
  | a :: xs', b :: ys' => py_eq_item a b && list_eq xs' ys'
  | _, _ => false
  end.

(** Map lookup: the value stored under the first key that the probe is, or
    equals. *)
Fixpoint dict_find (m : list (value * value)) (k : value) : option value :=
  match m with
  | [] => None
  | (k', v') :: m' => if py_eq_item k k' then Some v' else dict_find m' k
  end.

(** Equality of two maps, as the [VMap] case of [py_eq] unfolds: as many
    entries, and every entry of the first found in the second with an equal
    value. *)
Definition dict_eq (m1 m2 : list (value * value)) : bool :=
  (List.length m1 =? List.length m2)%nat
  && forallb (fun kv => match dict_find m2 (fst kv) with
                        | Some v' => py_eq_item (snd kv) v'
                        | None => false
                        end) m1.

(** [m[k] = v]: overwrite the entry of the key that [k] is or equals, else
    append. *)
Fixpoint dict_set (m : list (value * value)) (k v : value)
    : list (value * value) :=
  match m with
  | [] => [(k, v)]
  | (k', v') :: m' =>
      if py_eq_item k k' then (k', v) :: m' else (k', v') :: dict_set m' k v
  end.

Definition dict_update (m other : list (value * value))
    : list (value * value) :=
  fold_left (fun acc kv => dict_set acc (fst kv) (snd kv)) other m.

(** Sequences and maps have no hash: they cannot be keys. *)
Definition hashable (v : value) : bool :=
  match v with
  | VList _ | VMap _ => false
  | _ => true
  end.

(** [_is_truthy] reads only host facts; it is defined with the evaluator.
    The host's [str(x)], for the values whose text form is transcribed. *)
Definition py_str (v : value) : outcome string :=
  match v with
  | VStr s => Ok s
  | VInt z => Ok (pretty z)
  | VBool true => Ok "True"
  | VBool false => Ok "False"
  | VNone => Ok "None"
  | _ => Abort Unmodelled
  end.

Definition unsupported {A : Type} (op : string) : outcome A :=
  host_raise "TypeError" ("unsupported operand type(s) for " +:+ op).

(** Binary arithmetic on the numeric tower; an integer meeting a float is
    converted first. *)
Definition arith (op : string) (iop : Z → Z → outcome value)
    (fop : spec_float → spec_float → outcome value) (l r : value)
    : outcome value :=
  match number_of l, number_of r with
  | Some (NInt a), Some (NInt b) => iop a b
  | Some (NFloat a), Some (NFloat b) => fop a b
  | Some (NInt a), Some (NFloat b) =>
      match float_of_int a with
      | Ok fa => fop fa b
      | HostRaised e => HostRaised e
      | _ => Abort Unmodelled
      end
  | Some (NFloat a), Some (NInt b) =>
      match float_of_int b with
      | Ok fb => fop a fb
      | HostRaised e => HostRaised e
      | _ => Abort Unmodelled
      end
  | _, _ => unsupported op
  end.

Definition py_add_num : value → value → outcome value :=
  arith "+" (fun a b => Ok (VInt (a + b)))
            (fun a b => Ok (VFloat (SFadd prec emax a b))).

(** The host's [+]: concatenation of two texts or of two sequences, else
    numeric. *)
Definition py_add (l r : value) : outcome value :=
  match l, r with
  | VStr a, VStr b => Ok (VStr (a +:+ b))
  | VList a, VList b => Ok (VList (a ++ b))
  | _, _ => py_add_num l r
  end.

(** The host's unary [-] and [+]; [+] returns a float as it is. *)
Definition py_neg (v : value) : outcome value :=
  match number_of v with
  | Some (NInt z) => Ok (VInt (- z))
  | Some (NFloat f) => Ok (VFloat (SFopp f))
  | None => host_raise "TypeError" "bad operand type for unary -"
  end.

Definition py_pos (v : value) : outcome value :=
  match number_of v with
  | Some (NInt z) => Ok (VInt z)
  | Some (NFloat f) => Ok v
  | None => host_raise "TypeError" "bad operand type for unary +"
  end.

Definition py_sub : value → value → outcome value :=
  arith "-" (fun a b => Ok (VInt (a - b)))
            (fun a b => Ok (VFloat (SFsub prec emax a b))).

Definition py_mul_num : value → value → outcome value :=
  arith "*" (fun a b => Ok (VInt (a * b)))
            (fun a b => Ok (VFloat (SFmul prec emax a b))).

Fixpoint repeat_string (n : nat) (s : string) : string :=
  match n with
  | O => ""
  | S k => s +:+ repeat_string k s
  end.

Definition repeat_list (n : nat) (l : list value) : list value :=
  concat (replicate n l).

(** The host's [*]: repetition of a text or a sequence by an integer (on
    either side), else numeric. *)
Definition py_mul (l r : value) : outcome value :=
  match l, r with
  | VStr s, (VInt _ | VBool _) | (VInt _ | VBool _), VStr s =>
      match number_of l, number_of r with
      | Some (NInt n), _ | _, Some (NInt n) =>
          Ok (VStr (repeat_string (Z.to_nat n) s))
      | _, _ => unsupported "*"
      end
  | VList xs, (VInt _ | VBool _) | (VInt _ | VBool _), VList xs =>
      match number_of l, number_of r with
      | Some (NInt n), _ | _, Some (NInt n) =>
          Ok (VList (repeat_list (Z.to_nat n) xs))
      | _, _ => unsupported "*"
      end
  | _, _ => py_mul_num l r
  end.

Definition is_zero (n : number) : bool :=
  match n with
  | NInt z => z =? 0
  | NFloat (S754_zero _) => true
  | NFloat _ => false
  end.

Definition as_float (n : number) : outcome spec_float :=
  match n with
  | NInt z => float_of_int z
  | NFloat f => Ok f
  end.

(** The host's true division [/].  Two integers give the correctly rounded
    quotient, refused when it exceeds the float range.  Otherwise both
    operands are taken as floats and the division is IEEE; the divisor is
    tested for zero after the conversions (an integer converts to zero only
    when it is zero). *)
Definition py_truediv (l r : value) : outcome value :=
  match number_of l, number_of r with
  | Some (NInt a), Some (NInt b) =>
      if b =? 0 then host_raise "ZeroDivisionError" "division by zero"
      else
        match SFdiv prec emax (exact_of_int a) (exact_of_int b) with
        | S754_infinity _ =>
            host_raise "OverflowError"
              "integer division result too large for a float"
        | q => Ok (VFloat q)
        end
  | Some a, Some b =>
      match as_float a with
      | Ok fa =>
          match as_float b with
          | Ok fb =>
              if is_zero b then
                host_raise "ZeroDivisionError" "float division by zero"
              else Ok (VFloat (SFdiv prec emax fa fb))
          | HostRaised e => HostRaised e
          | _ => Abort Unmodelled
          end
      | HostRaised e => HostRaised e
      | _ => Abort Unmodelled
      end
  | _, _ => unsupported "/"
  end.

(** The host's [%] and [**], on integers. *)
Definition py_mod (l r : value) : outcome value :=
  match number_of l, number_of r with
  | Some (NInt a), Some (NInt b) =>
      if b =? 0 then
        host_raise "ZeroDivisionError" "integer modulo by zero"
      else Ok (VInt (a mod b))
  | Some _, Some _ => Abort Unmodelled
  | _, _ => match l with VStr _ => Abort Unmodelled | _ => unsupported "%" end
  end.

Definition py_pow (l r : value) : outcome value :=
  match number_of l, number_of r with
  | Some (NInt a), Some (NInt b) =>
      if 0 <=? b then Ok (VInt (a ^ b)) else Abort Unmodelled
  | Some _, Some _ => Abort Unmodelled
  | _, _ => unsupported "**"
  end.

(** The host's orderings [<], [>], [<=], [>=]. *)
Definition holds (op : string) (c : option comparison) : bool :=
  match c with
  | None => false
  | Some c =>
      if String.eqb op "<" then match c with Lt => true | _ => false end
      else if String.eqb op ">" then match c with Gt => true | _ => false end
      else if String.eqb op "<=" then match c with Gt => false | _ => true end
      else match c with Lt => false | _ => true end
  end.

Definition py_order (op : string) (l r : value) : outcome bool :=
  match number_of l, number_of r with
  | Some a, Some b => Ok (holds op (number_compare a b))
  | _, _ =>
    match l, r with
    | VStr a, VStr b => Ok (holds op (Some (String.compare a b)))
    | VList _, VList _ => Abort Unmodelled
    | _, _ =>
        host_raise "TypeError"
          ("'" +:+ op +:+ "' not supported between instances")
    end
  end.

Definition is_substring (sub s : string) : bool :=
  match String.index 0 sub s with Some _ => true | None => false end.

(** The host's membership test [l in r]. *)
Definition py_in (l r : value) : outcome bool :=
  match r with
  | VList items => Ok (existsb (fun item => py_eq_item l item) items)
  | VStr s =>
      match l with
      | VStr sub => Ok (is_substring sub s)
      | _ =>
          host_raise "TypeError"
            "'in <string>' requires string as left operand"
      end
  | VMap m =>
      if hashable l then
        Ok (match dict_find m l with Some _ => true | None => false end)
      else host_raise "TypeError" "unhashable type"
  | VRange start stop =>
      match number_of l with
      | Some (NInt z) => Ok ((start <=? z) && (z <? stop))
      | Some (NFloat _) => Abort Unmodelled
      | None => Ok false
      end
  | _ => host_raise "TypeError" "argument is not iterable"
  end.

End Host.
Export Host.

(** ** Type names ([src/types.py]) *)

Module Types.

Inductive RiftType : Type :=
| TEXT | NUM | BOOL | LIST | MAP | NONE | CONDUIT | CLASS | INSTANCE | ANY
| GENERATOR.

Definition RiftType_eqb (a b : RiftType) : bool :=
  match a, b with
  | TEXT, TEXT | NUM, NUM | BOOL, BOOL | LIST, LIST | MAP, MAP | NONE, NONE
  | CONDUIT, CONDUIT | CLASS, CLASS | INSTANCE, INSTANCE | ANY, ANY
  | GENERATOR, GENERATOR => true
  | _, _ => false
  end.

Definition TYPE_NAMES : list (string * RiftType) :=
  [("text", TEXT); ("num", NUM); ("bool", BOOL); ("list", LIST);
   ("map", MAP); ("none", NONE); ("conduit", CONDUIT); ("any", ANY)].

Fixpoint assoc {A : Type} (k : string) (l : list (string * A)) : option A :=
  match l with
  | [] => None
  | (k', a) :: l' => if String.eqb k k' then Some a else assoc k l'
  end.

(** What the host's [callable] answers: the wrappers of the interpreter
    define no call protocol. *)
Definition py_callable (v : value) : bool :=
  match v with
  | VBuiltin _ | VHostMethod _ _ | VAccessor _ _ _ => true
  | _ => false
  end.

Definition get_type (v : value) : RiftType :=
  match v with
  | VNone => NONE
  | VBool _ => BOOL
  | VInt _ | VFloat _ | VNaN _ => NUM
  | VStr _ => TEXT
  | VList _ => LIST
  | VMap _ => MAP
  | VInstance _ => INSTANCE
  | _ => if py_callable v then CONDUIT else ANY
  end.

Definition type_name (v : value) : string :=
  match get_type v with
  | TEXT => "text" | NUM => "num" | BOOL => "bool" | LIST => "list"
  | MAP => "map" | NONE => "none" | CONDUIT => "conduit" | ANY => "any"
  | INSTANCE => "instance" | _ => "any"
  end.

Definition check_type (v : value) (expected_type : string) : bool :=
  match assoc expected_type TYPE_NAMES with
  | None => true
  | Some ANY => true
  | Some expected => RiftType_eqb (get_type v) expected
  end.

End Types.
Export Types.

(** ** The evaluator ([src/interpreter.py]) *)

Module Interpreter.

(** The interpreter object and the objects it reaches. *)
Record state : Type := mkState {
  envs : Environment.store;
  classes : list RiftClass;
  instances : list RiftInstance;
  current_env : loc;
  next_serial : nat }.

Definition set_envs (σ : Environment.store) (st : state) : state :=
  mkState σ (classes st) (instances st) (current_env st) (next_serial st).
Definition set_classes (c : list RiftClass) (st : state) : state :=
  mkState (envs st) c (instances st) (current_env st) (next_serial st).
Definition set_instances (i : list RiftInstance) (st : state) : state :=
  mkState (envs st) (classes st) i (current_env st) (next_serial st).
Definition set_current_env (a : loc) (st : state) : state :=
  mkState (envs st) (classes st) (instances st) a (next_serial st).
Definition set_next_serial (n : nat) (st : state) : state :=
  mkState (envs st) (classes st) (instances st) (current_env st) n.

(** Computations of the evaluator: a result or an exceptional exit, and the
    state left behind. *)
Definition M (A : Type) : Type := state → outcome A * state.

Definition ret {A : Type} (a : A) : M A := fun st => (Ok a, st).

Definition bind {A B : Type} (m : M A) (k : A → M B) : M B := fun st =>
  match m st with
  | (Ok a, st') => k a st'
  | (Signalled s, st') => (Signalled s, st')
  | (Raised e, st') => (Raised e, st')
  | (HostRaised e, st') => (HostRaised e, st')
  | (Abort w, st') => (Abort w, st')
  end.

Notation "x <- m ;; k" := (bind m (fun x => k))
  (at level 100, m at next level, right associativity).
Notation "m ;;; k" := (bind m (fun _ => k))
  (at level 100, right associativity).

(** An outcome of the host, or of a scope operation, as a computation. *)
Definition lift {A : Type} (o : outcome A) : M A := fun st => (o, st).

Definition throw {A : Type} (c : error_class) (msg : string) : M A :=
  lift (raise c msg).

Definition signal_ {A : Type} (s : signal) : M A := lift (Signalled s).

Definition abort {A : Type} (w : abort_reason) : M A := lift (Abort w).

Definition get_current_env : M loc := fun st => (Ok (current_env st), st).

(** [prev_env = self.current_env; self.current_env = env; try: ...
    finally: self.current_env = prev_env]. *)
Definition in_env {A : Type} (env : loc) (m : M A) : M A := fun st =>
  let prev := current_env st in
  let '(r, st') := m (set_current_env env st) in
  (r, set_current_env prev st').

Definition env_define (a : loc) (x : string) (v : value)
    (mutable constant : bool) (type_hint : option string) : M unit :=
  fun st =>
    (Ok tt,
     set_envs (Environment.define (envs st) a x v mutable constant type_hint)
              st).

Definition env_child (a : loc) (name : string) : M loc := fun st =>
  let '(b, σ) := Environment.child (envs st) a name in (Ok b, set_envs σ st).

Definition env_get (a : loc) (x : string) : M value := fun st =>
  (Environment.get (envs st) a x, st).

Definition env_set (a : loc) (x : string) (v : value) : M unit := fun st =>
  let '(r, σ) := Environment.set (envs st) a x v in (r, set_envs σ st).

(** A new wrapper object: its identity. *)
Definition fresh_serial : M nat := fun st =>
  (Ok (next_serial st), set_next_serial (S (next_serial st)) st).

(** What an arithmetic operation of the host returns: a float is a new
    object, whose creation is recorded when it is a NaN. *)
Definition number_result (r : outcome value) : M value :=
  match r with
  | Ok (VFloat S754_nan) => n <- fresh_serial ;; ret (VNaN n)
  | other => lift other
  end.

Definition new_class (c : RiftClass) : M loc := fun st =>
  (Ok (List.length (classes st)), set_classes (classes st ++ [c]) st).

Definition get_class (c : loc) : M RiftClass := fun st =>
  match classes st !! c with
  | Some k => (Ok k, st)
  | None => (Abort OutOfFuel, st)
  end.

Definition get_instance (i : loc) : M RiftInstance := fun st =>
  match instances st !! i with
  | Some o => (Ok o, st)
  | None => (Abort OutOfFuel, st)
  end.

(** [RiftInstance.__init__]: the own properties start as a copy of the
    class's defaults. *)
Definition new_instance (c : loc) : M loc := fun st =>
  match classes st !! c with
  | Some k =>
      (Ok (List.length (instances st)),
       set_instances (instances st ++ [mkRiftInstance c (properties k)]) st)
  | None => (Abort OutOfFuel, st)
  end.

(** [RiftInstance.set_property]. *)
Definition set_property (i : loc) (x : string) (v : value) : M unit :=
  fun st =>
    (Ok tt,
     set_instances
       (alter (fun o => mkRiftInstance (_class o) (<[x := v]> (_properties o)))
              i (instances st)) st).

(** The walks of [get_property] and [get_method] through the parent
    classes; a parent class is older than its heirs. *)
Fixpoint parent_property (steps : nat) (cs : list RiftClass)
    (parent : option loc) (x : string) : option value :=
  match steps, parent with
  | S n, Some p =>
      match cs !! p with
      | Some k =>
          match properties k !! x with
          | Some v => Some v
          | None => parent_property n cs (cls_parent k) x
          end
      | None => None
      end
  | _, _ => None
  end.

(** [RiftInstance.get_property]; [None] stands for the host's
    [AttributeError]. *)
Definition get_property (st : state) (i : loc) (x : string) : option value :=
  match instances st !! i with
  | Some o =>
      match _properties o !! x with
      | Some v => Some v
      | None =>
          match classes st !! _class o with
          | Some k =>
              parent_property (S (_class o)) (classes st) (cls_parent k) x
          | None => None
          end
      end
  | None => None
  end.

Fixpoint class_method (steps : nat) (cs : list RiftClass) (c : option loc)
    (x : string) : option RiftFunction :=
  match steps, c with
  | S n, Some p =>
      match cs !! p with
      | Some k =>
          match methods k !! x with
          | Some f => Some f
          | None => class_method n cs (cls_parent k) x
          end
      | None => None
      end
  | _, _ => None
  end.

(** [RiftInstance.get_method]. *)
Definition get_method (st : state) (i : loc) (x : string)
    : option RiftFunction :=
  match instances st !! i with
  | Some o => class_method (S (S (_class o))) (classes st) (Some (_class o)) x
  | None => None
  end.

(** [_is_truthy]. *)
Definition _is_truthy (v : value) : bool :=
  match v with
  | VNone => false
  | VBool b => b
  | VInt z => negb (py_eq v (VInt 0))
  | VFloat f => negb (py_eq v (VInt 0))
  | VNaN _ => true
  | VStr s => (0 <? String.length s)%nat
  | VList l => (0 <? List.length l)%nat
  | VMap m => (0 <? List.length m)%nat
  | _ => true
  end.

Definition value_of_literal (l : literal_value) : value :=
  match l with
  | LitNone => VNone
  | LitBool b => VBool b
  | LitInt z => VInt z
  | LitFloat f => VFloat f
  | LitStr s => VStr s
  end.

(** What the host answers when the evaluator probes an object for a
    callable attribute ([hasattr], [getattr], [callable]). *)
Inductive attr_lookup : Type :=
| AttrCallable (v : value)
| AttrAbsent
| AttrUnmodelled.

(** The host side of the evaluator: attribute probing, and the call of a
    host function, which may call back into [_call]. *)
Record host_interface : Type := mkHost {
  host_getattr : value → string → attr_lookup;
  host_call : (value → list value → M value) → value → list value → M value }.

(** Pattern bindings: a map from names to values in insertion order. *)
Definition bindings : Type := list (string * value).

Fixpoint bindings_set (b : bindings) (x : string) (v : value) : bindings :=
  match b with
  | [] => [(x, v)]
  | (y, w) :: b' =>
      if String.eqb x y then (y, v) :: b' else (y, w) :: bindings_set b' x v
  end.

Definition bindings_update (b sub : bindings) : bindings :=
  fold_left (fun acc kv => bindings_set acc (fst kv) (snd kv)) sub b.

(** [for name, val in bindings.items(): env.define(name, val,
    mutable=False)]. *)
Fixpoint define_bindings (env : loc) (b : bindings) : M unit :=
  match b with
  | [] => ret tt
  | (x, v) :: b' =>
      env_define env x v false false None ;;; define_bindings env b'
  end.

Definition is_ascii (s : string) : bool :=
  forallb (fun c => (Ascii.nat_of_ascii c <? 128)%nat) (list_ascii_of_string s).

Definition chars (s : string) : list value :=
  map (fun c => VStr (String c "")) (list_ascii_of_string s).

(** The items a spread contributes: those of a value that has [__iter__]
    and is not a text. *)
Definition spread_items (v : value) : option (list value) :=
  match v with
  | VList l => Some l
  | VRange a b => Some (map VInt (range_items a b))
  | VMap m => Some (map fst m)
  | _ => None
  end.

Definition is_spread (n : node) : bool :=
  match n with SpreadElement _ => true | _ => false end.

Fixpoint flatten_args (nodes : list node) (args : list value) : list value :=
  match nodes, args with
  | n :: ns, a :: rest =>
      (if is_spread n then
         match spread_items a with Some l => l | None => [a] end
       else [a]) ++ flatten_args ns rest
  | _, _ => []
  end.

(** The position a sequence index denotes: a negative index counts from
    the end. *)
Definition py_index (len : nat) (i : Z) : option nat :=
  if (0 <=? i) && (i <? Z.of_nat len) then Some (Z.to_nat i)
  else if (i <? 0) && (- Z.of_nat len <=? i) then
    Some (Z.to_nat (Z.of_nat len + i))
  else None.

Definition item_at (what : string) (items : list value) (index : value)
    : outcome value :=
  match number_of index with
  | Some (NInt i) =>
      match py_index (List.length items) i with
      | Some n =>
          match items !! n with
          | Some x => Ok x
          | None => host_raise "IndexError" (what +:+ " index out of range")
          end
      | None => host_raise "IndexError" (what +:+ " index out of range")
      end
  | _ => host_raise "TypeError" (what +:+ " indices must be integers")
  end.

(** The host's [obj[index]]. *)
Definition py_getitem (obj index : value) : outcome value :=
  match obj with
  | VList l => item_at "list" l index
  | VStr s =>
      if is_ascii s then item_at "string" (chars s) index
      else Abort Unmodelled
  | VRange a b => item_at "range object" (map VInt (range_items a b)) index
  | VMap m =>
      if hashable index then
        match dict_find m index with
        | Some v => Ok v
        | None => host_raise "KeyError" "key not found"
        end
      else host_raise "TypeError" "unhashable type"
  | _ => host_raise "TypeError" "object is not subscriptable"
  end.

(** The host's [len] of a sequence or a text. *)
Definition py_len (obj : value) : outcome Z :=
  match obj with
  | VList l => Ok (Z.of_nat (List.length l))
  | VStr s =>
      if is_ascii s then Ok (Z.of_nat (String.length s)) else Abort Unmodelled
  | _ => host_raise "TypeError" "object has no len()"
  end.

Definition is_lookup_error (e : HostException) : bool :=
  String.eqb (exc_class e) "IndexError" || String.eqb (exc_class e) "KeyError".

(** The guarded block of [_eval_IndexAccess], the two operands evaluated. *)
Definition subscript (safe : bool) (obj index : value) : outcome value :=
  match obj, number_of index with
  | (VList _ | VStr _), Some (NInt i) =>
      if safe then
        match py_len obj with
        | Ok n => if (i <? 0) || (n <=? i) then Ok VNone
                  else py_getitem obj index
        | HostRaised e => HostRaised e
        | _ => Abort Unmodelled
        end
      else py_getitem obj index
  | VMap _, _ =>
      if safe then
        match py_in index obj with
        | Ok true => py_getitem obj index
        | Ok false => Ok VNone
        | HostRaised e => HostRaised e
        | _ => Abort Unmodelled
        end
      else py_getitem obj index
  | _, _ => py_getitem obj index
  end.

Section Evaluator.

Variable host : host_interface.

(** [self.evaluate] and [self._call] one level of recursion further down. *)
Variable self_evaluate : node → M value.
Variable self_call : value → list value → M value.

(** [[self.evaluate(n) for n in nodes]]. *)
Fixpoint eval_each (nodes : list node) : M (list value) :=
  match nodes with
  | [] => ret []
  | n :: rest =>
      v <- self_evaluate n ;; vs <- eval_each rest ;; ret (v :: vs)
  end.

(** [result = None; for stmt in statements: result = self.evaluate(stmt)]. *)
Fixpoint eval_sequence (result : value) (statements : list node) : M value :=
  match statements with
  | [] => ret result
  | stmt :: rest => v <- self_evaluate stmt ;; eval_sequence v rest
  end.

Definition execute (body : list node) : M value := eval_sequence VNone body.

Definition _eval_Block (statements : list node) : M value :=
  eval_sequence VNone statements.

Definition _eval_ExpressionStatement (expression : node) : M value :=
  self_evaluate expression.

(** [self.evaluate(n)] for an optional child: [evaluate(None)] is [None]. *)
Definition eval_optional (n : option node) : M value :=
  match n with
  | Some e => self_evaluate e
  | None => ret VNone
  end.

Definition nonempty (s : option string) : bool :=
  match s with
  | Some h => negb (String.eqb h "")
  | None => false
  end.

Definition is_none (v : value) : bool :=
  match v with VNone => true | _ => false end.

Definition _eval_VariableDeclaration (kind name : string)
    (type_hint : option string) (value_ : option node) : M value :=
  v <- eval_optional value_ ;;
  (if nonempty type_hint && negb (is_none v)
      && negb (check_type v (default "" type_hint))
   then throw TypeError
          ("Expected type '" +:+ default "" type_hint +:+ "', got '"
           +:+ type_name v +:+ "'")
   else ret tt) ;;;
  env <- get_current_env ;;
  env_define env name v (String.eqb kind "mut") (String.eqb kind "const")
             type_hint ;;;
  ret VNone.

Definition _eval_FunctionDeclaration (name : string) (params : list Param)
    (body : node) : M value :=
  env <- get_current_env ;;
  n <- fresh_serial ;;
  let func := mkRiftFunction n (mkFunctionDecl name params body) env false in
  env_define env name (VFunction func) false false None ;;;
  ret (VFunction func).

Definition _eval_IfStatement (condition then_branch : node)
    (else_branch : option node) : M value :=
  c <- self_evaluate condition ;;
  if _is_truthy c then self_evaluate then_branch
  else match else_branch with
       | Some e => self_evaluate e
       | None => ret VNone
       end.

(** The host's [while] loop, by the number of iterations still allowed. *)
Fixpoint while_loop (rounds : nat) (condition body : node) (result : value)
    : M value :=
  match rounds with
  | O => abort OutOfFuel
  | S k =>
      c <- self_evaluate condition ;;
      if _is_truthy c then
        fun st =>
          match self_evaluate body st with
          | (Ok v, st') => while_loop k condition body v st'
          | (Signalled BreakSignal, st') => (Ok result, st')
          | (Signalled ContinueSignal, st') =>
              while_loop k condition body result st'
          | other => other
          end
      else ret result
  end.

Definition _eval_WhileStatement (rounds : nat) (condition body : node)
    : M value :=
  while_loop rounds condition body VNone.

(** The body of the [for i, item in enumerate(iterable)] loop. *)
Fixpoint repeat_loop (env : loc) (variable : string)
    (index_var : option string) (body : node) (i : nat) (items : list value)
    (result : value) : M value :=
  match items with
  | [] => ret result
  | item :: rest =>
      (if nonempty index_var then
         env_define env (default "" index_var) (VInt (Z.of_nat i))
                    false false None
       else ret tt) ;;;
      env_define env variable item false false None ;;;
      fun st =>
        match self_evaluate body st with
        | (Ok v, st') =>
            repeat_loop env variable index_var body (S i) rest v st'
        | (Signalled BreakSignal, st') => (Ok result, st')
        | (Signalled ContinueSignal, st') =>
            repeat_loop env variable index_var body (S i) rest result st'
        | other => other
        end
  end.

Definition _eval_RepeatStatement (variable : string)
    (index_var : option string) (iterable body : node) : M value :=
  it <- self_evaluate iterable ;;
  items <- (match it with
            | VRange a b => ret (map VInt (range_items a b))
            | VStr s => if is_ascii s then ret (chars s) else abort Unmodelled
            | VMap _ => abort Unmodelled
            | VList l => ret l
            | _ => throw TypeError ("Cannot iterate over " +:+ type_name it)
            end) ;;
  cur <- get_current_env ;;
  env <- env_child cur "repeat" ;;
  in_env env (repeat_loop env variable index_var body 0 items VNone).

(** [_match_pattern]: whether the pattern matches, and the bindings
    collected so far. *)
Fixpoint _match_pattern (pattern : node) (v : value) {struct pattern}
    : M (bool * bindings) :=
  match pattern with
  | WildcardPattern => ret (true, [])
  | Literal lit => ret (py_eq (value_of_literal lit) v, [])
  | BindingPattern x => ret (true, [(x, v)])
  | RangePattern s e =>
      start <- self_evaluate s ;;
      end_ <- self_evaluate e ;;
      match v with
      | VBool _ | VInt _ | VFloat _ | VNaN _ =>
          lo <- lift (py_order "<=" start v) ;;
          if lo then hi <- lift (py_order "<=" v end_) ;; ret (hi, [])
          else ret (false, [])
      | _ => ret (false, [])
      end
  | ListLiteral elements =>
      match v with
      | VList items =>
          if negb (List.length elements =? List.length items)%nat
          then ret (false, [])
          else
            (fix each (ps : list node) (vs : list value) (acc : bindings)
                 {struct ps} : M (bool * bindings) :=
               match ps, vs with
               | p :: ps', x :: vs' =>
                   r <- _match_pattern p x ;;
                   if fst r then each ps' vs' (bindings_update acc (snd r))
                   else ret (false, acc)
               | _, _ => ret (true, acc)
               end) elements items []
      | _ => ret (false, [])
      end
  | MapLiteral entries =>
      match v with
      | VMap m =>
          (fix each (es : list (option node * node)) (acc : bindings)
               {struct es} : M (bool * bindings) :=
             match es with
             | [] => ret (true, acc)
             | (key, pat) :: es' =>
                 key_val <- eval_optional key ;;
                 present <- lift (py_in key_val (VMap m)) ;;
                 match dict_find m key_val with
                 | Some x =>
                     if present then
                       r <- _match_pattern pat x ;;
                       if fst r then each es' (bindings_update acc (snd r))
                       else ret (false, acc)
                     else ret (false, acc)
                 | None => ret (false, acc)
                 end
             end) entries []
      | _ => ret (false, [])
      end
  | _ =>
      (* try: pattern_val = self.evaluate(pattern) ... except Exception *)
      fun st =>
        match self_evaluate pattern st with
        | (Ok pattern_val, st') => (Ok (py_eq pattern_val v, []), st')
        | (Abort w, st') => (Abort w, st')
        | (_, st') => (Ok (false, []), st')
        end
  end.

(** A fresh child scope of the current one that holds the bindings of a
    matched pattern; [m] runs in it. *)
Definition in_check_scope {A : Type} (b : bindings) (m : M A) : M A :=
  cur <- get_current_env ;;
  env <- env_child cur "check" ;;
  define_bindings env b ;;;
  in_env env m.

(** The [for case in node.cases] loop of [_eval_CheckStatement]. *)
Fixpoint check_cases (v : value) (cases : list CheckCase) : M value :=
  match cases with
  | [] => ret VNone
  | case :: rest =>
      r <- _match_pattern (c_pattern case) v ;;
      if fst r then
        passes <- (match c_guard case with
                   | Some g =>
                       in_check_scope (snd r)
                         (guard_result <- self_evaluate g ;;
                          ret (_is_truthy guard_result))
                   | None => ret true
                   end) ;;
        if passes then in_check_scope (snd r) (self_evaluate (c_body case))
        else check_cases v rest
      else check_cases v rest
  end.

Definition _eval_CheckStatement (value_ : node) (cases : list CheckCase)
    : M value :=
  v <- self_evaluate value_ ;;
  check_cases v cases.

(** The catch path of [_eval_TryStatement]: with no catch block the
    failure is dropped and the result stays [None]. *)
Definition run_catch (catch_var : option string) (catch_block : option node)
    (text : string) : M value :=
  match catch_block with
  | Some cb =>
      cur <- get_current_env ;;
      env <- env_child cur "catch" ;;
      (if nonempty catch_var then
         env_define env (default "" catch_var) (VStr text) false false None
       else ret tt) ;;;
      in_env env (self_evaluate cb)
  | None => ret VNone
  end.

(** [_eval_TryStatement].  [except RiftError] and [except Exception] take
    the same catch path; a signal is re-raised by the second; the
    [finally] clause of the host runs the finally block on every exit and
    lets a failure or signal of that block replace the pending one. *)
Definition _eval_TryStatement (try_block : node) (catch_var : option string)
    (catch_block finally_block : option node) : M value :=
  fun st =>
    let '(r, st1) :=
      match self_evaluate try_block st with
      | (Ok v, st') => (Ok v, st')
      | (Raised e, st') => run_catch catch_var catch_block (message e) st'
      | (HostRaised e, st') =>
          run_catch catch_var catch_block (exc_message e) st'
      | (Signalled s, st') => (Signalled s, st')
      | (Abort w, st') => (Abort w, st')
      end in
    match r, finally_block with
    | Abort w, _ => (Abort w, st1)
    | _, None => (r, st1)
    | _, Some fb =>
        match self_evaluate fb st1 with
        | (Ok _, st2) => (r, st2)
        | other => other
        end
    end.

Definition _eval_FailStatement (error : node) : M value :=
  e <- self_evaluate error ;;
  text <- lift (py_str e) ;;
  throw RuntimeError text.

Definition _eval_GiveStatement (value_ : option node) : M value :=
  v <- eval_optional value_ ;;
  signal_ (ReturnSignal v).

Definition _eval_StopStatement : M value := signal_ BreakSignal.

Definition _eval_NextStatement : M value := signal_ ContinueSignal.

Definition _eval_Yield (expression : option node) : M value :=
  v <- eval_optional expression ;;
  signal_ (YieldSignal v).


Definition _eval_Literal (lit : literal_value) : M value :=
  ret (value_of_literal lit).

Definition _eval_Identifier (name : string) : M value :=
  cur <- get_current_env ;;
  env_get cur name.

Definition is_str (v : value) : bool :=
  match v with VStr _ => true | _ => false end.

(** The operator dispatch of [_eval_BinaryOp], the operands evaluated.  The
    [except TypeError] clause of the source names the interpreter's own
    [TypeError], which nothing in the guarded block raises. *)
Definition binary_operation (op : string) (left right : value) : M value :=
  if String.eqb op "+" then
    if is_str left || is_str right then
      l <- lift (py_str left) ;;
      r <- lift (py_str right) ;;
      ret (VStr (l +:+ r))
    else number_result (py_add left right)
  else if String.eqb op "-" then number_result (py_sub left right)
  else if String.eqb op "*" then number_result (py_mul left right)
  else if String.eqb op "/" then
    if py_eq right (VInt 0) then throw DivisionByZeroError "Division by zero"
    else number_result (py_truediv left right)
  else if String.eqb op "%" then lift (py_mod left right)
  else if String.eqb op "**" then lift (py_pow left right)
  else if String.eqb op "==" then ret (VBool (py_eq left right))
  else if String.eqb op "!=" then ret (VBool (negb (py_eq left right)))
  else if String.eqb op "<" || String.eqb op ">" || String.eqb op "<="
          || String.eqb op ">=" then
    b <- lift (py_order op left right) ;; ret (VBool b)
  else if String.eqb op "in" then
    b <- lift (py_in left right) ;; ret (VBool b)
  else throw RuntimeError ("Unknown operator: " +:+ op).

Definition _eval_BinaryOp (operator : string) (left right : node) : M value :=
  l <- self_evaluate left ;;
  r <- self_evaluate right ;;
  binary_operation operator l r.

Definition _eval_UnaryOp (operator : string) (operand : node) : M value :=
  v <- self_evaluate operand ;;
  if String.eqb operator "-" then number_result (py_neg v)
  else if String.eqb operator "+" then lift (py_pos v)
  else if String.eqb operator "not" then ret (VBool (negb (_is_truthy v)))
  else throw RuntimeError ("Unknown unary operator: " +:+ operator).

Definition index_error {A : Type} : M A :=
  lift (host_raise "IndexError" "list index out of range").

(** The loop of [_eval_Comparison]: [result] is true on entry of every
    round. *)
Fixpoint comparison_loop (i : nat) (operators : list string)
    (operands : list node) : M value :=
  match operators with
  | [] => ret (VBool true)
  | op :: ops =>
      match operands !! i with
      | None => index_error
      | Some a =>
          left <- self_evaluate a ;;
          match operands !! S i with
          | None => index_error
          | Some b =>
              right <- self_evaluate b ;;
              result <-
                (if String.eqb op "<" || String.eqb op ">"
                    || String.eqb op "<=" || String.eqb op ">="
                 then lift (py_order op left right)
                 else if String.eqb op "in" then lift (py_in left right)
                 else ret true) ;;
              if result then comparison_loop (S i) ops operands
              else ret (VBool false)
          end
      end
  end.

Definition _eval_Comparison (operators : list string) (operands : list node)
    : M value :=
  comparison_loop 0 operators operands.

Definition _eval_LogicalOp (operator : string) (left right : node) : M value :=
  l <- self_evaluate left ;;
  if String.eqb operator "and" then
    if negb (_is_truthy l) then ret l else self_evaluate right
  else if String.eqb operator "or" then
    if _is_truthy l then ret l else self_evaluate right
  else ret VNone.

(** [_eval_Assignment].  Index targets are outside the syntax of the
    embedding; a write into a map updates it in place. *)
Definition _eval_Assignment (target value_ : node) (operator : string)
    : M value :=
  v0 <- self_evaluate value_ ;;
  v <- (if String.eqb operator "=" then ret v0
        else
          old_value <- self_evaluate target ;;
          if String.eqb operator "+=" then
            number_result (py_add old_value v0)
          else if String.eqb operator "-=" then
            number_result (py_sub old_value v0)
          else if String.eqb operator "*=" then
            number_result (py_mul old_value v0)
          else if String.eqb operator "/=" then
            number_result (py_truediv old_value v0)
          else ret v0) ;;
  match target with
  | Identifier name =>
      cur <- get_current_env ;;
      env_set cur name v ;;;
      ret v
  | MemberAccess object property _ =>
      obj <- self_evaluate object ;;
      match obj with
      | VInstance i => set_property i property v ;;; ret v
      | VMap _ => abort Unmodelled
      | _ => throw TypeError ("Cannot set property on " +:+ type_name obj)
      end
  | _ => throw RuntimeError "Invalid assignment target"
  end.

(** The parameter loop shared, copy by copy, by [_call_function],
    [_call_lambda], [_call_bound_method] and [_instantiate_class].
    [with_rest] is off for the constructor, whose loop has no rest branch;
    [eval_default] is how the copy evaluates a default expression. *)
Fixpoint bind_parameters (with_rest : bool) (eval_default : node → M value)
    (env : loc) (args : list value) (i : nat) (params : list Param) : M unit :=
  match params with
  | [] => ret tt
  | param :: rest =>
      if with_rest && p_rest param then
        env_define env (p_name param) (VList (drop i args)) false false None
      else
        match args !! i with
        | Some a =>
            env_define env (p_name param) a false false None ;;;
            bind_parameters with_rest eval_default env args (S i) rest
        | None =>
            match p_default param with
            | Some d =>
                default_val <- eval_default d ;;
                env_define env (p_name param) default_val false false None ;;;
                bind_parameters with_rest eval_default env args (S i) rest
            | None =>
                env_define env (p_name param) VNone false false None ;;;
                bind_parameters with_rest eval_default env args (S i) rest
            end
        end
  end.

(** [try: ... except ReturnSignal as ret: return ret.value]. *)
Definition catch_return (m : M value) : M value := fun st =>
  match m st with
  | (Signalled (ReturnSignal v), st') => (Ok v, st')
  | other => other
  end.

(** The last statement of a block, when it is an expression statement. *)
Definition last_expression (body : node) : option node :=
  match body with
  | Block statements =>
      match last statements with
      | Some (ExpressionStatement e) => Some e
      | _ => None
      end
  | _ => None
  end.

(** [_call_function].  The defaults are evaluated by [self.evaluate] before
    [self.current_env] is switched; after the body the last expression
    statement is evaluated again for the result. *)
Definition _call_function (func : RiftFunction) (args : list value)
    : M value :=
  let decl := declaration func in
  env <- env_child (closure func) (fd_name decl) ;;
  bind_parameters true self_evaluate env args 0 (fd_params decl) ;;;
  in_env env
    (catch_return
       (result <- self_evaluate (fd_body decl) ;;
        match last_expression (fd_body decl) with
        | Some e => self_evaluate e
        | None => ret result
        end)).

(** [_call_lambda]: a default is evaluated with the new scope current. *)
Definition _call_lambda (params : list Param) (body : node) (closure : loc)
    (args : list value) : M value :=
  env <- env_child closure "lambda" ;;
  bind_parameters true (fun d => in_env env (self_evaluate d)) env args 0
                  params ;;;
  in_env env (catch_return (self_evaluate body)).

Definition _call_bound_method (instance : loc) (func : RiftFunction)
    (args : list value) : M value :=
  let decl := declaration func in
  env <- env_child (closure func) (fd_name decl) ;;
  env_define env "me" (VInstance instance) false false None ;;;
  bind_parameters true self_evaluate env args 0 (fd_params decl) ;;;
  in_env env (catch_return (self_evaluate (fd_body decl))).

(** [try: self.evaluate(constructor.body) except ReturnSignal: pass]. *)
Definition absorb_return (m : M value) : M unit := fun st =>
  match m st with
  | (Ok _, st') => (Ok tt, st')
  | (Signalled (ReturnSignal _), st') => (Ok tt, st')
  | (Signalled s, st') => (Signalled s, st')
  | (Raised e, st') => (Raised e, st')
  | (HostRaised e, st') => (HostRaised e, st')
  | (Abort w, st') => (Abort w, st')
  end.

Definition _instantiate_class (cls : loc) (args : list value) : M value :=
  instance <- new_instance cls ;;
  k <- get_class cls ;;
  match _constructor k with
  | Some (params, body) =>
      cur <- get_current_env ;;
      env <- env_child cur "build" ;;
      env_define env "me" (VInstance instance) false false None ;;;
      bind_parameters false self_evaluate env args 0 params ;;;
      in_env env (absorb_return (self_evaluate body)) ;;;
      ret (VInstance instance)
  | None => ret (VInstance instance)
  end.

Definition is_TypeError (e : RiftError) : bool :=
  match err_class e with TypeError => true | _ => false end.

Definition is_NameError (e : RiftError) : bool :=
  match err_class e with NameError => true | _ => false end.

(** [_call]. *)
Definition _call (callee : value) (args : list value) : M value :=
  if py_callable callee then
    fun st =>
      match host_call host self_call callee args st with
      | (Raised e, st') =>
          if is_TypeError e then (raise ArgumentError (message e), st')
          else (Raised e, st')
      | other => other
      end
  else
    match callee with
    | VFunction f => _call_function f args
    | VLambda _ params body closure => _call_lambda params body closure args
    | VBoundMethod _ instance method => _call_bound_method instance method args
    | VClass c => _instantiate_class c args
    | VMap _ =>
        throw TypeError "Cannot call dict directly, use 'namespace.function()'"
    | _ => throw TypeError ("Cannot call " +:+ type_name callee)
    end.

Definition _eval_Call (callee : node) (arguments : list node) : M value :=
  c <- self_evaluate callee ;;
  args <- eval_each arguments ;;
  _call c (flatten_args arguments args).

(** [_get_string_method] and [_get_list_method]: an attribute value, a
    method of the host bound to the receiver, or a closure over it. *)
Definition _get_string_method (s method : string) : M value :=
  let recv := VStr s in
  if String.eqb method "length" then
    if is_ascii s then ret (VInt (Z.of_nat (String.length s)))
    else abort Unmodelled
  else
    match assoc method
            [("upper", "upper"); ("lower", "lower"); ("trim", "strip");
             ("split", "split"); ("replace", "replace");
             ("startsWith", "startswith"); ("endsWith", "endswith");
             ("indexOf", "find")] with
    | Some h => ret (VHostMethod recv h)
    | None =>
        if existsb (String.eqb method)
             ["includes"; "charAt"; "substring"; "repeat"; "padStart";
              "padEnd"]
        then n <- fresh_serial ;; ret (VAccessor n recv method)
        else throw NameError ("String has no method '" +:+ method +:+ "'")
    end.

Definition _get_list_method (lst : list value) (method : string) : M value :=
  let recv := VList lst in
  if String.eqb method "length" then ret (VInt (Z.of_nat (List.length lst)))
  else
    match assoc method [("push", "append"); ("pop", "pop")] with
    | Some h => ret (VHostMethod recv h)
    | None =>
        if existsb (String.eqb method)
             ["shift"; "unshift"; "slice"; "indexOf"; "includes"; "join";
              "reverse"; "sort"; "concat"; "flat"; "fill"]
        then n <- fresh_serial ;; ret (VAccessor n recv method)
        else throw NameError ("List has no method '" +:+ method +:+ "'")
    end.

(** [_eval_MemberAccess].  The last resort of the source, a raw attribute
    of any other host object, is not transcribed. *)
Definition _eval_MemberAccess (object : node) (property : string)
    (safe : bool) : M value :=
  obj <- self_evaluate object ;;
  match obj with
  | VNone =>
      if safe then ret VNone
      else throw TypeError
             ("Cannot access property '" +:+ property +:+ "' of none")
  | VInstance i =>
      fun st =>
        match get_property st i property with
        | Some v => (Ok v, st)
        | None =>
            match get_method st i property with
            | Some method =>
                (n <- fresh_serial ;; ret (VBoundMethod n i method)) st
            | None =>
                (raise NameError
                   ("no property or method '" +:+ property +:+ "'"), st)
            end
        end
  | VClass c =>
      k <- get_class c ;;
      match static_properties k !! property with
      | Some v => ret v
      | None =>
          match static_methods k !! property with
          | Some f => ret (VFunction f)
          | None =>
              throw NameError
                ("Class '" +:+ cls_name k +:+ "' has no static member '"
                 +:+ property +:+ "'")
          end
      end
  | VMap m =>
      match dict_find m (VStr property) with
      | Some v => ret v
      | None =>
          if safe then ret VNone
          else throw NameError ("Key '" +:+ property +:+ "' not found in map")
      end
  | VStr s => _get_string_method s property
  | VList l => _get_list_method l property
  | _ => abort Unmodelled
  end.

(** [_eval_IndexAccess]: [except (IndexError, KeyError)] names the host's
    classes. *)
Definition _eval_IndexAccess (object index : node) (safe : bool) : M value :=
  obj <- self_evaluate object ;;
  if is_none obj then
    if safe then ret VNone else throw TypeError "Cannot index none"
  else
    idx <- self_evaluate index ;;
    match subscript safe obj idx with
    | HostRaised e =>
        if safe && is_lookup_error e then ret VNone else lift (HostRaised e)
    | other => lift other
    end.

Fixpoint list_elements (elements : list node) : M (list value) :=
  match elements with
  | [] => ret []
  | SpreadElement argument :: rest =>
      val <- self_evaluate argument ;;
      more <- list_elements rest ;;
      ret (match spread_items val with Some l => l | None => [val] end
           ++ more)
  | elem :: rest =>
      v <- self_evaluate elem ;;
      more <- list_elements rest ;;
      ret (v :: more)
  end.

Definition _eval_ListLiteral (elements : list node) : M value :=
  l <- list_elements elements ;; ret (VList l).

Fixpoint map_entries (entries : list (option node * node))
    (result : list (value * value)) : M (list (value * value)) :=
  match entries with
  | [] => ret result
  | (None, SpreadElement argument) :: rest =>
      spread_val <- self_evaluate argument ;;
      map_entries rest
        (match spread_val with
         | VMap other => dict_update result other
         | _ => result
         end)
  | (key, value_) :: rest =>
      key_val <- eval_optional key ;;
      val <- self_evaluate value_ ;;
      if hashable key_val then map_entries rest (dict_set result key_val val)
      else lift (host_raise "TypeError" "unhashable type")
  end.

Definition _eval_MapLiteral (entries : list (option node * node)) : M value :=
  m <- map_entries entries [] ;; ret (VMap m).

(** [_eval_Range]: the host's [isinstance(x, int)] accepts booleans. *)
Definition _eval_Range (start end_ : node) (inclusive : bool) : M value :=
  s <- self_evaluate start ;;
  e <- self_evaluate end_ ;;
  match number_of s, number_of e with
  | Some (NInt a), Some (NInt b) =>
      ret (VRange a (if inclusive then b + 1 else b))
  | _, _ => throw TypeError "Range bounds must be integers"
  end.

(** [_try_get_method]: a callable attribute of the host object, else, for
    a map, a callable stored under the name. *)
Definition _try_get_method (obj : value) (method_name : string)
    : M (option value) :=
  match host_getattr host obj method_name with
  | AttrCallable a => ret (Some a)
  | AttrUnmodelled => abort Unmodelled
  | AttrAbsent =>
      match obj with
      | VMap m =>
          match dict_find m (VStr method_name) with
          | Some v => if py_callable v then ret (Some v) else ret None
          | None => ret None
          end
      | _ => ret None
      end
  end.

(** One round of the [for stage in node.stages] loop of [_eval_Pipeline]. *)
Definition pipeline_stage (piped : value) (stage : node) : M value :=
  match stage with
  | Call (Identifier method_name) arguments =>
      args <- eval_each arguments ;;
      method <- _try_get_method piped method_name ;;
      match method with
      | Some m => _call m args
      | None =>
          fun st =>
            match (func <- self_evaluate (Identifier method_name) ;;
                   _call func (args ++ [piped])) st with
            | (Raised e, st') =>
                if is_NameError e then
                  (raise NameError
                     ("'" +:+ method_name +:+ "' is not a method of "
                      +:+ type_name piped +:+ " or a defined function"), st')
                else (Raised e, st')
            | other => other
            end
      end
  | Call callee arguments =>
      c <- self_evaluate callee ;;
      args <- eval_each arguments ;;
      _call c (args ++ [piped])
  | Lambda params body =>
      cur <- get_current_env ;;
      _call_lambda params body cur [piped]
  | Identifier name =>
      method <- _try_get_method piped name ;;
      match method with
      | Some m => _call m []
      | None =>
          func <- self_evaluate stage ;;
          _call func [piped]
      end
  | _ =>
      func <- self_evaluate stage ;;
      _call func [piped]
  end.

Fixpoint pipeline_stages (piped : value) (stages : list node) : M value :=
  match stages with
  | [] => ret piped
  | stage :: rest =>
      v <- pipeline_stage piped stage ;; pipeline_stages v rest
  end.

Definition _eval_Pipeline (value_ : node) (stages : list node) : M value :=
  v <- self_evaluate value_ ;;
  pipeline_stages v stages.

Definition _eval_Lambda (params : list Param) (body : node) : M value :=
  cur <- get_current_env ;;
  n <- fresh_serial ;;
  ret (VLambda n params body cur).

Definition _eval_Ternary (condition then_expr else_expr : node) : M value :=
  c <- self_evaluate condition ;;
  if _is_truthy c then self_evaluate then_expr else self_evaluate else_expr.

Definition _eval_NullCoalesce (left right : node) : M value :=
  l <- self_evaluate left ;;
  if is_none l then self_evaluate right else ret l.

Definition _eval_SpreadElement (argument : node) : M value :=
  self_evaluate argument.

Definition _eval_Me : M value := fun st =>
  match Environment.get (envs st) (current_env st) "me" with
  | Raised e =>
      if is_NameError e then
        (raise NameError "'me' can only be used inside a class method", st)
      else (Raised e, st)
  | other => (other, st)
  end.

(** The members loop of [_eval_ClassDeclaration]. *)
Fixpoint class_members (body : list ClassMember) (k : RiftClass)
    : M RiftClass :=
  match body with
  | [] => ret k
  | Constructor params cbody :: rest =>
      class_members rest
        (mkRiftClass (cls_name k) (methods k) (properties k) (cls_parent k)
           (static_methods k) (static_properties k) (Some (params, cbody)))
  | MethodDeclaration name params mbody static :: rest =>
      cur <- get_current_env ;;
      n <- fresh_serial ;;
      let func := mkRiftFunction n (mkFunctionDecl name params mbody) cur true in
      class_members rest
        (if static then
           mkRiftClass (cls_name k) (methods k) (properties k) (cls_parent k)
             (<[name := func]> (static_methods k)) (static_properties k)
             (_constructor k)
         else
           mkRiftClass (cls_name k) (<[name := func]> (methods k))
             (properties k) (cls_parent k) (static_methods k)
             (static_properties k) (_constructor k))
  | PropertyDeclaration name value_ static :: rest =>
      v <- eval_optional value_ ;;
      class_members rest
        (if static then
           mkRiftClass (cls_name k) (methods k) (properties k) (cls_parent k)
             (static_methods k) (<[name := v]> (static_properties k))
             (_constructor k)
         else
           mkRiftClass (cls_name k) (methods k) (<[name := v]> (properties k))
             (cls_parent k) (static_methods k) (static_properties k)
             (_constructor k))
  end.

Definition _eval_ClassDeclaration (name : string) (parent : option string)
    (body : list ClassMember) : M value :=
  p <- (if nonempty parent then
          cur <- get_current_env ;;
          pv <- env_get cur (default "" parent) ;;
          match pv with
          | VClass c => ret (Some c)
          | _ =>
              throw TypeError
                ("Cannot extend non-class '" +:+ default "" parent +:+ "'")
          end
        else ret None) ;;
  k <- class_members body (mkRiftClass name ∅ ∅ p ∅ ∅ None) ;;
  c <- new_class k ;;
  cur <- get_current_env ;;
  env_define cur name (VClass c) false false None ;;;
  ret (VClass c).

(** [evaluate]: the dispatch on the class of the node.  The pattern nodes
    have no [_eval_] method. *)
Definition evaluate_node (rounds : nat) (n : node) : M value :=
  match n with
  | Literal lit => _eval_Literal lit
  | Identifier name => _eval_Identifier name
  | BinaryOp operator l r => _eval_BinaryOp operator l r
  | UnaryOp operator operand => _eval_UnaryOp operator operand
  | Comparison operators operands => _eval_Comparison operators operands
  | LogicalOp operator l r => _eval_LogicalOp operator l r
  | Assignment target value_ operator => _eval_Assignment target value_ operator
  | Call callee arguments => _eval_Call callee arguments
  | MemberAccess object property safe => _eval_MemberAccess object property safe
  | ListLiteral elements => _eval_ListLiteral elements
  | MapLiteral entries => _eval_MapLiteral entries
  | Range start end_ inclusive => _eval_Range start end_ inclusive
  | Pipeline value_ stages _ => _eval_Pipeline value_ stages
  | Lambda params body => _eval_Lambda params body
  | Ternary condition then_expr else_expr =>
      _eval_Ternary condition then_expr else_expr
  | NullCoalesce l r => _eval_NullCoalesce l r
  | SpreadElement argument => _eval_SpreadElement argument
  | Yield expression => _eval_Yield expression
  | Me => _eval_Me
  | Block statements => _eval_Block statements
  | ExpressionStatement expression => _eval_ExpressionStatement expression
  | VariableDeclaration kind name type_hint value_ =>
      _eval_VariableDeclaration kind name type_hint value_
  | FunctionDeclaration name params body =>
      _eval_FunctionDeclaration name params body
  | IfStatement condition then_branch else_branch =>
      _eval_IfStatement condition then_branch else_branch
  | WhileStatement condition body => _eval_WhileStatement rounds condition body
  | RepeatStatement variable index_var iterable body =>
      _eval_RepeatStatement variable index_var iterable body
  | CheckStatement value_ cases => _eval_CheckStatement value_ cases
  | TryStatement try_block catch_var catch_block finally_block =>
      _eval_TryStatement try_block catch_var catch_block finally_block
  | FailStatement error => _eval_FailStatement error
  | GiveStatement value_ => _eval_GiveStatement value_
  | StopStatement => _eval_StopStatement
  | NextStatement => _eval_NextStatement
  | ClassDeclaration name parent body => _eval_ClassDeclaration name parent body
  | RangePattern _ _ => throw RuntimeError "Unknown node type: RangePattern"
  | BindingPattern _ => throw RuntimeError "Unknown node type: BindingPattern"
  | WildcardPattern => throw RuntimeError "Unknown node type: WildcardPattern"
  end.

End Evaluator.

(** The evaluator proper: [fuel] bounds the depth of nested [evaluate] and
    [_call] activations and the rounds of a [while] loop. *)
Fixpoint evaluate (host : host_interface) (fuel : nat) (n : node) {struct fuel}
    : M value :=
  match fuel with
  | O => abort OutOfFuel
  | S k => evaluate_node host (evaluate host k) (call host k) k n
  end
with call (host : host_interface) (fuel : nat) (callee : value)
    (args : list value) {struct fuel} : M value :=
  match fuel with
  | O => abort OutOfFuel
  | S k => _call host (evaluate host k) (call host k) callee args
  end.

(** [Interpreter.execute] on the body of a program. *)
Definition execute_program (host : host_interface) (fuel : nat)
    (body : list node) : M value :=
  execute (evaluate host fuel) body.

End Interpreter.
Export Interpreter.

(** ** The host, as far as it is transcribed

    The part of the host language and of the interpreter's own built-ins
    that the examples run: attribute probing by name for the values of the
    embedding, and the calls of [len], [sum], [map], [filter], [str],
    [type] and of the three methods of [RiftInstance].  Names of the host's
    double-underscore protocol, names whose presence depends on the host's
    version, and every other call end in [Unmodelled]. *)

Module PyHost.

Definition str_methods : list string :=
  ["capitalize"; "casefold"; "center"; "count"; "encode"; "endswith";
   "expandtabs"; "find"; "format"; "format_map"; "index"; "isalnum";
   "isalpha"; "isascii"; "isdecimal"; "isdigit"; "isidentifier"; "islower";
   "isnumeric"; "isprintable"; "isspace"; "istitle"; "isupper"; "join";
   "ljust"; "lower"; "lstrip"; "maketrans"; "partition"; "replace"; "rfind";
   "rindex"; "rjust"; "rpartition"; "rsplit"; "rstrip"; "split";
   "splitlines"; "startswith"; "strip"; "swapcase"; "title"; "translate";
   "upper"; "zfill"].

Definition list_methods : list string :=
  ["append"; "clear"; "copy"; "count"; "extend"; "index"; "insert"; "pop";
   "remove"; "reverse"; "sort"].

Definition dict_methods : list string :=
  ["clear"; "copy"; "fromkeys"; "get"; "items"; "keys"; "pop"; "popitem";
   "setdefault"; "update"; "values"].

Definition int_methods : list string :=
  ["bit_length"; "conjugate"; "from_bytes"; "to_bytes"].

Definition float_methods : list string :=
  ["as_integer_ratio"; "conjugate"; "fromhex"; "hex"; "is_integer"].

Definition range_methods : list string := ["count"; "index"].

(** The methods that [class RiftInstance] defines in [src/types.py]. *)
Definition instance_methods : list string :=
  ["get_property"; "set_property"; "get_method"].

Definition version_dependent : list string :=
  ["removeprefix"; "removesuffix"; "as_integer_ratio"; "bit_count";
   "is_integer"].

Definition mem (x : string) (l : list string) : bool :=
  existsb (String.eqb x) l.

Definition public_methods (v : value) : list string :=
  match v with
  | VStr _ => str_methods
  | VList _ => list_methods
  | VMap _ => dict_methods
  | VBool _ | VInt _ => int_methods
  | VFloat _ | VNaN _ => float_methods
  | VRange _ _ => range_methods
  | VInstance _ => instance_methods
  | _ => []
  end.

(** [hasattr(obj, name)], [getattr(obj, name)] and [callable] in one. *)
Definition getattr (obj : value) (name : string) : attr_lookup :=
  if String.prefix "__" name then AttrUnmodelled
  else if mem name (public_methods obj) then AttrCallable (VHostMethod obj name)
  else if mem name version_dependent then AttrUnmodelled
  else AttrAbsent.

Definition arity_error {A : Type} : M A :=
  lift (host_raise "TypeError" "wrong number of arguments").

(** The items the host iterates over. *)
Definition iter_items (v : value) : M (list value) :=
  match v with
  | VList l => ret l
  | VRange a b => ret (map VInt (range_items a b))
  | VStr s => if is_ascii s then ret (chars s) else abort Unmodelled
  | VMap m => ret (map fst m)
  | _ => lift (host_raise "TypeError" "object is not iterable")
  end.

Definition has_float (l : list value) : bool :=
  existsb (fun v => match v with VFloat _ | VNaN _ => true | _ => false end)
          l.

Fixpoint sum_items (acc : value) (l : list value) : M value :=
  match l with
  | [] => ret acc
  | x :: l' => s <- lift (py_add acc x) ;; sum_items s l'
  end.

Section Callbacks.

Variable self_call : value → list value → M value.

(** [_builtin_map]. *)
Fixpoint map_items (func : value) (items : list value) : M (list value) :=
  match items with
  | [] => ret []
  | item :: rest =>
      y <- self_call func [item] ;;
      ys <- map_items func rest ;;
      ret (y :: ys)
  end.

(** [_builtin_filter]. *)
Fixpoint filter_items (func : value) (items : list value) : M (list value) :=
  match items with
  | [] => ret []
  | item :: rest =>
      y <- self_call func [item] ;;
      ys <- filter_items func rest ;;
      ret (if _is_truthy y then item :: ys else ys)
  end.

Definition call_builtin (name : string) (args : list value) : M value :=
  if String.eqb name "len" then
    match args with
    | [VNone] => ret (VInt 0)
    | [VList l] => ret (VInt (Z.of_nat (List.length l)))
    | [VMap m] => ret (VInt (Z.of_nat (List.length m)))
    | [VRange a b] => ret (VInt (range_len a b))
    | [VStr s] =>
        if is_ascii s then ret (VInt (Z.of_nat (String.length s)))
        else abort Unmodelled
    | [_] => lift (host_raise "TypeError" "object has no len()")
    | _ => arity_error
    end
  else if String.eqb name "sum" then
    match args with
    | [it] =>
        items <- iter_items it ;;
        if has_float items then abort Unmodelled
        else sum_items (VInt 0) items
    | _ => arity_error
    end
  else if String.eqb name "map" then
    match args with
    | [func; it] =>
        items <- iter_items it ;;
        ys <- map_items func items ;;
        ret (VList ys)
    | _ => arity_error
    end
  else if String.eqb name "filter" then
    match args with
    | [func; it] =>
        items <- iter_items it ;;
        ys <- filter_items func items ;;
        ret (VList ys)
    | _ => arity_error
    end
  else if String.eqb name "str" then
    match args with
    | [VNone] => ret (VStr "none")
    | [v] => s <- lift (py_str v) ;; ret (VStr s)
    | _ => arity_error
    end
  else if String.eqb name "type" then
    match args with
    | [v] => ret (VStr (type_name v))
    | _ => arity_error
    end
  else abort Unmodelled.

Definition attribute_error {A : Type} : M A :=
  lift (host_raise "AttributeError" "no such property or method").

(** The methods of [RiftInstance], called from the language. *)
Definition call_instance_method (i : loc) (name : string) (args : list value)
    : M value :=
  if String.eqb name "get_property" then
    match args with
    | [VStr x] =>
        fun st =>
          match get_property st i x with
          | Some v => (Ok v, st)
          | None => attribute_error st
          end
    | [_] => abort Unmodelled
    | _ => arity_error
    end
  else if String.eqb name "set_property" then
    match args with
    | [VStr x; v] => set_property i x v ;;; ret VNone
    | [_; _] => abort Unmodelled
    | _ => arity_error
    end
  else if String.eqb name "get_method" then
    match args with
    | [VStr x] =>
        fun st =>
          match get_method st i x with
          | Some f => (Ok (VFunction f), st)
          | None => attribute_error st
          end
    | [_] => abort Unmodelled
    | _ => arity_error
    end
  else abort Unmodelled.

Definition call_host (callee : value) (args : list value) : M value :=
  match callee with
  | VBuiltin name => call_builtin name args
  | VHostMethod (VInstance i) name => call_instance_method i name args
  | _ => abort Unmodelled
  end.

End Callbacks.

Definition host : host_interface := mkHost getattr call_host.

(** The names that [Interpreter._setup_builtins] binds. *)
Definition builtin_names : list string :=
  ["print"; "input"; "len"; "type"; "range"; "map"; "filter"; "reduce";
   "sort"; "reverse"; "keys"; "values"; "entries"; "split"; "join"; "now";
   "sleep"; "str"; "num"; "int"; "float"; "bool"; "list"; "sum"; "min";
   "max"; "abs"; "round"; "floor"; "ceil"; "push"; "pop"; "shift";
   "unshift"; "slice"; "indexOf"; "includes"; "find"; "every"; "some";
   "concat"; "flat"; "fill"; "upper"; "lower"; "trim"; "replace";
   "startsWith"; "endsWith"; "charAt"; "substring"; "repeat"; "padStart";
   "padEnd"].

(** [Interpreter.__init__]: the global scope with the built-ins, each
    defined with [mutable=False]. *)
Definition global_env : Environment.t :=
  fold_left
    (fun e name => Environment.define_in e name (VBuiltin name) false false None)
    builtin_names Environment.global.

Definition initial_state : state := mkState [global_env] [] [] 0%nat 0%nat.

(** [interpret], after parsing: a fresh interpreter executes the program. *)
Definition run (fuel : nat) (body : list node) : outcome value * state :=
  execute_program host fuel body initial_state.

Definition result_of (fuel : nat) (body : list node) : outcome value :=
  fst (run fuel body).

End PyHost.

(** ** More built-in functions ([src/interpreter.py])

    The built-ins that search or fold a sequence through a callback, and
    the two that flatten.  [self._call] is the callback's way back into the
    evaluator. *)

Module Builtins.

Section Callbacks.

Variable self_call : value → list value → M value.







(** [_builtin_reduce]: [for item in it: acc = self._call(func, [acc, item])]. *)
Fixpoint reduce_loop (func acc : value) (items : list value) : M value :=
  match items with
  | [] => ret acc
  | item :: rest =>
      next <- self_call func [acc; item] ;; reduce_loop func next rest
  end.

(** A missing [initial] is [None], as is one passed as [none]. *)
Definition _builtin_reduce (func iterable initial : value) : M value :=
  items <- PyHost.iter_items iterable ;;
  if is_none initial then
    match items with
    | [] =>
        throw ArgumentError "reduce() of empty sequence with no initial value"
    | first :: rest => reduce_loop func first rest
    end
  else reduce_loop func initial items.

End Callbacks.

(** [_builtin_concat], on the tuple of its arguments. *)
Definition _builtin_concat (args : list value) : value :=
  VList (flat_map (fun arg => match arg with VList l => l | _ => [arg] end)
                  args).

(** What one item contributes to [_builtin_flat(lst, depth)]: a sequence is
    flattened one level further down while the depth is positive. *)
Fixpoint flat_item (depth : Z) (item : value) {struct item} : list value :=
  match item with
  | VList sub =>
      if 0 <? depth then
        (fix each (l : list value) : list value :=
           match l with
           | [] => []
           | x :: l' => flat_item (depth - 1) x ++ each l'
           end) sub
      else [item]
  | _ => [item]
  end.

(** [_builtin_flat], on a sequence and an integer depth. *)
Definition _builtin_flat (lst : list value) (depth : Z) : value :=
  VList (flat_map (flat_item depth) lst).

End Builtins.

(** ** The range production of the parser ([src/parser.py]) *)

Module Parser.

Inductive TokenType : Type :=
| NUMBER | STRING | TEMPLATE_STRING | IDENTIFIER
| CONDUIT | LET | MUT | CONST | GIVE | STOP | NEXT | IF | ELSE | CHECK
| REPEAT | WHILE | TRY | CATCH | FINALLY | FAIL | MAKE | EXTEND | BUILD | ME
| PARENT | GRAB | SHARE | WAIT | ASYNC | YES | NO | NONE | AND | OR | NOT
| IN | AS | YIELD | WHEN | TO | STATIC | GET | SET
| PLUS | MINUS | STAR | SLASH | PERCENT | POWER
| EQ | NE | LT | GT | LE | GE
| NULL_COALESCE | SAFE_NAV | SAFE_INDEX | PIPELINE | REV_PIPELINE
| ASYNC_PIPELINE | ARROW | DOUBLE_COLON | RANGE | SPREAD
| ASSIGN | PLUS_ASSIGN | MINUS_ASSIGN | STAR_ASSIGN | SLASH_ASSIGN
| LPAREN | RPAREN | LBRACE | RBRACE | LBRACKET | RBRACKET | COMMA | DOT
| COLON | SEMICOLON | NEWLINE | EOF | INTERP_START | INTERP_END.

Record Token : Type := mkToken {
  type : TokenType;
  value : string;
  line : nat;
  column : nat }.

(** The parser object: the token sequence and the cursor. *)
Record t : Type := mk {
  tokens : list Token;
  pos : nat }.

Inductive result (A : Type) : Type :=
| Parsed (a : A) (p : t)
| Failed (msg : string).

Arguments Parsed {A}.
Arguments Failed {A}.

Definition is_range_or_to (ty : TokenType) : bool :=
  match ty with RANGE | TO => true | _ => false end.

Definition is_eof (ty : TokenType) : bool :=
  match ty with EOF => true | _ => false end.

(** [current]: past the end, the last token (the end-of-input token). *)
Definition current (p : t) : option Token :=
  if (List.length (tokens p) <=? pos p)%nat then last (tokens p)
  else tokens p !! pos p.

Definition is_at_end (p : t) : bool :=
  match current p with
  | Some tok => is_eof (type tok)
  | None => true
  end.

(** [advance], for its effect on the cursor. *)
Definition advance (p : t) : t :=
  if is_at_end p then p else mk (tokens p) (S (pos p)).

(** [self.match(TokenType.RANGE, TokenType.TO)]. *)
Definition match_range (p : t) : bool * t :=
  match current p with
  | Some tok =>
      if is_range_or_to (type tok) then (true, advance p) else (false, p)
  | None => (false, p)
  end.

Definition is_newline (ty : TokenType) : bool :=
  match ty with NEWLINE => true | _ => false end.

(** [self.check(TokenType.NEWLINE)]. *)
Definition check_newline (p : t) : bool :=
  match current p with
  | Some tok => is_newline (type tok)
  | None => false
  end.

(** [skip_newlines]: [while self.check(TokenType.NEWLINE): self.advance()],
    by the number of rounds still allowed. *)
Fixpoint skip_newlines (rounds : nat) (p : t) : option t :=
  match rounds with
  | O => None
  | S k => if check_newline p then skip_newlines k (advance p) else Some p
  end.

Section Productions.

(** [parse_addition], the production below. *)
Variable parse_addition : t → result node.

(** [parse_range]: the [Range] node is built without [inclusive], which
    therefore takes the default of the node class. *)
Definition parse_range (p : t) : result node :=
  match parse_addition p with
  | Failed msg => Failed msg
  | Parsed expr p1 =>
      match match_range p1 with
      | (true, p2) =>
          match parse_addition p2 with
          | Failed msg => Failed msg
          | Parsed end_ p3 => Parsed (Range_default expr end_) p3
          end
      | (false, p2) => Parsed expr p2
      end
  end.

End Productions.

End Parser.

(** ** Notions used by the statements below *)

Module Notions.

(** Histories of scope operations. *)
Inductive scope_op : Type :=
| OpDefine (a : loc) (x : string) (v : value) (mutable constant : bool)
    (type_hint : option string)
| OpSet (a : loc) (x : string) (v : value)
| OpChild (a : loc) (name : string).

Definition apply_op (σ : Environment.store) (o : scope_op)
    : Environment.store :=
  match o with
  | OpDefine a x v mutable constant type_hint =>
      Environment.define σ a x v mutable constant type_hint
  | OpSet a x v => snd (Environment.set σ a x v)
  | OpChild a name => snd (Environment.child σ a name)
  end.

Definition apply_ops (ops : list scope_op) (σ : Environment.store)
    : Environment.store :=
  fold_left apply_op ops σ.

(** What the host's division yields when the right operand is a number
    other than zero, a left operand that is a number: the correctly rounded
    quotient of two integers, refused when it lies beyond the float range;
    else the IEEE quotient of the two operands as floats, an integer
    operand being converted first, which the host refuses for an integer
    beyond the float range. *)
Definition quotient (a b : number) : outcome value :=
  match a, b with
  | NInt x, NInt y =>
      match SFdiv prec emax (exact_of_int x) (exact_of_int y) with
      | S754_infinity _ =>
          host_raise "OverflowError"
            "integer division result too large for a float"
      | q => Ok (VFloat q)
      end
  | NFloat x, NFloat y => Ok (VFloat (SFdiv prec emax x y))
  | NInt x, NFloat y =>
      match float_of_int x with
      | Ok fx => Ok (VFloat (SFdiv prec emax fx y))
      | _ => host_raise "OverflowError" "int too large to convert to float"
      end
  | NFloat x, NInt y =>
      match float_of_int y with
      | Ok fy => Ok (VFloat (SFdiv prec emax x fy))
      | _ => host_raise "OverflowError" "int too large to convert to float"
      end
  end.

(** The steps of [_instantiate_class] that come before the body of the
    constructor: the instance is created, the scope of the constructor is
    made under the current scope, [me] and the parameters are bound there.
    The result is that scope. *)
Definition constructor_entry (ev : node → M value) (cls : loc)
    (params : list Param) (args : list value) : M loc :=
  instance <- new_instance cls ;;
  cur <- get_current_env ;;
  env <- env_child cur "build" ;;
  env_define env "me" (VInstance instance) false false None ;;;
  bind_parameters false ev env args 0 params ;;;
  ret env.

(** The scope holds [x] as an immutable or constant binding. *)
Definition immutable_in (σ : Environment.store) (b : loc) (x : string)
    : Prop :=
  ∃ e, σ !! b = Some e ∧ x ∈ Environment._immutables e.

(** The value is a NaN. *)
Definition is_nan_value (v : value) : bool :=
  match v with
  | VNaN _ => true
  | VFloat f => is_nan f
  | _ => false
  end.

(** Every NaN in the value carries the serial of its creation: none occurs
    as a [VFloat].  The operations of the evaluator return such values. *)
Fixpoint tracked (v : value) : bool :=
  match v with
  | VFloat f => negb (is_nan f)
  | VList l => forallb tracked l
  | VMap m =>
      (fix each (m : list (value * value)) : bool :=
         match m with
         | [] => true
         | (k, x) :: m' => tracked k && tracked x && each m'
         end) m
  | VHostMethod r _ | VAccessor _ r _ => tracked r
  | _ => true
  end.

(** The keys of a map are pairwise distinct objects that are unequal, as
    the insertions of the host keep them. *)
Fixpoint keys_distinct (m : list (value * value)) : bool :=
  match m with
  | [] => true
  | (k, _) :: m' =>
      forallb (fun kv => negb (py_eq_item (fst kv) k)) m' && keys_distinct m'
  end.

Fixpoint well_keyed (v : value) : bool :=
  match v with
  | VList l => forallb well_keyed l
  | VMap m =>
      keys_distinct m
      && (fix each (m : list (value * value)) : bool :=
            match m with
            | [] => true
            | (k, x) :: m' => well_keyed k && well_keyed x && each m'
            end) m
  | VHostMethod r _ | VAccessor _ r _ => well_keyed r
  | _ => true
  end.

Section CheckCases.

Variable ev : node → M value.

(** The guard of a case evaluated under the bindings of its pattern. *)
Definition guard_outcome (b : bindings) (g : node) : M bool :=
  in_check_scope b (guard_result <- ev g ;; ret (_is_truthy guard_result)).

(** The case is tried on [v] in state [st] and passed over, leaving [st']:
    its pattern does not match, or its guard is falsy. *)
Definition case_rejected (c : CheckCase) (v : value) (st st' : state) : Prop :=
  (∃ b, _match_pattern ev (c_pattern c) v st = (Ok (false, b), st'))
  ∨ (∃ b g st1,
       _match_pattern ev (c_pattern c) v st = (Ok (true, b), st1)
       ∧ c_guard c = Some g
       ∧ guard_outcome b g st1 = (Ok false, st')).

(** The case is tried on [v] in state [st] and taken with bindings [b],
    leaving [st']: its pattern matches and its guard, if any, is truthy. *)
Definition case_accepted (c : CheckCase) (v : value) (st : state)
    (b : bindings) (st' : state) : Prop :=
  ∃ st1,
    _match_pattern ev (c_pattern c) v st = (Ok (true, b), st1)
    ∧ match c_guard c with
      | None => st' = st1
      | Some g => guard_outcome b g st1 = (Ok true, st')
      end.

(** The cases are tried in order and all passed over. *)
Inductive all_rejected (v : value) : list CheckCase → state → state → Prop :=
| rejected_nil : ∀ st, all_rejected v [] st st
| rejected_cons : ∀ c cs st st1 st2,
    case_rejected c v st st1 →
    all_rejected v cs st1 st2 →
    all_rejected v (c :: cs) st st2.

End CheckCases.

End Notions.
Import Notions.

(** ** Programs used as inputs *)

Module Programs.

(** [mut n = 0], a function [f] and a lambda [g] whose bodies are the block
    [n = n + 1]. *)
Definition counter_program : list node :=
  [VariableDeclaration "mut" "n" None (Some (Literal (LitInt 0)));
   FunctionDeclaration "f" []
     (Block [ExpressionStatement
               (Assignment (Identifier "n")
                  (BinaryOp "+" (Identifier "n") (Literal (LitInt 1))) "=")]);
   VariableDeclaration "let" "g" None
     (Some (Lambda []
              (Block [ExpressionStatement
                        (Assignment (Identifier "n")
                           (BinaryOp "+" (Identifier "n") (Literal (LitInt 1)))
                           "=")])))].

(** [let d = 1], a declaration of [f], and [g], which binds its own [d]
    to 2 and returns [f()]. *)
Definition default_program (callee : node) : list node :=
  [VariableDeclaration "let" "d" None (Some (Literal (LitInt 1)));
   callee;
   FunctionDeclaration "g" []
     (Block [VariableDeclaration "let" "d" None (Some (Literal (LitInt 2)));
             GiveStatement (Some (Call (Identifier "f") []))]);
   ExpressionStatement (Call (Identifier "g") [])].

(** [make A @ conduit m() @ give 1 # #]. *)
Definition class_with_method : list node :=
  [ClassDeclaration "A" None
     [MethodDeclaration "m" []
        (Block [GiveStatement (Some (Literal (LitInt 1)))]) false]].

End Programs.
Import Programs.

(** ** Invariants *)

Module Invariants.

(** The computation leaves [self.current_env] as it found it, whatever its
    outcome. *)
Definition keeps_scope {A : Type} (m : M A) : Prop :=
  ∀ st, current_env (snd (m st)) = current_env st.

(** In every scope the constants are among the immutable names. *)
Definition constants_are_immutable (σ : Environment.store) : Prop :=
  ∀ a e, σ !! a = Some e →
         Environment._constants e ⊆ Environment._immutables e.

(** The scope after a write of [x]: what [set] and [assign_at] leave in
    its place. *)
Definition written (e : Environment.t) (x : string) (v : value)
    : Environment.t :=
  Environment.mk (Environment.parent e) (Environment.name e)
    (<[x := v]> (Environment._variables e))
    (Environment._immutables e) (Environment._constants e)
    (Environment._types e).

(** Parent classes are older than their heirs. *)
Definition classes_well_founded (cs : list RiftClass) : Prop :=
  ∀ c k p, cs !! c = Some k → cls_parent k = Some p → (p < c)%nat.

(** The token sequence ends with the end-of-input token and the cursor is
    on a token. *)
Definition on_a_token (p : Parser.t) : Prop :=
  (∃ tok, last (Parser.tokens p) = Some tok
          ∧ Parser.is_eof (Parser.type tok) = true)
  ∧ (Parser.pos p < List.length (Parser.tokens p))%nat.

(** The entries of a map literal whose keys are names or texts: the parser
    builds a text literal for each key. *)
Definition text_entries (kes : list (string * node))
    : list (option node * node) :=
  map (fun ke => (Some (Literal (LitStr (fst ke))), snd ke)) kes.

(** The value of the last pair whose key is [s]. *)
Fixpoint last_value (kvs : list (string * value)) (s : string)
    : option value :=
  match kvs with
  | [] => None
  | (k, v) :: rest =>
      match last_value rest s with
      | Some w => Some w
      | None => if String.eqb s k then Some v else None
      end
  end.

End Invariants.
Import Invariants.

(** ** Induction on values, through the sequences and maps they hold *)

Section value_induction.

Variable P : value → Prop.
Hypothesis HNone : P VNone.
Hypothesis HBool : ∀ b, P (VBool b).
Hypothesis HInt : ∀ z, P (VInt z).
Hypothesis HFloat : ∀ f, P (VFloat f).
Hypothesis HStr : ∀ s, P (VStr s).
Hypothesis HList : ∀ l, Forall P l → P (VList l).
Hypothesis HMap :
  ∀ m, Forall (fun kv => P (fst kv) ∧ P (snd kv)) m → P (VMap m).
Hypothesis HRange : ∀ a b, P (VRange a b).
Hypothesis HFunction : ∀ f, P (VFunction f).
Hypothesis HLambda : ∀ n ps b c, P (VLambda n ps b c).
Hypothesis HBound : ∀ n i m, P (VBoundMethod n i m).
Hypothesis HClass : ∀ c, P (VClass c).
Hypothesis HInstance : ∀ i, P (VInstance i).
Hypothesis HBuiltin : ∀ s, P (VBuiltin s).
Hypothesis HHostMethod : ∀ r s, P r → P (VHostMethod r s).
Hypothesis HAccessor : ∀ n r s, P r → P (VAccessor n r s).
Hypothesis HNaN : ∀ n, P (VNaN n).

Fixpoint value_nested_ind (v : value) : P v :=
  match v with
  | VNone => HNone
  | VBool b => HBool b
  | VInt z => HInt z
  | VFloat f => HFloat f
  | VStr s => HStr s
  | VList l =>
      HList l ((fix items (l : list value) : Forall P l :=
                  match l with
                  | [] => @List.Forall_nil _ P
                  | x :: l' => @List.Forall_cons _ _ x l' (value_nested_ind x) (items l')
                  end) l)
  | VMap m =>
      HMap m ((fix pairs (m : list (value * value))
                 : Forall (fun kv => P (fst kv) ∧ P (snd kv)) m :=
                 match m with
                 | [] => @List.Forall_nil _ _
                 | (k, x) :: m' =>
                     @List.Forall_cons _ _ (k, x) m'
                       (conj (value_nested_ind k) (value_nested_ind x))
                       (pairs m')
                 end) m)
  | VRange a b => HRange a b
  | VFunction f => HFunction f
  | VLambda n ps b c => HLambda n ps b c
  | VBoundMethod n i m => HBound n i m
  | VClass c => HClass c
  | VInstance i => HInstance i
  | VBuiltin s => HBuiltin s
  | VHostMethod r s => HHostMethod r s (value_nested_ind r)
  | VAccessor n r s => HAccessor n r s (value_nested_ind r)
  | VNaN n => HNaN n
  end.

End value_induction.

(** * Properties *)

(** ** The scope chain *)

Section EnvironmentFacts.

Import Environment.

Lemma set_walk_immutable n (σ : store) a x v b e :
  resolve_walk n σ a x = Some b →
  σ !! b = Some e →
  x ∈ _immutables e →
  ∃ msg, set_walk n σ a x v = (raise AssignmentError msg, σ).
Proof.
  revert a. induction n as [|n IH]; intros a; simpl; [done|].
  destruct (σ !! a) as [ea|] eqn:Ha; [|done].
  destruct (_variables ea !! x) eqn:Hx.
  - intros [= <-] He Hi. rewrite Ha in He. injection He as ->.
    destruct (decide (x ∈ _constants e)); [eauto|].
    destruct (decide (x ∈ _immutables e)); [eauto|contradiction].
  - destruct (parent ea); [apply IH|done].
Qed.

Lemma set_walk_keeps_immutable n (σ : store) a x v b y :
  immutable_in σ b y → immutable_in (snd (set_walk n σ a x v)) b y.
Proof.
  revert a. induction n as [|n IH]; intros a Hb; simpl; [done|].
  destruct (σ !! a) as [ea|] eqn:Ha; [|done].
  destruct (_variables ea !! x) eqn:Hx.
  - destruct (decide (x ∈ _constants ea)); [done|].
    destruct (decide (x ∈ _immutables ea)); [done|]. simpl.
    destruct Hb as (e & He & Hy). destruct (decide (a = b)) as [->|Hne].
    + rewrite Ha in He. injection He as ->.
      eexists. split; [apply list_lookup_insert_eq; by eapply lookup_lt_Some|].
      done.
    + exists e. split; [by rewrite list_lookup_insert_ne|done].
  - destruct (parent ea); [by apply IH|done].
Qed.

Lemma define_in_keeps_immutable e x v mutable constant hint y :
  y ∈ _immutables e →
  y ∈ _immutables (define_in e x v mutable constant hint).
Proof.
  intros Hy. unfold define_in. simpl.
  destruct constant; [set_solver|]. destruct mutable; set_solver.
Qed.

Lemma define_keeps_immutable (σ : store) a x v mutable constant hint b y :
  immutable_in σ b y →
  immutable_in (define σ a x v mutable constant hint) b y.
Proof.
  intros (e & He & Hy). unfold define.
  destruct (decide (a = b)) as [->|Hne].
  - eexists. split; [by rewrite list_lookup_alter_eq, He|].
    by apply define_in_keeps_immutable.
  - exists e. split; [by rewrite list_lookup_alter_ne|done].
Qed.

Lemma apply_op_keeps_immutable (σ : store) o b y :
  immutable_in σ b y → immutable_in (apply_op σ o) b y.
Proof.
  intros Hb. destruct o as [a x v m c h|a x v|a nm]; simpl.
  - by apply define_keeps_immutable.
  - by apply set_walk_keeps_immutable.
  - destruct Hb as (e & He & Hy). exists e. split; [|done].
    by apply lookup_app_l_Some.
Qed.

Lemma apply_ops_keep_immutable ops (σ : store) b y :
  immutable_in σ b y → immutable_in (apply_ops ops σ) b y.
Proof.
  revert σ. induction ops as [|o ops IH]; intros σ Hb; simpl; [done|].
  apply IH. by apply apply_op_keeps_immutable.
Qed.

Lemma define_makes_immutable (σ : store) b x v mutable constant hint :
  (b < List.length σ)%nat →
  mutable = false ∨ constant = true →
  immutable_in (define σ b x v mutable constant hint) b x.
Proof.
  intros Hb Hk. destruct (lookup_lt_is_Some_2 σ b Hb) as [e He].
  eexists. split; [unfold define; by rewrite list_lookup_alter_eq, He|].
  unfold define_in. simpl.
  destruct Hk as [->| ->]; [destruct constant|]; set_solver.
Qed.

(** C5.  A binding of [x] is declared in scope [b] with [mutable=False]
    ([let]) or [constant=True] ([const]).  After any further definitions,
    writes and scope creations, every [set] of [x] issued from a scope whose
    nearest binding of [x] is that one fails with an Assign error, and it
    leaves the store, hence the value of the binding, as it was. *)
Theorem immutable_binding_rejects_set
    (σ : store) b x v0 mutable constant hint ops a v :
  (b < List.length σ)%nat →
  mutable = false ∨ constant = true →
  let σ1 := apply_ops ops (define σ b x v0 mutable constant hint) in
  resolve σ1 a x = Some b →
  (∃ msg, Environment.set σ1 a x v = (raise AssignmentError msg, σ1))
  ∧ get (snd (Environment.set σ1 a x v)) b x = get σ1 b x.
Proof.
  intros Hb Hk σ1 Hres.
  assert (Himm : immutable_in σ1 b x).
  { apply apply_ops_keep_immutable. by apply define_makes_immutable. }
  destruct Himm as (e & He & Hx).
  destruct (set_walk_immutable (S a) σ1 a x v b e Hres He Hx) as [msg Hset].
  unfold Environment.set. rewrite Hset. split; [by exists msg|done].
Qed.

Lemma immutable_binding_rejects_set_witness :
  let σ := [global] in
  let ops := [OpChild 0 "f"; OpDefine 1 "y" (VInt 3) true false None;
              OpSet 1 "y" (VInt 4)] in
  let σ1 := apply_ops ops (define σ 0%nat "x" (VInt 1) false false None) in
  (0 < List.length σ)%nat
  ∧ (false = false ∨ false = true)
  ∧ resolve σ1 1%nat "x" = Some 0%nat
  ∧ ((∃ msg, Environment.set σ1 1%nat "x" (VInt 2)
             = (raise AssignmentError msg, σ1))
     ∧ get (snd (Environment.set σ1 1%nat "x" (VInt 2))) 0%nat "x"
       = get σ1 0%nat "x").
Proof.
  intros σ ops σ1.
  assert (H1 : (0 < List.length σ)%nat) by (simpl; lia).
  assert (H2 : false = false ∨ false = true) by (left; reflexivity).
  assert (H3 : resolve σ1 1%nat "x" = Some 0%nat) by (vm_compute; reflexivity).
  split; [exact H1|]. split; [exact H2|]. split; [exact H3|].
  exact (immutable_binding_rejects_set σ 0%nat "x" (VInt 1) false false None
           ops 1%nat (VInt 2) H1 H2 H3).
Defined.

(** On a store whose parents are older than their children the walks
    reach the end of the chain: [S a] steps from scope [a] never run out. *)
Lemma get_walk_reaches_the_end n (σ : store) a x w :
  wf_store σ → (a < n)%nat → (a < List.length σ)%nat →
  get_walk n σ a x ≠ Abort w.
Proof.
  intros Hwf. revert a. induction n as [|n IH]; intros a Hn Ha; [lia|].
  simpl. destruct (lookup_lt_is_Some_2 σ a Ha) as [e He]. rewrite He.
  destruct (_variables e !! x); [done|].
  destruct (parent e) as [p|] eqn:Hp; [|done].
  specialize (Hwf a e p He Hp). apply IH; lia.
Qed.

Lemma set_walk_reaches_the_end n (σ : store) a x v w :
  wf_store σ → (a < n)%nat → (a < List.length σ)%nat →
  fst (set_walk n σ a x v) ≠ Abort w.
Proof.
  intros Hwf. revert a. induction n as [|n IH]; intros a Hn Ha; [lia|].
  simpl. destruct (lookup_lt_is_Some_2 σ a Ha) as [e He]. rewrite He.
  destruct (_variables e !! x).
  - destruct (decide (x ∈ _constants e)); [done|].
    by destruct (decide (x ∈ _immutables e)).
  - destruct (parent e) as [p|] eqn:Hp; [|done].
    specialize (Hwf a e p He Hp). apply IH; lia.
Qed.

(** A child scope created from an existing scope keeps the store well
    formed. *)
Lemma child_keeps_wf (σ : store) a nm :
  wf_store σ → (a < List.length σ)%nat → wf_store (snd (child σ a nm)).
Proof.
  intros Hwf Ha b e p Hb Hp. simpl in Hb.
  destruct (decide (b < List.length σ)%nat) as [Hlt|Hge].
  - rewrite lookup_app_l in Hb by done. by eapply Hwf.
  - rewrite lookup_app_r in Hb by lia.
    destruct (b - List.length σ)%nat as [|k] eqn:Hk; [|by destruct k].
    simpl in Hb. injection Hb as <-. simpl in Hp. injection Hp as <-. lia.
Qed.

End EnvironmentFacts.

Section AssignmentFacts.

(** The assignment [x = rhs] of the language, when the nearest binding of
    [x] is immutable: the Assign error of the scope chain surfaces, and the
    state is the one the right-hand side left. *)
Lemma assignment_to_immutable_fails (ev : node → M value) x rhs st v st1 b :
  ev rhs st = (Ok v, st1) →
  Environment.resolve (envs st1) (current_env st1) x = Some b →
  immutable_in (envs st1) b x →
  ∃ msg, _eval_Assignment ev (Identifier x) rhs "=" st
         = (raise AssignmentError msg, st1).
Proof.
  intros Hv Hres (e & He & Hx).
  destruct (set_walk_immutable (S (current_env st1)) (envs st1)
              (current_env st1) x v b e Hres He Hx) as [msg Hset].
  exists msg. unfold _eval_Assignment, bind at 1. rewrite Hv. simpl.
  unfold bind, ret, get_current_env, env_set, Environment.set.
  rewrite Hset. by destruct st1.
Qed.

End AssignmentFacts.

(** ** Host equality *)


Section EqualityFacts.

Lemma py_eq_VList xs ys : py_eq (VList xs) (VList ys) = list_eq xs ys.
Proof.
  simpl. revert ys. induction xs as [|a xs IH]; intros [|b ys]; simpl;
    [done|done|done|]. by rewrite IH.
Qed.

Lemma py_eq_VMap m1 m2 : py_eq (VMap m1) (VMap m2) = dict_eq m1 m2.
Proof.
  simpl. unfold dict_eq. f_equal.
  induction m1 as [|[k v] m1 IH]; [done|]. simpl. rewrite IH. f_equal.
  clear IH. induction m2 as [|[k' v'] m2 IH2]; [done|]. simpl.
  unfold py_eq_item at 1. destruct (same_nan k k' || py_eq k k'); [done|].
  apply IH2.
Qed.

Lemma SFcompare_refl f : is_nan f = false → SFcompare f f = Some Eq.
Proof.
  destruct f as [s|s| |s m e]; simpl; intros H; try done.
  - by destruct s.
  - assert (Hm : Pos.compare_cont Eq m m = Eq) by apply Pos.compare_refl.
    destruct s; rewrite Z.compare_refl, Hm; done.
Qed.

Lemma number_eqb_refl v a :
  number_of v = Some a → is_nan_value v = false → number_eqb a a = true.
Proof.
  unfold number_eqb. destruct v; try done; simpl; intros [= <-] H; simpl.
  - by rewrite Z.compare_refl.
  - by rewrite Z.compare_refl.
  - by rewrite SFcompare_refl.
Qed.

Lemma dict_find_own (m : list (value * value)) i k v :
  keys_distinct m = true →
  m !! i = Some (k, v) →
  py_eq_item k k = true →
  dict_find m k = Some v.
Proof.
  revert i. induction m as [|[k0 v0] m IH]; intros i Hd Hi Hk; [done|].
  simpl in Hd. apply andb_true_iff in Hd as [Hhead Hd].
  destruct i as [|i]; simpl in *.
  - injection Hi as -> ->. by rewrite Hk.
  - assert (Hne : py_eq_item k k0 = false).
    { rewrite forallb_forall in Hhead.
      specialize (Hhead (k, v)). simpl in Hhead.
      apply negb_true_iff, Hhead, list_elem_of_In.
      by eapply list_elem_of_lookup_2. }
    rewrite Hne. by eapply IH.
Qed.

Lemma tracked_VMap m :
  tracked (VMap m) = true →
  Forall (fun kv => tracked (fst kv) = true ∧ tracked (snd kv) = true) m.
Proof.
  induction m as [|[k v] m IH]; simpl; intros H; [constructor|].
  apply andb_true_iff in H as [H Hm]. apply andb_true_iff in H as [Hk Hv].
  constructor; [done|]. by apply IH.
Qed.

Lemma well_keyed_VMap m :
  well_keyed (VMap m) = true →
  keys_distinct m = true
  ∧ Forall (fun kv => well_keyed (fst kv) = true ∧ well_keyed (snd kv) = true)
           m.
Proof.
  simpl. intros H. apply andb_true_iff in H as [Hd H]. split; [done|].
  clear Hd. induction m as [|[k v] m IH]; simpl in *; [constructor|].
  apply andb_true_iff in H as [H Hm]. apply andb_true_iff in H as [Hk Hv].
  constructor; [done|]. by apply IH.
Qed.

(** An item is equal to itself for the host, a NaN included: it is one
    object. *)
Lemma py_eq_item_self x :
  tracked x = true →
  py_eq x x = negb (is_nan_value x) →
  py_eq_item x x = true.
Proof.
  intros Ht He. unfold py_eq_item. rewrite He.
  destruct x; simpl in *; try done. by rewrite Nat.eqb_refl.
Qed.

(** Host equality of a value with itself: true, except on a NaN. *)
Lemma py_eq_self x :
  tracked x = true → well_keyed x = true →
  py_eq x x = negb (is_nan_value x).
Proof.
  induction x as [| | | | |l IH|m IH| | | | | | | |r s IH|n r s IH|]
    using value_nested_ind; intros Ht Hw; try done.
  - simpl. by destruct b.
  - simpl. unfold number_eqb. simpl. by rewrite Z.compare_refl.
  - simpl in Ht. apply negb_true_iff in Ht. simpl. rewrite Ht.
    by eapply (number_eqb_refl (VFloat f)).
  - simpl. apply String.eqb_refl.
  - rewrite py_eq_VList. simpl in Ht, Hw. simpl.
    induction IH as [|a l Ha _ IHl]; [done|]. simpl in *.
    apply andb_true_iff in Ht as [Ht1 Ht2].
    apply andb_true_iff in Hw as [Hw1 Hw2].
    rewrite py_eq_item_self by auto. by rewrite IHl.
  - rewrite py_eq_VMap. unfold dict_eq. rewrite Nat.eqb_refl. simpl.
    apply tracked_VMap in Ht. apply well_keyed_VMap in Hw as [Hd Hw].
    apply forallb_forall. intros [k v] Hin. simpl.
    apply list_elem_of_In, list_elem_of_lookup_1 in Hin as [i Hi].
    assert (Hkv : py_eq_item k k = true ∧ py_eq_item v v = true).
    { rewrite Forall_lookup in IH, Ht, Hw.
      destruct (IH i _ Hi) as [IHk IHv]. destruct (Ht i _ Hi) as [Htk Htv].
      destruct (Hw i _ Hi) as [Hwk Hwv]. simpl in *.
      split; apply py_eq_item_self; auto. }
    destruct Hkv as [Hk Hv]. by rewrite (dict_find_own m i k v Hd Hi Hk).
  - simpl. unfold range_eqb. rewrite !Z.eqb_refl. by rewrite orb_true_r.
  - simpl. apply Nat.eqb_refl.
  - simpl. apply Nat.eqb_refl.
  - simpl. apply Nat.eqb_refl.
  - simpl. apply Nat.eqb_refl.
  - simpl. apply Nat.eqb_refl.
  - simpl. apply String.eqb_refl.
  - simpl in *. fold (py_eq_item r r).
    rewrite py_eq_item_self by auto. apply String.eqb_refl.
  - simpl. apply Nat.eqb_refl.
Qed.

Lemma dict_set_keys (m : list (value * value)) k v kv :
  kv ∈ dict_set m k v → fst kv ∈ (fst <$> m) ∨ fst kv = k.
Proof.
  induction m as [|[k0 v0] m IH]; simpl.
  - intros ->%list_elem_of_singleton. by right.
  - destruct (py_eq_item k k0).
    + intros [->|H]%elem_of_cons; left; simpl; [left|right].
      by apply (list_elem_of_fmap_2 fst).
    + intros [->|H]%elem_of_cons; [left; left|].
      destruct (IH H) as [H1|H1]; [left; by right|by right].
Qed.

(** The insertions of the host keep the keys of a map pairwise unequal. *)
Lemma dict_set_keys_distinct (m : list (value * value)) k v :
  keys_distinct m = true → keys_distinct (dict_set m k v) = true.
Proof.
  induction m as [|[k0 v0] m IH]; simpl; intros Hd; [done|].
  apply andb_true_iff in Hd as [Hhead Hd].
  destruct (py_eq_item k k0) eqn:Hk; simpl.
  - by rewrite Hhead, Hd.
  - rewrite (IH Hd), andb_true_r. apply forallb_forall. intros kv Hin.
    apply list_elem_of_In in Hin. apply dict_set_keys in Hin as [Hin|Hin].
    + rewrite forallb_forall in Hhead.
      apply list_elem_of_fmap in Hin as (kv' & Heq & Hin').
      rewrite Heq. apply Hhead. by apply list_elem_of_In.
    + rewrite Hin. by rewrite Hk.
Qed.

Lemma dict_update_keys_distinct (m other : list (value * value)) :
  keys_distinct m = true → keys_distinct (dict_update m other) = true.
Proof.
  unfold dict_update. revert m.
  induction other as [|[k v] other IH]; intros m Hm; simpl; [done|].
  apply IH. by apply dict_set_keys_distinct.
Qed.

End EqualityFacts.

(** ** Values whose NaN carry their serials *)

Section TrackedFacts.

Lemma float_tracked q : tracked (VFloat q) = true ∨ VFloat q = VFloat S754_nan.
Proof. destruct q; eauto. Qed.

Lemma number_result_tracked r st v st' :
  (∀ w, r = Ok w → tracked w = true ∨ w = VFloat S754_nan) →
  number_result r st = (Ok v, st') → tracked v = true.
Proof.
  intros Hr. destruct r as [w| | | |]; try done.
  destruct (Hr w eq_refl) as [Hw| ->].
  - destruct w as [| | |f| | | | | | | | | | | | |];
      try (by intros [= <- _]).
    destruct f; by intros [= <- _].
  - simpl. unfold bind, fresh_serial, ret. by intros [= <- _].
Qed.

Lemma arith_tracked op iop fop l r w :
  (∀ a b w, iop a b = Ok w → tracked w = true) →
  (∀ a b w, fop a b = Ok w → tracked w = true ∨ w = VFloat S754_nan) →
  arith op iop fop l r = Ok w → tracked w = true ∨ w = VFloat S754_nan.
Proof.
  intros Hi Hf. unfold arith.
  destruct (number_of l) as [[a|a]|], (number_of r) as [[b|b]|]; try done.
  - intros H. left. by eapply Hi.
  - destruct (float_of_int a); try done. apply Hf.
  - destruct (float_of_int b); try done. apply Hf.
  - apply Hf.
Qed.

Lemma tracked_app xs ys :
  tracked (VList xs) = true → tracked (VList ys) = true →
  tracked (VList (xs ++ ys)) = true.
Proof. simpl. rewrite forallb_app. by intros -> ->. Qed.

Lemma tracked_repeat_list n xs :
  tracked (VList xs) = true → tracked (VList (repeat_list n xs)) = true.
Proof.
  intros Hx. unfold repeat_list. induction n as [|n IH]; [done|].
  simpl. rewrite forallb_app. simpl in *. by rewrite Hx, IH.
Qed.

Lemma py_add_tracked l r w :
  tracked l = true → tracked r = true →
  py_add l r = Ok w → tracked w = true ∨ w = VFloat S754_nan.
Proof.
  intros Hl Hr. unfold py_add.
  assert (Hnum : py_add_num l r = Ok w →
                 tracked w = true ∨ w = VFloat S754_nan).
  { apply arith_tracked.
    - by intros a b w0 [= <-].
    - intros a b w0 [= <-]. apply float_tracked. }
  destruct l, r; try exact Hnum.
  - by intros [= <-]; left.
  - intros [= <-]. left. by apply tracked_app.
Qed.

Lemma py_sub_tracked l r w :
  py_sub l r = Ok w → tracked w = true ∨ w = VFloat S754_nan.
Proof.
  apply arith_tracked.
  - by intros a b w0 [= <-].
  - intros a b w0 [= <-]. apply float_tracked.
Qed.

Lemma py_mul_tracked l r w :
  tracked l = true → tracked r = true →
  py_mul l r = Ok w → tracked w = true ∨ w = VFloat S754_nan.
Proof.
  intros Hl Hr. unfold py_mul.
  assert (Hnum : py_mul_num l r = Ok w →
                 tracked w = true ∨ w = VFloat S754_nan).
  { apply arith_tracked.
    - by intros a b w0 [= <-].
    - intros a b w0 [= <-]. apply float_tracked. }
  destruct l, r; try exact Hnum; simpl;
    try (intros [= <-]; left; done);
    try (intros [= <-]; left; by apply tracked_repeat_list).
Qed.

Lemma py_truediv_tracked l r w :
  py_truediv l r = Ok w → tracked w = true ∨ w = VFloat S754_nan.
Proof.
  unfold py_truediv.
  destruct (number_of l) as [[a|a]|], (number_of r) as [[b|b]|]; try done;
    simpl.
  - destruct (b =? 0); [done|].
    destruct (SFdiv prec emax (exact_of_int a) (exact_of_int b)) eqn:Hq;
      try done; intros [= <-]; apply float_tracked.
  - destruct (float_of_int a); try done.
    destruct b; simpl; try done; intros [= <-]; apply float_tracked.
  - destruct (float_of_int b); try done.
    destruct (b =? 0); [done|]. intros [= <-]. apply float_tracked.
  - destruct b; simpl; try done; intros [= <-]; apply float_tracked.
Qed.

(** The binary operations return values in which every NaN carries its
    serial, from operands that are such values: the hypothesis of the
    theorem on [x == x] is one that the evaluator keeps. *)
Lemma binary_operation_tracked op l r st v st' :
  tracked l = true → tracked r = true →
  binary_operation op l r st = (Ok v, st') → tracked v = true.
Proof.
  intros Hl Hr. unfold binary_operation.
  assert (Hbool : ∀ m : M bool,
            (b <- m ;; ret (VBool b)) st = (Ok v, st') → tracked v = true).
  { intros m. unfold bind. destruct (m st) as [[b| | | |] s1]; try done.
    by intros [= <- _]. }
  repeat match goal with
         | |- context [String.eqb op ?s] => destruct (String.eqb op s)
         end; simpl; try apply Hbool; try (by intros [= <- _]).
  - destruct (is_str l || is_str r).
    + unfold bind, lift. destruct (py_str l); try done.
      destruct (py_str r); try done. by intros [= <- _].
    + apply number_result_tracked. intros w. by apply py_add_tracked.
  - apply number_result_tracked. intros w. apply py_sub_tracked.
  - apply number_result_tracked. intros w. by apply py_mul_tracked.
  - destruct (py_eq r (VInt 0)); [done|].
    apply number_result_tracked. intros w. apply py_truediv_tracked.
  - unfold lift, py_mod.
    destruct (number_of l) as [[a|a]|], (number_of r) as [[b|b]|]; try done.
    all: try by destruct l.
    destruct (b =? 0); [done|]. by intros [= <- _].
  - unfold lift, py_pow.
    destruct (number_of l) as [[a|a]|], (number_of r) as [[b|b]|]; try done.
    destruct (0 <=? b); [|done]. by intros [= <- _].
Qed.

End TrackedFacts.

(** ** Binary operations *)

Section BinaryOperationFacts.

(** C6, as amended.  [x == x], the two operands being the one object that
    the name [x] is bound to, evaluates to true for every value other than
    a NaN, a sequence or a map that holds a NaN included; for a NaN it
    evaluates to false.  (The value is one that the evaluator builds: its
    NaN carry their serials and the keys of its maps are distinct.) *)
Theorem equality_of_a_value_with_itself host fuel n x st :
  Environment.get (envs st) (current_env st) n = Ok x →
  tracked x = true →
  well_keyed x = true →
  evaluate host (S (S fuel)) (BinaryOp "==" (Identifier n) (Identifier n)) st
  = (Ok (VBool (negb (is_nan_value x))), st).
Proof.
  intros Hx Ht Hw.
  change (evaluate host (S (S fuel))
            (BinaryOp "==" (Identifier n) (Identifier n)) st)
    with (_eval_BinaryOp (evaluate host (S fuel)) "=="
            (Identifier n) (Identifier n) st).
  unfold _eval_BinaryOp, bind.
  change (evaluate host (S fuel) (Identifier n) st)
    with (Environment.get (envs st) (current_env st) n, st).
  rewrite Hx. unfold binary_operation, ret. simpl. rewrite Hx.
  by rewrite py_eq_self.
Qed.

Lemma equality_of_a_value_with_itself_witness :
  let inf := Literal (LitFloat (S754_infinity false)) in
  let st :=
    snd (PyHost.run 6
           [VariableDeclaration "let" "l" None
              (Some (ListLiteral
                       [BinaryOp "-" inf inf;
                        MapLiteral [(Some (Literal (LitStr "k")),
                                     BinaryOp "-" inf inf)]]))]) in
  let x := VList [VNaN 0; VMap [(VStr "k", VNaN 1)]] in
  Environment.get (envs st) (current_env st) "l" = Ok x
  ∧ tracked x = true
  ∧ well_keyed x = true
  ∧ evaluate PyHost.host 2
      (BinaryOp "==" (Identifier "l") (Identifier "l")) st
    = (Ok (VBool true), st).
Proof.
  intros inf st x.
  assert (H1 : Environment.get (envs st) (current_env st) "l" = Ok x)
    by (vm_compute; reflexivity).
  assert (H2 : tracked x = true) by reflexivity.
  assert (H3 : well_keyed x = true) by reflexivity.
  split; [exact H1|]. split; [exact H2|]. split; [exact H3|].
  exact (equality_of_a_value_with_itself PyHost.host 0 "l" x st H1 H2 H3).
Defined.

(** C6, the claim as stated fails: the difference of two infinite literals
    is a value of the evaluator, a NaN, and [x == x] is false for it. *)
Lemma nan_is_unequal_to_itself :
  let inf := Literal (LitFloat (S754_infinity false)) in
  PyHost.result_of 6 [ExpressionStatement (BinaryOp "-" inf inf)]
  = Ok (VNaN 0)
  ∧ PyHost.result_of 6
      [VariableDeclaration "let" "x" None (Some (BinaryOp "-" inf inf));
       ExpressionStatement (BinaryOp "==" (Identifier "x") (Identifier "x"))]
    = Ok (VBool false).
Proof. split; vm_compute; reflexivity. Qed.

(** What the host's comparison sees of identity.  A sequence that holds a
    NaN equals itself, and a sequence built again from the same NaN; two
    sequences that hold each a NaN of its own are unequal.  A closure over
    a text equals itself and no closure built by another access. *)
Example equality_and_identity :
  let inf := Literal (LitFloat (S754_infinity false)) in
  let nan := BinaryOp "-" inf inf in
  let eq a b := ExpressionStatement (BinaryOp "==" a b) in
  let includes := MemberAccess (Literal (LitStr "abc")) "includes" false in
  PyHost.result_of 8
    [VariableDeclaration "let" "l" None (Some (ListLiteral [nan]));
     eq (Identifier "l") (Identifier "l")]
  = Ok (VBool true)
  ∧ PyHost.result_of 8
      [VariableDeclaration "let" "n" None (Some nan);
       eq (ListLiteral [Identifier "n"]) (ListLiteral [Identifier "n"])]
    = Ok (VBool true)
  ∧ PyHost.result_of 8 [eq (ListLiteral [nan]) (ListLiteral [nan])]
    = Ok (VBool false)
  ∧ PyHost.result_of 8
      [VariableDeclaration "let" "f" None (Some includes);
       eq (Identifier "f") (Identifier "f")]
    = Ok (VBool true)
  ∧ PyHost.result_of 8 [eq includes includes] = Ok (VBool false).
Proof. split_and!; vm_compute; reflexivity. Qed.

Lemma int_float_compare_zero s m e :
  int_float_compare 0 (S754_finite s m e) ≠ Some Eq.
Proof.
  unfold int_float_compare. destruct (0 <=? e) eqn:He; intros H.
  - apply Z.leb_le in He.
    assert (0 < 2 ^ e) by (apply Z.pow_pos_nonneg; lia).
    assert (0 = (if s then Z.neg m else Z.pos m) * 2 ^ e)
      by (apply Z.compare_eq; congruence).
    destruct s; nia.
  - assert ((0 * 2 ^ (- e))%Z = (if s then Z.neg m else Z.pos m))
      by (apply Z.compare_eq; congruence).
    destruct s; lia.
Qed.

(** The right operands that the guard of [/] takes for zero. *)
Lemma equals_zero_iff rv :
  py_eq rv (VInt 0) = true
  ↔ rv = VInt 0 ∨ rv = VBool false ∨ ∃ s, rv = VFloat (S754_zero s).
Proof.
  split.
  - destruct rv as [|b|z|f| | | | | | | | | | | | |]; try done.
    + destruct b; [done|eauto].
    + destruct z; [eauto|done|done].
    + destruct f as [s|s| |s m e]; [eauto| | |].
      * by destruct s.
      * done.
      * intros H. exfalso.
        pose proof (int_float_compare_zero s m e) as Hc.
        change (py_eq (VFloat (S754_finite s m e)) (VInt 0))
          with (number_eqb (NFloat (S754_finite s m e)) (NInt 0)) in H.
        unfold number_eqb, number_compare in H.
        destruct (int_float_compare 0 (S754_finite s m e)) as [[| |]|];
          done.
  - intros [->|[->|[s ->]]]; reflexivity.
Qed.

Lemma py_eq_zero rv b :
  number_of rv = Some b → py_eq rv (VInt 0) = is_zero b.
Proof.
  intros Hb. destruct (py_eq rv (VInt 0)) eqn:Hz.
  - apply equals_zero_iff in Hz as [->|[->|[s ->]]]; by injection Hb as <-.
  - destruct b as [y|y]; simpl.
    + destruct (Z.eqb_spec y 0) as [->|]; [|done].
      destruct rv as [|[]| | | | | | | | | | | | | | |]; try done.
      injection Hb as ->. done.
    + destruct y; try done.
      destruct rv; try done. injection Hb as ->. done.
Qed.

(** An integer converts to a float, or the host refuses it as too large. *)
Lemma float_of_int_cases z :
  (∃ f, float_of_int z = Ok f)
  ∨ float_of_int z
    = host_raise "OverflowError" "int too large to convert to float".
Proof.
  unfold float_of_int. destruct (binary_normalize prec emax z 0 false); eauto.
Qed.

Lemma py_truediv_quotient lv rv a b :
  number_of lv = Some a →
  number_of rv = Some b →
  py_eq rv (VInt 0) = false →
  py_truediv lv rv = quotient a b.
Proof.
  intros Ha Hb Hz. rewrite (py_eq_zero rv b Hb) in Hz.
  unfold py_truediv, quotient. rewrite Ha, Hb.
  destruct a as [x|x], b as [y|y]; simpl in *.
  - by rewrite Hz.
  - destruct (float_of_int_cases x) as [[fx ->]| ->]; [|done]. by rewrite Hz.
  - destruct (float_of_int_cases y) as [[fy ->]| ->]; [|done]. by rewrite Hz.
  - by rewrite Hz.
Qed.

Lemma py_truediv_not_a_number lv rv :
  number_of lv = None ∨ number_of rv = None →
  py_truediv lv rv
  = host_raise "TypeError" "unsupported operand type(s) for /".
Proof.
  unfold py_truediv. intros [H|H]; rewrite H; [done|].
  by destruct (number_of lv) as [[]|].
Qed.

Lemma quotient_not_raised a b e : quotient a b ≠ Raised e.
Proof.
  destruct a as [x|x], b as [y|y]; simpl.
  - by destruct (SFdiv prec emax (exact_of_int x) (exact_of_int y)).
  - by destruct (float_of_int x).
  - by destruct (float_of_int y).
  - done.
Qed.

Lemma quotient_no_zero_division a b msg :
  quotient a b ≠ host_raise "ZeroDivisionError" msg.
Proof.
  destruct a as [x|x], b as [y|y]; simpl.
  - by destruct (SFdiv prec emax (exact_of_int x) (exact_of_int y)).
  - by destruct (float_of_int x).
  - by destruct (float_of_int y).
  - done.
Qed.

(** The record of a new NaN changes no failure. *)
Lemma number_result_failure r st :
  (∀ v, r ≠ Ok v) → number_result r st = (r, st).
Proof.
  intros H. destruct r as [v| | | |]; try done. by destruct (H v).
Qed.

Lemma number_result_value r st v :
  fst (number_result r st) = Ok v →
  r = Ok v ∨ (r = Ok (VFloat S754_nan) ∧ v = VNaN (next_serial st)).
Proof.
  destruct r as [w| | | |]; try done.
  destruct w as [| | |f| | | | | | | | | | | | |];
    try (simpl; intros [= ->]; by left).
  destruct f; try (simpl; intros [= ->]; by left).
  simpl. intros [= <-]. by right.
Qed.

Lemma number_result_outcome r st :
  (∃ v, fst (number_result r st) = Ok v ∧ ∃ w, r = Ok w)
  ∨ fst (number_result r st) = r.
Proof.
  destruct r as [w| | | |]; try by right.
  destruct w as [| | |f| | | | | | | | | | | | |]; try by right.
  destruct f; try by right. left. simpl. eauto.
Qed.

(** C9, as amended.  The operands of [/] being evaluated: a right operand
    equal to zero fails with the division-by-zero error.  Any other right
    operand raises no error of the interpreter and no division-by-zero
    error of the host, and the result is what the host's division yields:
    for two numbers their [quotient], for any other operand the host's
    type error. *)
Theorem division_by_zero_guard (ev : node → M value) l r st lv rv st1 st2 :
  ev l st = (Ok lv, st1) →
  ev r st1 = (Ok rv, st2) →
  (py_eq rv (VInt 0) = true →
   _eval_BinaryOp ev "/" l r st
   = (raise DivisionByZeroError "Division by zero", st2))
  ∧ (py_eq rv (VInt 0) = false →
     _eval_BinaryOp ev "/" l r st = number_result (py_truediv lv rv) st2
     ∧ (∀ e, fst (_eval_BinaryOp ev "/" l r st) ≠ Raised e)
     ∧ (∀ msg, fst (_eval_BinaryOp ev "/" l r st)
               ≠ host_raise "ZeroDivisionError" msg)
     ∧ (∀ a b, number_of lv = Some a → number_of rv = Some b →
          py_truediv lv rv = quotient a b)
     ∧ (number_of lv = None ∨ number_of rv = None →
          _eval_BinaryOp ev "/" l r st
          = (host_raise "TypeError" "unsupported operand type(s) for /",
             st2))).
Proof.
  intros Hl Hr.
  assert (Hop : _eval_BinaryOp ev "/" l r st
                = binary_operation "/" lv rv st2).
  { unfold _eval_BinaryOp, bind. by rewrite Hl, Hr. }
  rewrite Hop. unfold binary_operation. simpl. split; intros Hz; rewrite Hz.
  - done.
  - assert (Hcases :
      (∃ a b, number_of lv = Some a ∧ number_of rv = Some b)
      ∨ (number_of lv = None ∨ number_of rv = None)).
    { destruct (number_of lv), (number_of rv); eauto. }
    assert (Hnot : ∀ o, (∀ e, o ≠ Raised e) →
              (∀ msg, o ≠ host_raise "ZeroDivisionError" msg) →
              (∀ e, fst (number_result o st2) ≠ Raised e)
              ∧ (∀ msg, fst (number_result o st2)
                        ≠ host_raise "ZeroDivisionError" msg)).
    { intros o H1 H2.
      destruct (number_result_outcome o st2) as [(v & -> & _)| ->]; done. }
    split_and!.
    + done.
    + destruct Hcases as [(a & b & Ha & Hb)|Hn].
      * rewrite (py_truediv_quotient lv rv a b Ha Hb Hz).
        apply Hnot; [apply quotient_not_raised|].
        apply quotient_no_zero_division.
      * rewrite (py_truediv_not_a_number lv rv Hn). done.
    + destruct Hcases as [(a & b & Ha & Hb)|Hn].
      * rewrite (py_truediv_quotient lv rv a b Ha Hb Hz).
        apply Hnot; [apply quotient_not_raised|].
        apply quotient_no_zero_division.
      * rewrite (py_truediv_not_a_number lv rv Hn). done.
    + intros a b Ha Hb. by apply py_truediv_quotient.
    + intros Hn. by rewrite (py_truediv_not_a_number lv rv Hn).
Qed.

Lemma division_by_zero_guard_witness :
  let ev := evaluate PyHost.host 2 in
  let st := PyHost.initial_state in
  ev (Literal (LitInt 15)) st = (Ok (VInt 15), st)
  ∧ ev (Literal (LitInt 3)) st = (Ok (VInt 3), st)
  ∧ py_eq (VInt 3) (VInt 0) = false
  ∧ _eval_BinaryOp ev "/" (Literal (LitInt 15)) (Literal (LitInt 3)) st
    = number_result (py_truediv (VInt 15) (VInt 3)) st
  ∧ py_truediv (VInt 15) (VInt 3) = quotient (NInt 15) (NInt 3).
Proof.
  intros ev st.
  assert (H1 : ev (Literal (LitInt 15)) st = (Ok (VInt 15), st))
    by reflexivity.
  assert (H2 : ev (Literal (LitInt 3)) st = (Ok (VInt 3), st)) by reflexivity.
  assert (H3 : py_eq (VInt 3) (VInt 0) = false) by reflexivity.
  split; [exact H1|]. split; [exact H2|]. split; [exact H3|].
  destruct (proj2 (division_by_zero_guard ev _ _ st _ _ st st H1 H2) H3)
    as (Ha & _ & _ & Hq & _).
  split; [exact Ha|]. exact (Hq _ _ eq_refl eq_refl).
Defined.

(** C9, the claim as stated fails: the right operand is not zero and no
    quotient is returned, for a quotient of two integers beyond the float
    range, for an integer too large to meet a float (the quotient itself
    being within the range), and for a left operand that is not a
    number. *)
Lemma quotient_is_not_always_returned :
  let lit (z : Z) := Literal (LitInt z) in
  let big := BinaryOp "**" (lit 10) (lit 400) in
  let f1e300 := Literal (LitFloat (S754_finite false 6724873095247260 944)) in
  PyHost.result_of 4 [ExpressionStatement (BinaryOp "/" big (lit 1))]
  = host_raise "OverflowError" "integer division result too large for a float"
  ∧ PyHost.result_of 4 [ExpressionStatement (BinaryOp "/" big f1e300)]
    = host_raise "OverflowError" "int too large to convert to float"
  ∧ PyHost.result_of 4
      [ExpressionStatement (BinaryOp "/" (Literal (LitStr "a")) (lit 2))]
    = host_raise "TypeError" "unsupported operand type(s) for /".
Proof. split_and!; vm_compute; reflexivity. Qed.

(** The quotients of the test suite: [15 / 3] is [5.0], and [7 / 2] is
    [3.5]; two floats always have a quotient, which may be infinite or, as
    for two infinite operands, a NaN. *)
Example quotient_examples :
  let inf := Literal (LitFloat (S754_infinity false)) in
  py_truediv (VInt 15) (VInt 3) = Ok (VFloat (S754_finite false 5629499534213120 (-50)))
  ∧ py_truediv (VInt 7) (VInt 2) = Ok (VFloat (S754_finite false 7881299347898368 (-51)))
  ∧ PyHost.result_of 4
      [ExpressionStatement (BinaryOp "/" (Literal (LitInt 10)) (Literal (LitInt 0)))]
    = raise DivisionByZeroError "Division by zero"
  ∧ PyHost.result_of 4 [ExpressionStatement (BinaryOp "/" inf inf)]
    = Ok (VNaN 0).
Proof. repeat split; vm_compute; reflexivity. Qed.

End BinaryOperationFacts.

(** ** Ranges *)

Section RangeFacts.

Lemma range_items_seqZ a stop : range_items a stop = seqZ a (stop - a).
Proof.
  unfold range_items, seqZ. apply map_ext. intros i. lia.
Qed.

Lemma range_items_length a stop :
  List.length (range_items a stop) = Z.to_nat (stop - a).
Proof. unfold range_items. by rewrite length_map, length_seq. Qed.

Lemma range_items_lookup a stop (i : nat) :
  (i < Z.to_nat (stop - a))%nat →
  range_items a stop !! i = Some (a + Z.of_nat i).
Proof.
  intros Hi. unfold range_items. rewrite list_lookup_fmap.
  by rewrite lookup_seq_lt.
Qed.

Lemma elem_of_range_items a stop z :
  z ∈ range_items a stop ↔ a ≤ z < stop.
Proof. rewrite range_items_seqZ, elem_of_seqZ. lia. Qed.

(** C8.  [Parser.parse_range] turns [a .. b] and [a to b] alike into a range node
    with [inclusive] set, and for integer bounds [a] and [b] that node
    evaluates to the host range whose items are [a], [a + 1], ..., [b] in
    this order; there are none when [a > b]. *)
Theorem range_is_inclusive
    (parse_addition : Parser.t → Parser.result node) (ev : node → M value)
    p l p1 tok r p2 st a b st1 st2 :
  parse_addition p = Parser.Parsed l p1 →
  Parser.current p1 = Some tok →
  Parser.type tok = Parser.RANGE ∨ Parser.type tok = Parser.TO →
  parse_addition (Parser.advance p1) = Parser.Parsed r p2 →
  ev l st = (Ok (VInt a), st1) →
  ev r st1 = (Ok (VInt b), st2) →
  Parser.parse_range parse_addition p = Parser.Parsed (Range l r true) p2
  ∧ _eval_Range ev l r true st = (Ok (VRange a (b + 1)), st2)
  ∧ range_items a (b + 1) = seqZ a (b - a + 1)
  ∧ (∀ z, z ∈ range_items a (b + 1) ↔ a ≤ z ≤ b)
  ∧ (∀ i : nat, (i < Z.to_nat (b - a + 1))%nat →
       range_items a (b + 1) !! i = Some (a + Z.of_nat i))
  ∧ List.length (range_items a (b + 1)) = Z.to_nat (b - a + 1)
  ∧ (a > b → range_items a (b + 1) = []).
Proof.
  intros Hl Htok Hty Hr Hel Her. split_and!.
  - unfold Parser.parse_range, Parser.match_range. rewrite Hl, Htok.
    assert (Hrt : Parser.is_range_or_to (Parser.type tok) = true)
      by (destruct Hty as [-> | ->]; reflexivity).
    by rewrite Hrt, Hr.
  - unfold _eval_Range, bind. by rewrite Hel, Her.
  - rewrite range_items_seqZ. f_equal. lia.
  - intros z. rewrite elem_of_range_items. lia.
  - intros i Hi. apply range_items_lookup.
    by replace (b + 1 - a) with (b - a + 1) by lia.
  - rewrite range_items_length. f_equal. lia.
  - intros Hab. apply length_zero_iff_nil. rewrite range_items_length. lia.
Qed.

Lemma range_is_inclusive_witness :
  let number (tok : Parser.Token) : node :=
    Literal (LitInt (if String.eqb (Parser.value tok) "3" then 3 else 5)) in
  let parse_addition (p : Parser.t) : Parser.result node :=
    match Parser.current p with
    | Some tok =>
        match Parser.type tok with
        | Parser.NUMBER => Parser.Parsed (number tok) (Parser.advance p)
        | _ => Parser.Failed "Unexpected token"
        end
    | None => Parser.Failed "Unexpected token"
    end in
  let toks := [Parser.mkToken Parser.NUMBER "3" 1 1; Parser.mkToken Parser.TO "to" 1 3;
               Parser.mkToken Parser.NUMBER "5" 1 6; Parser.mkToken Parser.EOF "" 1 7] in
  let ev := evaluate PyHost.host 2 in
  let st := PyHost.initial_state in
  Parser.parse_range parse_addition (Parser.mk toks 0)
  = Parser.Parsed (Range (Literal (LitInt 3)) (Literal (LitInt 5)) true)
           (Parser.mk toks 3)
  ∧ _eval_Range ev (Literal (LitInt 3)) (Literal (LitInt 5)) true st
    = (Ok (VRange 3 6), st)
  ∧ range_items 3 6 = [3; 4; 5].
Proof.
  intros number parse_addition toks ev st.
  pose proof (range_is_inclusive parse_addition ev (Parser.mk toks 0)
                (Literal (LitInt 3)) (Parser.mk toks 1) (Parser.mkToken Parser.TO "to" 1 3)
                (Literal (LitInt 5)) (Parser.mk toks 3) st 3 5 st st
                eq_refl eq_refl (or_intror eq_refl) eq_refl eq_refl eq_refl)
    as (H1 & H2 & _).
  split; [exact H1|]. split; [exact H2|]. reflexivity.
Defined.

End RangeFacts.

(** ** Signals and the try statement *)

Section TryFacts.

(** C3, as amended.  A signal raised by the try block never enters the
    catch path: the statement behaves as the same statement without catch
    block.  It ends with that same signal when there is no finally block or
    when the finally block completes normally; a finally block that itself
    fails or signals replaces it. *)
Theorem signal_passes_the_catch_block
    (ev : node → M value) try_block catch_var catch_block st s st1 :
  ev try_block st = (Signalled s, st1) →
  _eval_TryStatement ev try_block catch_var catch_block None st
  = (Signalled s, st1)
  ∧ (∀ fb w st2,
       ev fb st1 = (Ok w, st2) →
       _eval_TryStatement ev try_block catch_var catch_block (Some fb) st
       = (Signalled s, st2))
  ∧ (∀ fb o st2,
       ev fb st1 = (o, st2) →
       (∀ w, o ≠ Ok w) →
       _eval_TryStatement ev try_block catch_var catch_block (Some fb) st
       = (o, st2))
  ∧ (∀ finally_block,
       _eval_TryStatement ev try_block catch_var catch_block finally_block st
       = _eval_TryStatement ev try_block None None finally_block st).
Proof.
  intros Htry. unfold _eval_TryStatement. rewrite Htry. split_and!.
  - done.
  - intros fb w st2 Hfb. by rewrite Hfb.
  - intros fb o st2 Hfb Ho. rewrite Hfb. destruct o; [by destruct (Ho a)|..];
      done.
  - done.
Qed.

Lemma signal_passes_the_catch_block_witness :
  let ev := evaluate PyHost.host 3 in
  let st := PyHost.initial_state in
  let try_block := Block [GiveStatement (Some (Literal (LitInt 1)))] in
  let catch_block := Some (Block [GiveStatement (Some (Literal (LitInt 3)))]) in
  ev try_block st = (Signalled (ReturnSignal (VInt 1)), st)
  ∧ _eval_TryStatement ev try_block (Some "e") catch_block None st
    = (Signalled (ReturnSignal (VInt 1)), st).
Proof.
  intros ev st try_block catch_block.
  assert (H : ev try_block st = (Signalled (ReturnSignal (VInt 1)), st))
    by reflexivity.
  split; [exact H|].
  exact (proj1 (signal_passes_the_catch_block ev try_block (Some "e")
                  catch_block st (ReturnSignal (VInt 1)) st H)).
Defined.

(** C3, the claim as stated fails: the try block raises the Return signal
    of [give 1], and the statement, whose finally block is [give 2], ends
    with another signal; so does the call of a function with that body,
    with or without a catch block. *)
Lemma finally_block_replaces_the_signal :
  let give (z : Z) := Block [GiveStatement (Some (Literal (LitInt z)))] in
  let st := PyHost.initial_state in
  let try_finally := TryStatement (give 1) None None (Some (give 2)) in
  let try_catch_finally :=
    TryStatement (give 1) (Some "e") (Some (give 3)) (Some (give 2)) in
  evaluate PyHost.host 3 (give 1) st = (Signalled (ReturnSignal (VInt 1)), st)
  ∧ evaluate PyHost.host 4 try_finally st
    = (Signalled (ReturnSignal (VInt 2)), st)
  ∧ evaluate PyHost.host 4 try_catch_finally st
    = (Signalled (ReturnSignal (VInt 2)), st)
  ∧ PyHost.result_of 8
      [FunctionDeclaration "f" [] (Block [try_finally]);
       ExpressionStatement (Call (Identifier "f") [])]
    = Ok (VInt 2).
Proof. split_and!; vm_compute; reflexivity. Qed.

End TryFacts.

(** ** Class instantiation *)

Section InstantiationFacts.

Lemma bind_Ok {A B : Type} (m : M A) (f : A → M B) st b st' :
  bind m f st = (Ok b, st') →
  ∃ a st1, m st = (Ok a, st1) ∧ f a st1 = (Ok b, st').
Proof.
  unfold bind. destruct (m st) as [[a| | | |] st1]; try done. eauto.
Qed.

(** Whatever the evaluation function does, a value returned by the call of
    a class is the instance that the call has created. *)
Lemma class_call_result (ev : node → M value) cls args st v st' :
  _instantiate_class ev cls args st = (Ok v, st') →
  v = VInstance (List.length (instances st)).
Proof.
  unfold _instantiate_class. intros H.
  apply bind_Ok in H as (i & s1 & Hi & H).
  assert (i = List.length (instances st)) as ->.
  { unfold new_instance in Hi. destruct (classes st !! cls); [|done].
    by injection Hi as <- _. }
  apply bind_Ok in H as (k & s2 & _ & H).
  destruct (_constructor k) as [[params body]|].
  - repeat (apply bind_Ok in H as (? & ? & _ & H)).
    unfold ret in H. by injection H as <- _.
  - unfold ret in H. by injection H as <- _.
Qed.

(** The call of a class runs the constructor from the scope and the state
    that [constructor_entry] leaves. *)
Lemma instantiate_class_from_entry (ev : node → M value) cls args st k
    params body env s1 :
  classes st !! cls = Some k →
  _constructor k = Some (params, body) →
  constructor_entry ev cls params args st = (Ok env, s1) →
  _instantiate_class ev cls args st
  = (in_env env (absorb_return (ev body)) ;;;
     ret (VInstance (List.length (instances st)))) s1.
Proof.
  intros Hk Hc. unfold constructor_entry, _instantiate_class.
  unfold bind at 1 6. unfold new_instance. rewrite Hk.
  unfold bind at 5. unfold get_class at 1. cbn [classes set_instances].
  rewrite Hk, Hc.
  unfold bind at 1 5. unfold get_current_env.
  unfold bind at 1 4. unfold env_child.
  destruct (Environment.child _ _ _) as [b σ].
  unfold bind at 1 3. unfold env_define.
  unfold bind at 1 2.
  destruct (bind_parameters false ev b args 0 params _) as [[[]| | | |] s];
    try done.
  unfold ret at 2. by intros [= <- <-].
Qed.

(** C10.  Whenever the call of a class returns a value, that value is the
    instance created by the call.  A class without a constructor returns
    it.  So does a class with a constructor whose body, run where the call
    runs it (in the scope of the constructor, [me] and the parameters
    bound), completes normally or raises a Return signal: the signal is
    absorbed and neither its value nor the value of the body takes the
    place of the instance. *)
Theorem class_call_returns_the_instance
    (ev : node → M value) cls args st k :
  classes st !! cls = Some k →
  (∀ v st', _instantiate_class ev cls args st = (Ok v, st') →
            v = VInstance (List.length (instances st)))
  ∧ (_constructor k = None →
     ∃ st', _instantiate_class ev cls args st
            = (Ok (VInstance (List.length (instances st))), st'))
  ∧ (∀ params body env s1 w s2,
       _constructor k = Some (params, body) →
       constructor_entry ev cls params args st = (Ok env, s1) →
       ev body (set_current_env env s1) = (Ok w, s2)
       ∨ ev body (set_current_env env s1)
         = (Signalled (ReturnSignal w), s2) →
       _instantiate_class ev cls args st
       = (Ok (VInstance (List.length (instances st))),
          set_current_env (current_env s1) s2)).
Proof.
  intros Hk. split_and!.
  - intros v st' Hv. by eapply class_call_result.
  - intros Hc. unfold _instantiate_class, bind, new_instance, get_class.
    rewrite Hk. simpl. rewrite Hk, Hc. by eexists.
  - intros params body env s1 w s2 Hc Hentry Hbody.
    rewrite (instantiate_class_from_entry ev cls args st k params body env s1
               Hk Hc Hentry).
    unfold bind, in_env, absorb_return. by destruct Hbody as [-> | ->].
Qed.

Lemma class_call_returns_the_instance_witness :
  let ev := evaluate PyHost.host 6 in
  let params := [mkParameter "v" None None false] in
  let body :=
    Block [ExpressionStatement
             (Assignment (MemberAccess Me "v" false) (Identifier "v") "=");
           GiveStatement (Some (Literal (LitInt 99)))] in
  let k := mkRiftClass "P" ∅ ∅ None ∅ ∅ (Some (params, body)) in
  let st := mkState [PyHost.global_env] [k] [] 0%nat 0%nat in
  let s1 := snd (constructor_entry ev 0%nat params [VInt 5] st) in
  let s2 := snd (ev body (set_current_env 1%nat s1)) in
  classes st !! 0%nat = Some k
  ∧ constructor_entry ev 0%nat params [VInt 5] st = (Ok 1%nat, s1)
  ∧ ev body (set_current_env 1%nat s1)
    = (Signalled (ReturnSignal (VInt 99)), s2)
  ∧ get_property s2 0%nat "v" = Some (VInt 5)
  ∧ _instantiate_class ev 0%nat [VInt 5] st
    = (Ok (VInstance 0), set_current_env (current_env s1) s2).
Proof.
  intros ev params body k st s1 s2.
  assert (H1 : classes st !! 0%nat = Some k) by reflexivity.
  assert (H2 : constructor_entry ev 0%nat params [VInt 5] st = (Ok 1%nat, s1))
    by (vm_compute; reflexivity).
  assert (H3 : ev body (set_current_env 1%nat s1)
               = (Signalled (ReturnSignal (VInt 99)), s2))
    by (vm_compute; reflexivity).
  assert (H4 : get_property s2 0%nat "v" = Some (VInt 5))
    by (vm_compute; reflexivity).
  split; [exact H1|]. split; [exact H2|]. split; [exact H3|].
  split; [exact H4|].
  destruct (class_call_returns_the_instance ev 0%nat [VInt 5] st k H1)
    as (_ & _ & Hrun).
  exact (Hrun params body 1%nat s1 (VInt 99) s2 eq_refl H2 (or_intror H3)).
Defined.

(** The returns of a constructor are dropped, the writes to [me] are kept. *)
Example constructor_give_is_ignored :
  let program :=
    [ClassDeclaration "P" None
       [Constructor [mkParameter "v" None None false]
          (Block [ExpressionStatement
                    (Assignment (MemberAccess Me "v" false) (Identifier "v")
                                "=");
                  GiveStatement (Some (Literal (LitInt 99)))])];
     VariableDeclaration "let" "p" None
       (Some (Call (Identifier "P") [Literal (LitInt 5)]))] in
  PyHost.result_of 9 (program ++ [ExpressionStatement (Identifier "p")])
  = Ok (VInstance 0)
  ∧ PyHost.result_of 9
      (program ++ [ExpressionStatement (MemberAccess (Identifier "p") "v" false)])
    = Ok (VInt 5).
Proof. split; vm_compute; reflexivity. Qed.

End InstantiationFacts.

(** ** The check statement *)

Section CheckFacts.

Variable ev : node → M value.

Lemma check_cases_rejected v c rest st st1 :
  case_rejected ev c v st st1 →
  check_cases ev v (c :: rest) st = check_cases ev v rest st1.
Proof.
  intros [[b Hm]|(b & g & st' & Hm & Hg & Hgo)]; simpl; unfold bind at 1;
    rewrite Hm; simpl; [done|].
  rewrite Hg. unfold bind at 1. unfold guard_outcome in Hgo. by rewrite Hgo.
Qed.

Lemma check_cases_skip v pre rest st st1 :
  all_rejected ev v pre st st1 →
  check_cases ev v (pre ++ rest) st = check_cases ev v rest st1.
Proof.
  induction 1 as [|c cs st st1 st2 Hc _ IH]; [done|].
  rewrite <- app_comm_cons. by rewrite (check_cases_rejected v c _ st st1).
Qed.

Lemma check_cases_accepted v c rest st b st1 :
  case_accepted ev c v st b st1 →
  check_cases ev v (c :: rest) st = in_check_scope b (ev (c_body c)) st1.
Proof.
  intros (st' & Hm & Hg). simpl. unfold bind at 1. rewrite Hm. simpl.
  destruct (c_guard c) as [g|].
  - unfold bind at 1. unfold guard_outcome in Hg. by rewrite Hg.
  - subst st1. by unfold bind at 1.
Qed.

(** C7.  The scrutinee is evaluated once, to a value [v]; everything after
    works on [v].  The cases are tried in order: when the cases before [c]
    are all passed over (pattern not matching, or guard falsy) and [c] is
    taken, the statement is the body of [c] under the bindings of its
    pattern, whatever cases follow; when every case is passed over the
    result is none.  When the scrutinee does not yield a value no case is
    tried. *)
Theorem check_statement_takes_the_first_match scrutinee cases st :
  (∀ v st0, ev scrutinee st = (Ok v, st0) →
     (∀ pre c post b st1 st2,
        cases = pre ++ c :: post →
        all_rejected ev v pre st0 st1 →
        case_accepted ev c v st1 b st2 →
        _eval_CheckStatement ev scrutinee cases st
        = in_check_scope b (ev (c_body c)) st2)
     ∧ (∀ st1,
          all_rejected ev v cases st0 st1 →
          _eval_CheckStatement ev scrutinee cases st = (Ok VNone, st1)))
  ∧ (∀ o st0, ev scrutinee st = (o, st0) → (∀ v, o ≠ Ok v) →
       ∃ o', _eval_CheckStatement ev scrutinee cases st = (o', st0)
             ∧ ∀ v, o' ≠ Ok v).
Proof.
  split.
  - intros v st0 Hv. unfold _eval_CheckStatement, bind. rewrite Hv. split.
    + intros pre c post b st1 st2 -> Hpre Hc.
      rewrite (check_cases_skip v pre _ st0 st1 Hpre).
      by apply check_cases_accepted.
    + intros st1 Hall.
      rewrite <- (app_nil_r cases).
      by rewrite (check_cases_skip v cases [] st0 st1 Hall).
  - intros o st0 Ho Hne. unfold _eval_CheckStatement, bind. rewrite Ho.
    destruct o; [by destruct (Hne a)|..]; eexists; split; done.
Qed.

End CheckFacts.

Lemma check_statement_takes_the_first_match_witness :
  let ev := evaluate PyHost.host 4 in
  let small :=
    mkCheckCase (BindingPattern "x")
      (Some (BinaryOp "<" (Identifier "x") (Literal (LitInt 5))))
      (Literal (LitStr "small")) in
  let mid :=
    mkCheckCase (BindingPattern "x")
      (Some (BinaryOp "<" (Identifier "x") (Literal (LitInt 10))))
      (Literal (LitStr "mid")) in
  let big := mkCheckCase WildcardPattern None (Literal (LitStr "big")) in
  let st := PyHost.initial_state in
  let st1 := snd (guard_outcome ev [("x", VInt 7)]
                    (BinaryOp "<" (Identifier "x") (Literal (LitInt 5))) st) in
  let st2 := snd (guard_outcome ev [("x", VInt 7)]
                    (BinaryOp "<" (Identifier "x") (Literal (LitInt 10))) st1) in
  ev (Literal (LitInt 7)) st = (Ok (VInt 7), st)
  ∧ all_rejected ev (VInt 7) [small] st st1
  ∧ case_accepted ev mid (VInt 7) st1 [("x", VInt 7)] st2
  ∧ _eval_CheckStatement ev (Literal (LitInt 7)) [small; mid; big] st
    = in_check_scope [("x", VInt 7)] (ev (Literal (LitStr "mid"))) st2
  ∧ fst (_eval_CheckStatement ev (Literal (LitInt 7)) [small; mid; big] st)
    = Ok (VStr "mid").
Proof.
  intros ev small mid big st st1 st2.
  assert (H0 : ev (Literal (LitInt 7)) st = (Ok (VInt 7), st)) by reflexivity.
  assert (H1 : all_rejected ev (VInt 7) [small] st st1).
  { eapply rejected_cons; [|apply rejected_nil]. right.
    exists [("x", VInt 7)], (BinaryOp "<" (Identifier "x") (Literal (LitInt 5))), st.
    split; [reflexivity|]. split; [reflexivity|]. vm_compute. reflexivity. }
  assert (H2 : case_accepted ev mid (VInt 7) st1 [("x", VInt 7)] st2).
  { exists st1. split; [reflexivity|]. vm_compute. reflexivity. }
  split; [exact H0|]. split; [exact H1|]. split; [exact H2|].
  pose proof (proj1 (proj1 (check_statement_takes_the_first_match ev
                (Literal (LitInt 7)) [small; mid; big] st) (VInt 7) st H0)
                [small] mid [big] [("x", VInt 7)] st1 st2 eq_refl H1 H2) as H3.
  split; [exact H3|]. vm_compute. reflexivity.
Defined.

(** The scrutinee's effect happens once, and the cases after the one taken
    are not tried: [n] counts the evaluations of the scrutinee, [m] those
    of the guards. *)
Example check_statement_effects :
  let count (x : string) :=
    Assignment (Identifier x) (BinaryOp "+" (Identifier x) (Literal (LitInt 1)))
               "=" in
  let case_ (limit : Z) (text : string) :=
    mkCheckCase (BindingPattern "x")
      (Some (BinaryOp "<" (count "m") (Literal (LitInt limit))))
      (Literal (LitStr text)) in
  let program :=
    [VariableDeclaration "mut" "n" None (Some (Literal (LitInt 0)));
     VariableDeclaration "mut" "m" None (Some (Literal (LitInt 0)));
     VariableDeclaration "let" "r" None
       (Some (CheckStatement (count "n")
                [case_ 1 "first"; case_ 3 "second"; case_ 4 "third"]))] in
  PyHost.result_of 9 (program ++ [ExpressionStatement (Identifier "r")])
  = Ok (VStr "second")
  ∧ PyHost.result_of 9 (program ++ [ExpressionStatement (Identifier "n")])
    = Ok (VInt 1)
  ∧ PyHost.result_of 9 (program ++ [ExpressionStatement (Identifier "m")])
    = Ok (VInt 2).
Proof. split_and!; vm_compute; reflexivity. Qed.

(** ** Calls of user functions *)

Section CallFacts.

(** What [_call_function] does after the body has completed without a
    signal: when the body is a block that ends in an expression statement,
    that expression is evaluated a second time, in the state the body left,
    and the value of this second evaluation is the result. *)
Lemma call_function_second_evaluation
    (ev : node → M value) func args st env st0 e v st1 w st2 :
  fd_params (declaration func) = [] →
  env_child (closure func) (fd_name (declaration func)) st = (Ok env, st0) →
  last_expression (fd_body (declaration func)) = Some e →
  ev (fd_body (declaration func)) (set_current_env env st0) = (Ok v, st1) →
  ev e st1 = (Ok w, st2) →
  _call_function ev func args st
  = (Ok w, set_current_env (current_env st0) st2).
Proof.
  intros Hp Henv Hlast Hbody He. unfold _call_function, bind at 1.
  rewrite Henv, Hp. simpl. unfold bind at 1. simpl.
  unfold in_env, catch_return, bind. rewrite Hbody, Hlast, He. done.
Qed.

(** C1, the code at the failing input.  [f] ends in the expression
    statement [n = n + 1], with [n] starting at 0.  One call of [f] returns
    2 and leaves [n] at 2: the last expression has been evaluated twice.
    The lambda [g] with the same body, called instead, returns 1 and leaves
    [n] at 1. *)
Theorem auto_return_evaluates_the_last_expression_twice :
  PyHost.result_of 9
    (counter_program ++ [ExpressionStatement (Call (Identifier "f") [])])
  = Ok (VInt 2)
  ∧ PyHost.result_of 9
      (counter_program ++ [ExpressionStatement (Call (Identifier "f") []);
                           ExpressionStatement (Identifier "n")])
    = Ok (VInt 2)
  ∧ PyHost.result_of 9
      (counter_program ++ [ExpressionStatement (Call (Identifier "g") [])])
    = Ok (VInt 1)
  ∧ PyHost.result_of 9
      (counter_program ++ [ExpressionStatement (Call (Identifier "g") []);
                           ExpressionStatement (Identifier "n")])
    = Ok (VInt 1).
Proof. split_and!; vm_compute; reflexivity. Qed.

(** C4, the code at the failing input.  [f] has the parameter [x = d] and
    returns [x]; its captured scope binds [d] to 1; it is called without
    argument from inside [g], whose scope binds [d] to 2.  Declared as a
    function, [f] returns 2: the default was evaluated in the calling
    scope.  Declared as a lambda, it returns 1. *)
Theorem function_default_uses_the_calling_scope :
  let x_d := mkParameter "x" None (Some (Identifier "d")) false in
  PyHost.result_of 12
    (default_program
       (FunctionDeclaration "f" [x_d]
          (Block [GiveStatement (Some (Identifier "x"))])))
  = Ok (VInt 2)
  ∧ PyHost.result_of 12
      (default_program
         (VariableDeclaration "let" "f" None
            (Some (Lambda [x_d] (Identifier "x")))))
    = Ok (VInt 1).
Proof. split; vm_compute; reflexivity. Qed.

(** The rest of the parameter rules, on a function: a missing parameter
    without default is none, arguments beyond the parameters are dropped,
    and a rest parameter takes the remaining arguments. *)
Example parameter_binding_examples :
  let p (x : string) := mkParameter x None None false in
  let lit (z : Z) := Literal (LitInt z) in
  let f (params : list Param) (result : node) :=
    FunctionDeclaration "f" params (Block [GiveStatement (Some result)]) in
  PyHost.result_of 9
    [f [p "a"; p "b"] (Identifier "b");
     ExpressionStatement (Call (Identifier "f") [lit 1])]
  = Ok VNone
  ∧ PyHost.result_of 9
      [f [p "a"] (Identifier "a");
       ExpressionStatement (Call (Identifier "f") [lit 1; lit 2; lit 3])]
    = Ok (VInt 1)
  ∧ PyHost.result_of 9
      [f [p "a"; mkParameter "r" None None true] (Identifier "r");
       ExpressionStatement (Call (Identifier "f") [lit 1; lit 2; lit 3])]
    = Ok (VList [VInt 2; VInt 3]).
Proof. split_and!; vm_compute; reflexivity. Qed.

End CallFacts.

(** ** Pipelines *)

Section PipelineFacts.

Variable host : host_interface.
Variable ev : node → M value.
Variable cb : value → list value → M value.

(** What a stage [m(args)] does: with a callable attribute [m] of the host
    object it is called on the arguments alone. *)
Lemma pipeline_stage_method piped m arguments args st st1 a :
  eval_each ev arguments st = (Ok args, st1) →
  host_getattr host piped m = AttrCallable a →
  pipeline_stage host ev cb piped (Call (Identifier m) arguments) st
  = _call host ev cb a args st1.
Proof.
  intros Hargs Hattr. unfold pipeline_stage, bind at 1. rewrite Hargs.
  unfold bind at 1, _try_get_method. by rewrite Hattr.
Qed.

(** Without one, [m] is looked up in scope and called with the piped value
    appended as the last argument. *)
Lemma pipeline_stage_function piped m arguments args st st1 func st2 :
  eval_each ev arguments st = (Ok args, st1) →
  host_getattr host piped m = AttrAbsent →
  (∀ entries, piped ≠ VMap entries) →
  ev (Identifier m) st1 = (Ok func, st2) →
  (∀ e st3, _call host ev cb func (args ++ [piped]) st2 = (Raised e, st3) →
            is_NameError e = false) →
  pipeline_stage host ev cb piped (Call (Identifier m) arguments) st
  = _call host ev cb func (args ++ [piped]) st2.
Proof.
  intros Hargs Hattr Hmap Hf Hne. unfold pipeline_stage, bind at 1.
  rewrite Hargs. unfold bind at 1, _try_get_method. rewrite Hattr.
  assert (Hnone : (match piped with
                   | VMap m0 =>
                       match dict_find m0 (VStr m) with
                       | Some v => if py_callable v then ret (Some v)
                                   else ret None
                       | None => ret None
                       end
                   | _ => ret None
                   end) st1 = (Ok None, st1)).
  { destruct piped; try done. by destruct (Hmap entries). }
  rewrite Hnone. unfold bind at 1. rewrite Hf.
  destruct (_call host ev cb func (args ++ [piped]) st2) as [o st3] eqn:Hc.
  destruct o; try done. by rewrite (Hne e st3).
Qed.

(** When neither lookup succeeds the stage fails with a Name error. *)
Lemma pipeline_stage_unknown piped m arguments args st st1 e st2 :
  eval_each ev arguments st = (Ok args, st1) →
  host_getattr host piped m = AttrAbsent →
  (∀ entries, piped ≠ VMap entries) →
  ev (Identifier m) st1 = (Raised e, st2) →
  is_NameError e = true →
  ∃ msg,
    pipeline_stage host ev cb piped (Call (Identifier m) arguments) st
    = (raise NameError msg, st2).
Proof.
  intros Hargs Hattr Hmap Hf Hne. unfold pipeline_stage, bind at 1.
  rewrite Hargs. unfold bind at 1, _try_get_method. rewrite Hattr.
  destruct piped; try (unfold ret, bind; rewrite Hf, Hne; by eexists).
  by destruct (Hmap entries).
Qed.

End PipelineFacts.

(** C2, the code at the failing input.  The class [A] has the method [m].
    The member call [A().m()] returns 1.  The pipeline [A() -> m()] fails
    with a Name error: the probe for a method of the piped value asks the
    host object for an attribute [m], and the methods of an instance are
    not attributes of the host object.  Likewise the accessor [push] of a
    sequence is not an attribute of the host's list. *)
Theorem pipeline_misses_instance_methods :
  PyHost.result_of 9
    (class_with_method
     ++ [ExpressionStatement
           (Call (MemberAccess (Call (Identifier "A") []) "m" false) [])])
  = Ok (VInt 1)
  ∧ (∃ msg,
       PyHost.result_of 9
         (class_with_method
          ++ [ExpressionStatement
                (Pipeline (Call (Identifier "A") [])
                          [Call (Identifier "m") []] false)])
       = raise NameError msg)
  ∧ PyHost.getattr (VInstance 0) "m" = AttrAbsent
  ∧ PyHost.getattr (VList [VInt 1; VInt 2]) "push" = AttrAbsent
  ∧ fst (_get_list_method [VInt 1; VInt 2] "push" PyHost.initial_state)
    = Ok (VHostMethod (VList [VInt 1; VInt 2]) "append").
Proof.
  split_and!; try (vm_compute; reflexivity).
  eexists. vm_compute. reflexivity.
Qed.

(** The two resolutions that work, from the scenario of the specification:
    [map] is no attribute of the host's list and is called as
    [map(double, piped)]; [sum] likewise. *)
Example pipeline_scenario :
  PyHost.result_of 12
    [FunctionDeclaration "double" [mkParameter "x" None None false]
       (Block [GiveStatement
                 (Some (BinaryOp "*" (Identifier "x") (Literal (LitInt 2))))]);
     ExpressionStatement
       (Pipeline (ListLiteral [Literal (LitInt 1); Literal (LitInt 2);
                               Literal (LitInt 3)])
                 [Call (Identifier "map") [Identifier "double"];
                  Identifier "sum"] false)]
  = Ok (VInt 12).
Proof. vm_compute. reflexivity. Qed.

(** * Further properties of the code *)

(** ** Sequencing *)

Section MonadFacts.

Lemma bind_step {A B : Type} (m : M A) (k : A → M B) st a st' :
  m st = (Ok a, st') → bind m k st = k a st'.
Proof. intros H. unfold bind. by rewrite H. Qed.

Lemma bind_assoc {A B C : Type} (m : M A) (f : A → M B) (g : B → M C) st :
  bind (bind m f) g st = bind m (fun a => bind (f a) g) st.
Proof. unfold bind. by destruct (m st) as [[a|s|e|e|w] st']. Qed.

Lemma bind_ext {A B : Type} (m : M A) (k k' : A → M B) st :
  (∀ a st', k a st' = k' a st') → bind m k st = bind m k' st.
Proof.
  intros H. unfold bind. by destruct (m st) as [[a|s|e|e|w] st'].
Qed.

End MonadFacts.

(** ** Lookups, definitions and writes in the scope chain *)

Section ScopeChainFacts.

Import Environment.

Lemma get_walk_S n (σ : store) a x :
  get_walk (S n) σ a x
  = match σ !! a with
    | None => Abort OutOfFuel
    | Some e =>
      match _variables e !! x with
      | Some v => Ok v
      | None =>
        match parent e with
        | Some p => get_walk n σ p x
        | None => raise NameError ("Undefined variable '" +:+ x +:+ "'")
        end
      end
    end.
Proof. reflexivity. Qed.

(** On a well-formed store the result of a walk does not depend on the
    number of steps allowed, once it exceeds the address. *)
Lemma get_walk_steps n m (σ : store) a x :
  wf_store σ → (a < n)%nat → (a < m)%nat →
  get_walk n σ a x = get_walk m σ a x.
Proof.
  intros Hwf. revert m a.
  induction n as [|n IH]; intros [|m] a Hn Hm; try lia. rewrite !get_walk_S.
  destruct (σ !! a) as [e|] eqn:He; [|done].
  destruct (_variables e !! x); [done|].
  destruct (parent e) as [p|] eqn:Hp; [|done].
  pose proof (Hwf a e p He Hp). apply IH; lia.
Qed.

(** Scopes appended to a well-formed store are not seen from the older
    ones. *)
Lemma get_walk_app n (σ τ : store) a x :
  wf_store σ → (a < List.length σ)%nat →
  get_walk n (σ ++ τ) a x = get_walk n σ a x.
Proof.
  intros Hwf. revert a. induction n as [|n IH]; intros a Ha; [done|].
  rewrite !get_walk_S, lookup_app_l by done.
  destruct (σ !! a) as [e|] eqn:He; [|done].
  destruct (_variables e !! x); [done|].
  destruct (parent e) as [p|] eqn:Hp; [|done].
  pose proof (Hwf a e p He Hp). apply IH; lia.
Qed.

(** A definition in a scope is not seen from the older ones. *)
Lemma get_walk_define_younger n (σ : store) a c x v mutable constant hint y :
  wf_store σ → (a < c)%nat →
  get_walk n (define σ c x v mutable constant hint) a y = get_walk n σ a y.
Proof.
  intros Hwf. revert a. induction n as [|n IH]; intros a Hc; [done|].
  rewrite !get_walk_S. unfold define at 1.
  rewrite list_lookup_alter_ne by lia.
  destruct (σ !! a) as [e|] eqn:He; [|done].
  destruct (_variables e !! y); [done|].
  destruct (parent e) as [p|] eqn:Hp; [|done].
  pose proof (Hwf a e p He Hp). apply IH; lia.
Qed.

(** A definition of another name changes no lookup. *)
Lemma get_walk_define_other n (σ : store) c x v mutable constant hint d y :
  y ≠ x →
  get_walk n (define σ c x v mutable constant hint) d y = get_walk n σ d y.
Proof.
  intros Hy. revert d. induction n as [|n IH]; intros d; [done|].
  rewrite !get_walk_S. unfold define at 1.
  destruct (decide (d = c)) as [->|Hne].
  - rewrite list_lookup_alter_eq. destruct (σ !! c) as [e|]; [|done]. simpl.
    rewrite lookup_insert_ne by done.
    destruct (_variables e !! y); [done|]. destruct (parent e); [apply IH|done].
  - rewrite list_lookup_alter_ne by done.
    destruct (σ !! d) as [e|]; [|done].
    destruct (_variables e !! y); [done|].
    destruct (parent e); [apply IH|done].
Qed.

(** [get] returns the value held by the nearest binding. *)
Lemma get_walk_resolve n (σ : store) a x b :
  resolve_walk n σ a x = Some b →
  ∃ e w, σ !! b = Some e ∧ _variables e !! x = Some w
         ∧ get_walk n σ a x = Ok w.
Proof.
  revert a. induction n as [|n IH]; intros a; simpl; [done|].
  destruct (σ !! a) as [e|] eqn:He; [|done].
  destruct (_variables e !! x) as [w|] eqn:Hx.
  - intros [= <-]. by exists e, w.
  - destruct (parent e); [apply IH|done].
Qed.

(** A lookup returns a value or fails; it raises no signal. *)
Lemma get_no_signal (σ : store) a x s : get σ a x ≠ Signalled s.
Proof.
  unfold get. generalize (S a) as n. intros n. revert a.
  induction n as [|n IH]; intros a; [done|]. rewrite get_walk_S.
  destruct (σ !! a) as [e|]; [|done].
  destruct (_variables e !! x); [done|].
  destruct (parent e); [apply IH|done].
Qed.

Lemma get_define_same (σ : store) a x v mutable constant hint :
  (a < List.length σ)%nat →
  get (define σ a x v mutable constant hint) a x = Ok v.
Proof.
  intros Ha. destruct (lookup_lt_is_Some_2 σ a Ha) as [e He].
  unfold get, define. rewrite get_walk_S.
  rewrite list_lookup_alter_eq, He. simpl. by rewrite lookup_insert_eq.
Qed.

Lemma child_get (σ : store) a nm x :
  wf_store σ → (a < List.length σ)%nat →
  get (snd (child σ a nm)) (fst (child σ a nm)) x = get σ a x.
Proof.
  intros Hwf Ha. unfold child, get. cbn [fst snd].
  rewrite (get_walk_S (List.length σ)).
  rewrite lookup_app_r by lia. rewrite Nat.sub_diag.
  cbn [lookup list_lookup init parent _variables].
  rewrite lookup_empty.
  rewrite get_walk_app by done.
  apply get_walk_steps; [done|lia|lia].
Qed.

Lemma wf_store_single e : parent e = None → wf_store [e].
Proof.
  intros He a e' p Ha Hp. destruct a as [|a]; simpl in Ha; [|done].
  by simplify_eq.
Qed.

Lemma wf_store_snoc (σ : store) e :
  wf_store σ →
  (∀ p, parent e = Some p → (p < List.length σ)%nat) →
  wf_store (σ ++ [e]).
Proof.
  intros Hwf He b eb p Hb Hp.
  destruct (decide (b < List.length σ)%nat) as [Hlt|Hge].
  - rewrite lookup_app_l in Hb by done. by eapply Hwf.
  - rewrite lookup_app_r in Hb by lia.
    destruct (b - List.length σ)%nat as [|k] eqn:Hk; [|by destruct k].
    simpl in Hb. simplify_eq. pose proof (He p Hp). lia.
Qed.

(** The global scope with one child scope, used below. *)
Lemma wf_store_global_child nm : wf_store (snd (child [global] 0%nat nm)).
Proof.
  apply child_keeps_wf; [by apply wf_store_single|simpl; lia].
Qed.

(** X1.  Define and look up: after [define] of [x] in an existing scope,
    whatever [x] was bound to there before (a constant included), [get] of
    [x] returns the new value, from that scope and from every scope whose
    nearest binding of [x] it is. *)
Theorem define_then_get (σ : store) a x v mutable constant hint d :
  (a < List.length σ)%nat →
  let σ' := define σ a x v mutable constant hint in
  resolve σ' d x = Some a →
  get σ' a x = Ok v ∧ get σ' d x = Ok v.
Proof.
  intros Ha σ' Hres. split; [by apply get_define_same|].
  destruct (get_walk_resolve _ _ _ _ _ Hres) as (e' & w & He' & Hw & Hget).
  unfold get. rewrite Hget. f_equal.
  destruct (lookup_lt_is_Some_2 σ a Ha) as [e He].
  unfold σ', define in He'. rewrite list_lookup_alter_eq, He in He'.
  simpl in He'. simplify_eq. simpl in Hw.
  rewrite lookup_insert_eq in Hw. by simplify_eq.
Qed.

Lemma define_then_get_witness :
  let σ := snd (child [global] 0%nat "f") in
  let σ' := define σ 0%nat "yes" (VInt 2) false true None in
  (0 < List.length σ)%nat
  ∧ resolve σ' 1%nat "yes" = Some 0%nat
  ∧ get σ' 0%nat "yes" = Ok (VInt 2) ∧ get σ' 1%nat "yes" = Ok (VInt 2).
Proof.
  intros σ σ'.
  assert (H1 : (0 < List.length σ)%nat) by (simpl; lia).
  assert (H2 : resolve σ' 1%nat "yes" = Some 0%nat)
    by (vm_compute; reflexivity).
  split; [exact H1|]. split; [exact H2|].
  exact (define_then_get σ 0%nat "yes" (VInt 2) false true None 1%nat H1 H2).
Defined.

(** X2.  A scope just created by [child] holds no binding of its own: every
    name is looked up in it exactly as in its parent. *)
Theorem child_scope_sees_the_parent_bindings (σ : store) a nm x :
  wf_store σ → (a < List.length σ)%nat →
  get (snd (child σ a nm)) (fst (child σ a nm)) x = get σ a x.
Proof. apply child_get. Qed.

Lemma child_scope_sees_the_parent_bindings_witness :
  wf_store [global]
  ∧ (0 < List.length [global])%nat
  ∧ get (snd (child [global] 0%nat "f")) (fst (child [global] 0%nat "f")) "yes"
    = get [global] 0%nat "yes".
Proof.
  assert (H1 : wf_store [global]) by (apply wf_store_single; reflexivity).
  assert (H2 : (0 < List.length [global])%nat) by (simpl; lia).
  split; [exact H1|]. split; [exact H2|].
  exact (child_scope_sees_the_parent_bindings [global] 0%nat "f" "yes" H1 H2).
Defined.

(** X3.  Shadowing: a definition in a scope changes nothing of what an
    older scope sees, for any name; the enclosing scopes of a scope are all
    older than it. *)
Theorem definition_is_invisible_to_older_scopes
    (σ : store) a c x v mutable constant hint y :
  wf_store σ → (a < c)%nat →
  get (define σ c x v mutable constant hint) a y = get σ a y.
Proof. intros Hwf Hc. by apply get_walk_define_younger. Qed.

Lemma definition_is_invisible_to_older_scopes_witness :
  let σ := snd (child [global] 0%nat "f") in
  wf_store σ
  ∧ (0 < 1)%nat
  ∧ get (define σ 1%nat "yes" (VInt 5) true false None) 0%nat "yes"
    = get σ 0%nat "yes".
Proof.
  intros σ.
  assert (H1 : wf_store σ) by apply wf_store_global_child.
  assert (H2 : (0 < 1)%nat) by lia.
  split; [exact H1|]. split; [exact H2|].
  exact (definition_is_invisible_to_older_scopes σ 0%nat 1%nat "yes" (VInt 5)
           true false None "yes" H1 H2).
Defined.

Lemma set_walk_store n (σ : store) a x v :
  snd (set_walk n σ a x v) = σ
  ∨ ∃ b e, σ !! b = Some e ∧ is_Some (_variables e !! x)
           ∧ snd (set_walk n σ a x v) = <[b := written e x v]> σ.
Proof.
  revert a. induction n as [|n IH]; intros a; simpl; [by left|].
  destruct (σ !! a) as [e|] eqn:He; [|by left].
  destruct (_variables e !! x) eqn:Hx.
  - destruct (decide (x ∈ _constants e)); [by left|].
    destruct (decide (x ∈ _immutables e)); [by left|].
    right. exists a, e. rewrite Hx. eauto.
  - destruct (parent e); [apply IH|by left].
Qed.

Lemma set_walk_failure n (σ : store) a x v :
  fst (set_walk n σ a x v) ≠ Ok tt → snd (set_walk n σ a x v) = σ.
Proof.
  revert a. induction n as [|n IH]; intros a; simpl; [done|].
  destruct (σ !! a) as [e|] eqn:He; [|done].
  destruct (_variables e !! x) eqn:Hx.
  - destruct (decide (x ∈ _constants e)); [done|].
    by destruct (decide (x ∈ _immutables e)).
  - destruct (parent e); [apply IH|done].
Qed.

Lemma get_walk_after_set n (σ : store) a x v σ' :
  set_walk n σ a x v = (Ok tt, σ') → get_walk n σ' a x = Ok v.
Proof.
  revert a. induction n as [|n IH]; intros a; simpl; [done|].
  destruct (σ !! a) as [e|] eqn:He; [|done].
  destruct (_variables e !! x) eqn:Hx.
  - destruct (decide (x ∈ _constants e)); [done|].
    destruct (decide (x ∈ _immutables e)); [done|].
    intros [= <-]. rewrite list_lookup_insert_eq by (by eapply lookup_lt_Some).
    simpl. by rewrite lookup_insert_eq.
  - destruct (parent e) as [p|] eqn:Hp; [|done]. intros Hset.
    assert (Hsame : σ' !! a = Some e).
    { destruct (set_walk_store n σ p x v) as [Hs|(b & eb & Hb & Hsome & Hs)];
        rewrite Hset in Hs; simpl in Hs; subst σ'; [done|].
      rewrite list_lookup_insert_ne; [done|].
      intros ->. rewrite He in Hb. simplify_eq.
      rewrite Hx in Hsome. by destruct Hsome. }
    rewrite Hsame, Hx, Hp. by apply IH.
Qed.

Lemma get_walk_written m (σ : store) b e x v d y :
  σ !! b = Some e → y ≠ x →
  get_walk m (<[b := written e x v]> σ) d y = get_walk m σ d y.
Proof.
  intros Hb Hy. revert d. induction m as [|m IH]; intros d; [done|].
  rewrite !get_walk_S.
  destruct (decide (d = b)) as [->|Hne].
  - rewrite list_lookup_insert_eq by (by eapply lookup_lt_Some).
    rewrite Hb. simpl. rewrite lookup_insert_ne by done.
    destruct (_variables e !! y); [done|]. destruct (parent e); [apply IH|done].
  - rewrite list_lookup_insert_ne by done.
    destruct (σ !! d) as [ed|]; [|done].
    destruct (_variables ed !! y); [done|].
    destruct (parent ed); [apply IH|done].
Qed.

(** X4.  Write and look up: after a [set] of [x] that succeeds, [get] of
    [x] from the same scope returns the value written, and the lookup of
    every other name, from every scope, is as before. *)
Theorem set_then_get (σ : store) a x v σ' :
  Environment.set σ a x v = (Ok tt, σ') →
  get σ' a x = Ok v ∧ ∀ d y, y ≠ x → get σ' d y = get σ d y.
Proof.
  intros Hset. split; [by eapply get_walk_after_set|].
  intros d y Hy. unfold get.
  destruct (set_walk_store (S a) σ a x v) as [Hs|(b & e & Hb & _ & Hs)];
    unfold Environment.set in Hset; rewrite Hset in Hs; simpl in Hs;
    subst σ'; [done|].
  by apply get_walk_written.
Qed.

Lemma set_then_get_witness :
  let σ := define (snd (child [global] 0%nat "f")) 0%nat "n" (VInt 0)
                  true false None in
  let σ' := snd (Environment.set σ 1%nat "n" (VInt 1)) in
  Environment.set σ 1%nat "n" (VInt 1) = (Ok tt, σ')
  ∧ get σ' 1%nat "n" = Ok (VInt 1)
  ∧ ∀ d y, y ≠ "n" → get σ' d y = get σ d y.
Proof.
  intros σ σ'.
  assert (H1 : Environment.set σ 1%nat "n" (VInt 1) = (Ok tt, σ'))
    by reflexivity.
  split; [exact H1|].
  exact (set_then_get σ 1%nat "n" (VInt 1) σ' H1).
Defined.

(** X5.  A [set] that does not succeed, for an unbound name or for an
    immutable binding, leaves every scope as it was. *)
Theorem failed_set_changes_nothing (σ : store) a x v :
  fst (Environment.set σ a x v) ≠ Ok tt → snd (Environment.set σ a x v) = σ.
Proof. apply set_walk_failure. Qed.

Lemma failed_set_changes_nothing_witness :
  fst (Environment.set [global] 0%nat "undefined" (VInt 1)) ≠ Ok tt
  ∧ snd (Environment.set [global] 0%nat "undefined" (VInt 1)) = [global].
Proof.
  assert (H1 : fst (Environment.set [global] 0%nat "undefined" (VInt 1))
               ≠ Ok tt) by (vm_compute; discriminate).
  split; [exact H1|].
  exact (failed_set_changes_nothing [global] 0%nat "undefined" (VInt 1) H1).
Defined.

Lemma has_walk_get_walk n (σ : store) a x :
  match get_walk n σ a x with
  | Ok _ => has_walk n σ a x false = Ok true
  | Raised e =>
      has_walk n σ a x false = Ok false
      ∧ e = mkRiftError NameError ("Undefined variable '" +:+ x +:+ "'")
  | Abort w => has_walk n σ a x false = Abort w
  | _ => False
  end.
Proof.
  revert a. induction n as [|n IH]; intros a; simpl; [done|].
  destruct (σ !! a) as [e|]; [|done].
  destruct (_variables e !! x); [done|].
  destruct (parent e) as [p|]; [apply IH|done].
Qed.

(** X6.  [has] answers for [get]: it is true exactly when [get] returns a
    value, and false exactly when [get] fails with a Name error. *)
Theorem has_agrees_with_get (σ : store) a x :
  (has σ a x false = Ok true ↔ ∃ v, get σ a x = Ok v)
  ∧ (has σ a x false = Ok false
     ↔ get σ a x = raise NameError ("Undefined variable '" +:+ x +:+ "'")).
Proof.
  unfold has, get. pose proof (has_walk_get_walk (S a) σ a x) as H.
  destruct (get_walk (S a) σ a x) as [w|s|e|e|w] eqn:Hg; try done.
  - rewrite H. split; split; intros Hh; try done. by exists w.
  - destruct H as [-> ->]. split; split; intros Hh; try done.
    by destruct Hh as [w [=]].
  - rewrite H. split; split; intros Hh; try done.
    by destruct Hh as [w' [=]].
Qed.

Lemma define_keeps_constants_immutable (σ : store) a x v mutable constant hint :
  constants_are_immutable σ →
  constants_are_immutable (define σ a x v mutable constant hint).
Proof.
  intros Hinv b e Hb. unfold define in Hb.
  destruct (decide (a = b)) as [->|Hne].
  - rewrite list_lookup_alter_eq in Hb.
    destruct (σ !! b) as [e0|] eqn:He0; [|done]. simpl in Hb.
    simplify_eq. pose proof (Hinv b e0 He0) as Hsub.
    unfold define_in. simpl.
    destruct constant; [by apply union_mono_l|].
    destruct mutable; [done|]. by apply union_subseteq_r'.
  - rewrite list_lookup_alter_ne in Hb by done. by eapply Hinv.
Qed.

Lemma apply_op_keeps_constants_immutable (σ : store) o :
  constants_are_immutable σ → constants_are_immutable (apply_op σ o).
Proof.
  intros Hinv. destruct o as [a x v m c h|a x v|a nm]; unfold apply_op.
  - by apply define_keeps_constants_immutable.
  - unfold Environment.set.
    destruct (set_walk_store (S a) σ a x v) as [->|(b & e & Hb & _ & ->)];
      [done|].
    intros d ed Hd. destruct (decide (d = b)) as [->|Hne].
    + rewrite list_lookup_insert_eq in Hd by (by eapply lookup_lt_Some).
      simplify_eq. simpl. by eapply Hinv.
    + rewrite list_lookup_insert_ne in Hd by done. by eapply Hinv.
  - intros d ed Hd. unfold child in Hd. simpl in Hd.
    destruct (decide (d < List.length σ)%nat) as [Hlt|Hge].
    + rewrite lookup_app_l in Hd by done. by eapply Hinv.
    + rewrite lookup_app_r in Hd by lia.
      destruct (d - List.length σ)%nat as [|k]; [|by destruct k].
      simpl in Hd. by simplify_eq.
Qed.

(** The stores built from the global scope keep their constants among
    their immutable names. *)
Lemma reachable_constants_immutable ops :
  constants_are_immutable (apply_ops ops [global]).
Proof.
  unfold apply_ops.
  assert (H0 : constants_are_immutable [global]).
  { intros a e Ha. destruct a as [|a]; simpl in Ha; [|done].
    simplify_eq. unfold global, define_in, init. simpl. set_solver. }
  revert H0. generalize [global].
  induction ops as [|o ops IH]; intros σ Hσ; simpl; [done|].
  apply IH. by apply apply_op_keeps_constants_immutable.
Qed.

Lemma is_immutable_walk_after_set n (σ : store) a x v e σ' :
  constants_are_immutable σ →
  set_walk n σ a x v = (Raised e, σ') → err_class e = AssignmentError →
  is_immutable_walk n σ a x = Ok true.
Proof.
  intros Hinv. revert a. induction n as [|n IH]; intros a; simpl; [done|].
  destruct (σ !! a) as [ea|] eqn:He; [|done].
  destruct (decide (x ∈ _immutables ea)) as [|Hni]; [done|].
  destruct (_variables ea !! x) eqn:Hx.
  - destruct (decide (x ∈ _constants ea)) as [Hc|].
    + by apply (Hinv a ea He) in Hc.
    + done.
  - destruct (parent ea); [apply IH|]. by intros [= <- _] [=].
Qed.

(** X7.  On a store whose constants are among its immutable names, a [set]
    fails with an Assign error only for a name that [is_immutable]
    reports. *)
Theorem assign_error_only_for_immutable_names (σ : store) a x v e σ' :
  constants_are_immutable σ →
  Environment.set σ a x v = (Raised e, σ') → err_class e = AssignmentError →
  is_immutable σ a x = Ok true.
Proof. apply is_immutable_walk_after_set. Qed.

Lemma assign_error_only_for_immutable_names_witness :
  let σ := apply_ops [OpChild 0 "f"] [global] in
  let e := mkRiftError AssignmentError "Cannot reassign constant 'yes'" in
  constants_are_immutable σ
  ∧ Environment.set σ 1%nat "yes" (VInt 1) = (Raised e, σ)
  ∧ err_class e = AssignmentError
  ∧ is_immutable σ 1%nat "yes" = Ok true.
Proof.
  intros σ e.
  assert (H1 : constants_are_immutable σ)
    by apply reachable_constants_immutable.
  assert (H2 : Environment.set σ 1%nat "yes" (VInt 1) = (Raised e, σ))
    by reflexivity.
  assert (H3 : err_class e = AssignmentError) by reflexivity.
  split; [exact H1|]. split; [exact H2|]. split; [exact H3|].
  exact (assign_error_only_for_immutable_names σ 1%nat "yes" (VInt 1) e σ
           H1 H2 H3).
Defined.

Lemma is_constant_walk_immutable n (σ : store) a x :
  constants_are_immutable σ →
  is_constant_walk n σ a x = Ok true → is_immutable_walk n σ a x = Ok true.
Proof.
  intros Hinv. revert a. induction n as [|n IH]; intros a; simpl; [done|].
  destruct (σ !! a) as [e|] eqn:He; [|done].
  destruct (decide (x ∈ _immutables e)) as [|Hni]; [done|].
  destruct (decide (x ∈ _constants e)) as [Hc|].
  - by apply (Hinv a e He) in Hc.
  - destruct (parent e); [apply IH|done].
Qed.

(** X8.  Constants are immutable: in every store that definitions, writes
    and scope creations build from the global scope, a name that
    [is_constant] reports is reported by [is_immutable]. *)
Theorem constants_are_reported_immutable ops a x :
  let σ := apply_ops ops [global] in
  is_constant σ a x = Ok true → is_immutable σ a x = Ok true.
Proof.
  intros σ. apply is_constant_walk_immutable, reachable_constants_immutable.
Qed.

Lemma constants_are_reported_immutable_witness :
  let ops := [OpChild 0 "f"; OpDefine 1 "k" (VInt 1) true true None;
              OpChild 1 "g"] in
  let σ := apply_ops ops [global] in
  is_constant σ 2%nat "k" = Ok true ∧ is_immutable σ 2%nat "k" = Ok true.
Proof.
  intros ops σ.
  assert (H1 : is_constant σ 2%nat "k" = Ok true) by (vm_compute; reflexivity).
  split; [exact H1|].
  exact (constants_are_reported_immutable ops 2%nat "k" H1).
Defined.

(** X9.  [copy] takes a snapshot of a scope: the copy answers every lookup
    as the original does at that moment, and a later definition in either
    of the two is not seen from the other. *)
Theorem copy_is_a_snapshot (σ : store) a b σ' x v mutable constant hint y :
  wf_store σ →
  copy σ a = (Ok b, σ') →
  get σ' b y = get σ a y
  ∧ get (define σ' a x v mutable constant hint) b y = get σ a y
  ∧ get (define σ' b x v mutable constant hint) a y = get σ a y.
Proof.
  intros Hwf. unfold copy.
  destruct (σ !! a) as [e|] eqn:He; [|done]. intros [= <- <-].
  pose proof (lookup_lt_Some _ _ _ He) as Ha.
  set (e' := mk (parent e) (name e) (_variables e) (_immutables e)
                (_constants e) (_types e)).
  assert (Hwf' : wf_store (σ ++ [e'])).
  { apply wf_store_snoc; [done|]. simpl. intros p Hp.
    pose proof (Hwf a e p He Hp). lia. }
  assert (Hb : (σ ++ [e']) !! List.length σ = Some e').
  { rewrite lookup_app_r by lia. by rewrite Nat.sub_diag. }
  assert (Hcopy : ∀ τ, τ !! List.length σ = Some e' →
            (∀ p, (p < a)%nat → get_walk (List.length σ) τ p y
                                = get_walk (List.length σ) σ p y) →
            get τ (List.length σ) y = get σ a y).
  { intros τ Hτ Hold. unfold get.
    rewrite (get_walk_S (List.length σ)), (get_walk_S a), Hτ, He.
    change (_variables e') with (_variables e).
    change (parent e') with (parent e).
    destruct (_variables e !! y); [done|].
    destruct (parent e) as [p|] eqn:Hp; [|done].
    pose proof (Hwf a e p He Hp) as Hpa. rewrite Hold by done.
    apply get_walk_steps; [done|lia|lia]. }
  split; [|split].
  - apply Hcopy; [done|]. intros p Hp. apply get_walk_app; [done|lia].
  - apply Hcopy.
    + unfold define. by rewrite list_lookup_alter_ne by lia.
    + intros p Hp. rewrite get_walk_define_younger by done.
      apply get_walk_app; [done|lia].
  - unfold get. rewrite get_walk_define_younger by done.
    by apply get_walk_app.
Qed.

Lemma copy_is_a_snapshot_witness :
  let σ := define (snd (child [global] 0%nat "f")) 1%nat "x" (VInt 1)
                  true false None in
  let σ' := snd (copy σ 1%nat) in
  wf_store σ
  ∧ copy σ 1%nat = (Ok 2%nat, σ')
  ∧ get σ' 2%nat "x" = get σ 1%nat "x"
  ∧ get (define σ' 1%nat "x" (VInt 5) true false None) 2%nat "x"
    = get σ 1%nat "x"
  ∧ get (define σ' 2%nat "x" (VInt 5) true false None) 1%nat "x"
    = get σ 1%nat "x".
Proof.
  intros σ σ'.
  assert (H1 : wf_store σ).
  { intros a e p Ha Hp. destruct a as [|[|a]]; simpl in Ha; try done.
    - by simplify_eq.
    - simplify_eq. simpl in Hp. simplify_eq. lia. }
  assert (H2 : copy σ 1%nat = (Ok 2%nat, σ')) by reflexivity.
  split; [exact H1|]. split; [exact H2|].
  exact (copy_is_a_snapshot σ 1%nat 2%nat σ' "x" (VInt 5) true false None "x"
           H1 H2).
Defined.

Lemma get_walk_insert_younger n (σ : store) a c e y :
  wf_store σ → (a < c)%nat →
  get_walk n (<[c := e]> σ) a y = get_walk n σ a y.
Proof.
  intros Hwf. revert a. induction n as [|n IH]; intros a Hc; [done|].
  rewrite !get_walk_S. rewrite list_lookup_insert_ne by lia.
  destruct (σ !! a) as [e0|] eqn:He; [|done].
  destruct (_variables e0 !! y); [done|].
  destruct (parent e0) as [p|] eqn:Hp; [|done].
  pose proof (Hwf a e0 p He Hp). apply IH; lia.
Qed.

(** X27.  [assign_at] writes the scope itself and never an enclosing one:
    where the scope marks the name neither constant nor immutable it
    succeeds, also for a name that only an enclosing scope binds; a lookup
    from the scope then finds the value, and the older scopes, the
    enclosing ones among them, see what they saw before. *)
Theorem assign_at_writes_its_own_scope (σ : store) a e x v :
  wf_store σ → σ !! a = Some e →
  x ∉ _constants e → x ∉ _immutables e →
  fst (assign_at σ a x v) = Ok tt
  ∧ get (snd (assign_at σ a x v)) a x = Ok v
  ∧ ∀ b y, (b < a)%nat → get (snd (assign_at σ a x v)) b y = get σ b y.
Proof.
  intros Hwf He Hc Hi. unfold assign_at. rewrite He.
  destruct (decide (x ∈ _constants e)); [done|].
  destruct (decide (x ∈ _immutables e)); [done|].
  cbn [fst snd]. split; [done|]. split.
  - unfold get. rewrite get_walk_S.
    rewrite list_lookup_insert_eq by (by eapply lookup_lt_Some).
    cbn [_variables]. by rewrite lookup_insert_eq.
  - intros b y Hb. unfold get. by apply get_walk_insert_younger.
Qed.

Lemma assign_at_writes_its_own_scope_witness :
  let σ := snd (child (define [global] 0%nat "x" (VInt 1) false false None)
                      0%nat "f") in
  let e := init (Some 0%nat) "f" in
  wf_store σ
  ∧ σ !! 1%nat = Some e
  ∧ ("x" ∉ _constants e)
  ∧ ("x" ∉ _immutables e)
  ∧ fst (assign_at σ 1%nat "x" (VInt 2)) = Ok tt
  ∧ get (snd (assign_at σ 1%nat "x" (VInt 2))) 1%nat "x" = Ok (VInt 2)
  ∧ get (snd (assign_at σ 1%nat "x" (VInt 2))) 0%nat "x" = Ok (VInt 1).
Proof.
  intros σ e.
  assert (H1 : wf_store σ).
  { intros a e0 p Ha Hp. destruct a as [|[|a]]; simpl in Ha; try done.
    - by simplify_eq.
    - simplify_eq. simpl in Hp. simplify_eq. lia. }
  assert (H2 : σ !! 1%nat = Some e) by reflexivity.
  assert (H3 : "x" ∉ _constants e) by (simpl; set_solver).
  assert (H4 : "x" ∉ _immutables e) by (simpl; set_solver).
  split; [exact H1|]. split; [exact H2|]. split; [exact H3|].
  split; [exact H4|].
  destruct (assign_at_writes_its_own_scope σ 1%nat e "x" (VInt 2) H1 H2 H3 H4)
    as (Ha & Hb & Hc).
  split; [exact Ha|]. split; [exact Hb|].
  rewrite (Hc 0%nat "x") by lia. reflexivity.
Defined.

End ScopeChainFacts.
(** ** The current scope is restored *)

Section ScopeDiscipline.

Lemma keeps_ret {A : Type} (a : A) : keeps_scope (ret a).
Proof. done. Qed.

Lemma keeps_lift {A : Type} (o : outcome A) : keeps_scope (lift o).
Proof. done. Qed.

Lemma keeps_bind {A B : Type} (m : M A) (k : A → M B) :
  keeps_scope m → (∀ a, keeps_scope (k a)) → keeps_scope (bind m k).
Proof.
  intros Hm Hk st. unfold bind. specialize (Hm st).
  destruct (m st) as [[a|s|e|e|w] st']; simpl in *; try done.
  by rewrite Hk.
Qed.

Lemma keeps_in_env {A : Type} env (m : M A) : keeps_scope (in_env env m).
Proof.
  intros st. unfold in_env. by destruct (m (set_current_env env st)).
Qed.

Lemma keeps_env_define a x v mutable constant hint :
  keeps_scope (env_define a x v mutable constant hint).
Proof. done. Qed.

Lemma keeps_env_child a nm : keeps_scope (env_child a nm).
Proof. done. Qed.

Lemma keeps_env_get a x : keeps_scope (env_get a x).
Proof. done. Qed.

Lemma keeps_env_set a x v : keeps_scope (env_set a x v).
Proof.
  intros st. unfold env_set. by destruct (Environment.set (envs st) a x v).
Qed.

Lemma keeps_get_class c : keeps_scope (get_class c).
Proof. intros st. unfold get_class. by destruct (classes st !! c). Qed.

Lemma keeps_new_instance c : keeps_scope (new_instance c).
Proof. intros st. unfold new_instance. by destruct (classes st !! c). Qed.

Lemma keeps_number_result r : keeps_scope (number_result r).
Proof.
  intros st. destruct r as [v| | | |]; try done.
  destruct v as [| | |f| | | | | | | | | | | | |]; try done. by destruct f.
Qed.

Ltac keeps_with tac :=
  repeat first
    [ tac
    | apply keeps_ret
    | apply keeps_lift
    | apply keeps_number_result
    | apply keeps_in_env
    | apply keeps_env_define
    | apply keeps_env_child
    | apply keeps_env_get
    | apply keeps_env_set
    | apply keeps_get_class
    | apply keeps_new_instance
    | assumption
    | progress (unfold throw, signal_, abort, index_error, get_current_env,
                fresh_serial, new_class, set_property, eval_optional,
                PyHost.arity_error, PyHost.attribute_error)
    | done
    | apply keeps_bind; [|intros ?]
    | match goal with
      | H : ∀ n, keeps_scope (?ev n) |- keeps_scope (?ev _) => apply H
      | H : ∀ c a, keeps_scope (?call c a) |- keeps_scope (?call _ _) =>
          apply H
      | |- keeps_scope (match ?x with _ => _ end) => destruct x
      end ].

Ltac keeps := keeps_with fail.

Section WithEvaluator.

Variable host : host_interface.
Variable ev : node → M value.
Variable cl : value → list value → M value.
Hypothesis Hev : ∀ n, keeps_scope (ev n).
Hypothesis Hcl : ∀ c a, keeps_scope (cl c a).
Hypothesis Hhost : ∀ c a, keeps_scope (host_call host cl c a).

Lemma keeps_eval_each nodes : keeps_scope (eval_each ev nodes).
Proof. induction nodes as [|n nodes IH]; simpl; keeps. Qed.

Lemma keeps_eval_sequence r stmts : keeps_scope (eval_sequence ev r stmts).
Proof. revert r. induction stmts as [|n stmts IH]; intros r; simpl; keeps. Qed.

Lemma keeps_define_bindings env b : keeps_scope (define_bindings env b).
Proof. induction b as [|[x v] b IH]; simpl; keeps. Qed.

Lemma keeps_while rounds c b r : keeps_scope (while_loop ev rounds c b r).
Proof.
  revert r. induction rounds as [|k IH]; intros r; simpl; keeps.
  intros st. pose proof (Hev b st) as Hb.
  destruct (ev b st) as [[v|[]|e|e|w] st']; simpl in *; try done.
  - by rewrite IH.
  - by rewrite IH.
Qed.

Lemma keeps_repeat_loop env x ix b i items r :
  keeps_scope (repeat_loop ev env x ix b i items r).
Proof.
  revert i r. induction items as [|item items IH]; intros i r; simpl; keeps.
  intros st. pose proof (Hev b st) as Hb.
  destruct (ev b st) as [[v|[]|e|e|w] st']; simpl in *; try done.
  - by rewrite IH.
  - by rewrite IH.
Qed.

Lemma keeps_match_pattern : ∀ p v, keeps_scope (_match_pattern ev p v).
Proof.
  fix IH 1. intros p v. destruct p; simpl; keeps.
  all: try match goal with
    | |- keeps_scope (_ ?es ?vs (@nil _)) =>
        generalize (@nil (string * value)); revert vs;
        induction es as [|q ps IHps]; intros [|x vs] acc; keeps
    | |- keeps_scope (_ ?es (@nil _)) =>
        generalize (@nil (string * value));
        induction es as [|[key pat] es IHes]; intros acc; keeps
    end.
  all: intros st;
    match goal with
    | |- context [ev ?n st] =>
        pose proof (Hev n st) as Hb;
        destruct (ev n st) as [[?|?|?|?|?] ?]; simpl in *; done
    end.
Qed.

Lemma keeps_in_check_scope {A : Type} b (m : M A) :
  keeps_scope (in_check_scope b m).
Proof.
  unfold in_check_scope. keeps_with ltac:(apply keeps_define_bindings).
Qed.

Lemma keeps_check_cases v cases : keeps_scope (check_cases ev v cases).
Proof.
  induction cases as [|c cases IH]; simpl;
    keeps_with ltac:(first [apply keeps_match_pattern
                           | apply keeps_in_check_scope]).
Qed.

Lemma keeps_run_catch cv cb text : keeps_scope (run_catch ev cv cb text).
Proof. unfold run_catch. keeps. Qed.

Lemma keeps_try tb cv cb fb : keeps_scope (_eval_TryStatement ev tb cv cb fb).
Proof.
  intros st. unfold _eval_TryStatement.
  match goal with
  | |- context [let '(r, st1) := ?X in _] =>
      assert (H1 : current_env (snd X) = current_env st);
      [|destruct X as [r st1]]
  end.
  { pose proof (Hev tb st) as Ht.
    destruct (ev tb st) as [[v|s|e|e|w] st']; simpl in Ht; try done;
      rewrite <- Ht; apply keeps_run_catch. }
  simpl in H1.
  destruct r, fb as [f|]; try done;
    pose proof (Hev f st1) as Hf; destruct (ev f st1) as [[] ?];
    simpl in *; congruence.
Qed.

Lemma keeps_comparison_loop i ops operands :
  keeps_scope (comparison_loop ev i ops operands).
Proof. revert i. induction ops as [|op ops IH]; intros i; simpl; keeps. Qed.

Lemma keeps_bind_parameters with_rest evd env args i params :
  (∀ d, keeps_scope (evd d)) →
  keeps_scope (bind_parameters with_rest evd env args i params).
Proof.
  intros Hd. revert i. induction params as [|p params IH]; intros i; simpl;
    keeps_with ltac:(apply Hd).
Qed.

Lemma keeps_catch_return m : keeps_scope m → keeps_scope (catch_return m).
Proof.
  intros Hm st. unfold catch_return. specialize (Hm st).
  by destruct (m st) as [[v|[]|e|e|w] st'].
Qed.

Lemma keeps_absorb_return m : keeps_scope m → keeps_scope (absorb_return m).
Proof.
  intros Hm st. unfold absorb_return. specialize (Hm st).
  by destruct (m st) as [[v|[]|e|e|w] st'].
Qed.

Lemma keeps_call_function f args : keeps_scope (_call_function ev f args).
Proof.
  unfold _call_function.
  keeps_with ltac:(first [by apply keeps_bind_parameters
                         | by apply keeps_catch_return
                         | by apply keeps_absorb_return]).
Qed.

Lemma keeps_call_lambda ps b c args : keeps_scope (_call_lambda ev ps b c args).
Proof.
  unfold _call_lambda.
  keeps_with ltac:(apply keeps_bind_parameters; intros d).
Qed.

Lemma keeps_call_bound_method i f args :
  keeps_scope (_call_bound_method ev i f args).
Proof.
  unfold _call_bound_method.
  keeps_with ltac:(first [by apply keeps_bind_parameters
                         | by apply keeps_catch_return
                         | by apply keeps_absorb_return]).
Qed.

Lemma keeps_instantiate_class c args :
  keeps_scope (_instantiate_class ev c args).
Proof.
  unfold _instantiate_class.
  keeps_with ltac:(first [by apply keeps_bind_parameters
                         | by apply keeps_catch_return
                         | by apply keeps_absorb_return]).
Qed.

Lemma keeps_call c args : keeps_scope (_call host ev cl c args).
Proof.
  unfold _call. destruct (py_callable c).
  - intros st. pose proof (Hhost c args st) as Hh.
    destruct (host_call host cl c args st) as [[v|s|e|e|w] st']; try done.
    by destruct (is_TypeError e).
  - destruct c;
      keeps_with ltac:(first [apply keeps_call_function
                             | apply keeps_call_lambda
                             | apply keeps_call_bound_method
                             | apply keeps_instantiate_class]).
Qed.

Lemma keeps_member_access o p safe :
  keeps_scope (_eval_MemberAccess ev o p safe).
Proof.
  unfold _eval_MemberAccess, _get_string_method, _get_list_method. keeps.
  intros st. destruct (get_property st inst p); [done|].
  by destruct (get_method st inst p).
Qed.

Lemma keeps_index_access o i safe :
  keeps_scope (_eval_IndexAccess ev o i safe).
Proof. unfold _eval_IndexAccess. keeps. Qed.

Lemma keeps_list_elements es : keeps_scope (list_elements ev es).
Proof. induction es as [|e es IH]; simpl; keeps. Qed.

Lemma keeps_map_entries es r : keeps_scope (map_entries ev es r).
Proof.
  revert r. induction es as [|[k v] es IH]; intros r; simpl; keeps.
Qed.

Lemma keeps_try_get_method o m : keeps_scope (_try_get_method host o m).
Proof. unfold _try_get_method. keeps. Qed.

Lemma keeps_pipeline_stage piped stage :
  keeps_scope (pipeline_stage host ev cl piped stage).
Proof.
  unfold pipeline_stage.
  destruct stage;
    keeps_with ltac:(first [apply keeps_eval_each | apply keeps_try_get_method
                           | apply keeps_call | apply keeps_call_lambda]).
  intros st.
  match goal with
  | |- context [bind ?m ?k st] =>
      assert (Hm : keeps_scope (bind m k))
        by keeps_with ltac:(apply keeps_call);
      specialize (Hm st); destruct (bind m k st) as [[v|s|e|e|w] st']; try done
  end.
  by destruct (is_NameError e).
Qed.

Lemma keeps_pipeline_stages piped stages :
  keeps_scope (pipeline_stages host ev cl piped stages).
Proof.
  revert piped. induction stages as [|s stages IH]; intros piped; simpl;
    keeps_with ltac:(apply keeps_pipeline_stage).
Qed.

Lemma keeps_me : keeps_scope _eval_Me.
Proof.
  intros st. unfold _eval_Me.
  destruct (Environment.get (envs st) (current_env st) "me"); try done.
  by destruct (is_NameError e).
Qed.

Lemma keeps_class_members body k : keeps_scope (class_members ev body k).
Proof.
  revert k. induction body as [|[ps b|nm ps b s|nm v s] body IH]; intros k;
    simpl; keeps.
Qed.

Lemma keeps_evaluate_node rounds n :
  keeps_scope (evaluate_node host ev cl rounds n).
Proof.
  destruct n; simpl;
    unfold _eval_Literal, _eval_Identifier, _eval_BinaryOp, binary_operation,
      _eval_UnaryOp, _eval_Comparison, _eval_LogicalOp, _eval_Assignment,
      _eval_Call, _eval_ListLiteral, _eval_MapLiteral, _eval_Range,
      _eval_Pipeline, _eval_Lambda, _eval_Ternary, _eval_NullCoalesce,
      _eval_SpreadElement, _eval_Yield, _eval_Block,
      _eval_ExpressionStatement, _eval_VariableDeclaration,
      _eval_FunctionDeclaration, _eval_IfStatement, _eval_WhileStatement,
      _eval_RepeatStatement, _eval_CheckStatement, _eval_FailStatement,
      _eval_GiveStatement, _eval_StopStatement, _eval_NextStatement,
      _eval_ClassDeclaration;
    keeps_with ltac:(first
      [ apply keeps_member_access | apply keeps_try | apply keeps_me
      | apply keeps_comparison_loop | apply keeps_while
      | apply keeps_eval_sequence | apply keeps_eval_each | apply keeps_call
      | apply keeps_list_elements | apply keeps_map_entries
      | apply keeps_pipeline_stages | apply keeps_repeat_loop
      | apply keeps_check_cases | apply keeps_class_members ]).
Qed.

End WithEvaluator.

Section HostCalls.

Variable cl : value → list value → M value.
Hypothesis Hcl : ∀ c a, keeps_scope (cl c a).

Lemma keeps_iter_items v : keeps_scope (PyHost.iter_items v).
Proof. unfold PyHost.iter_items. keeps. Qed.

Lemma keeps_sum_items acc l : keeps_scope (PyHost.sum_items acc l).
Proof. revert acc. induction l as [|x l IH]; intros acc; simpl; keeps. Qed.

Lemma keeps_map_items f l : keeps_scope (PyHost.map_items cl f l).
Proof. induction l as [|x l IH]; simpl; keeps. Qed.

Lemma keeps_filter_items f l : keeps_scope (PyHost.filter_items cl f l).
Proof. induction l as [|x l IH]; simpl; keeps. Qed.

Lemma keeps_call_builtin name args :
  keeps_scope (PyHost.call_builtin cl name args).
Proof.
  unfold PyHost.call_builtin.
  keeps_with ltac:(first [apply keeps_iter_items | apply keeps_sum_items
                         | apply keeps_map_items | apply keeps_filter_items]).
Qed.

Lemma keeps_call_instance_method i name args :
  keeps_scope (PyHost.call_instance_method i name args).
Proof.
  unfold PyHost.call_instance_method. keeps.
  - intros st. by destruct (get_property st i s).
  - intros st. by destruct (get_method st i s).
Qed.

Lemma keeps_call_host c a : keeps_scope (PyHost.call_host cl c a).
Proof.
  unfold PyHost.call_host.
  keeps_with ltac:(first [apply keeps_call_builtin
                         | apply keeps_call_instance_method]).
Qed.

End HostCalls.

Lemma keeps_evaluate fuel :
  (∀ n, keeps_scope (evaluate PyHost.host fuel n))
  ∧ (∀ c a, keeps_scope (call PyHost.host fuel c a)).
Proof.
  induction fuel as [|k [IHe IHc]]; [by split|].
  split.
  - intros n. simpl. apply keeps_evaluate_node;
      first [done | intros c a; by apply keeps_call_host].
  - intros c a. simpl. apply keeps_call;
      first [done | intros c' a'; by apply keeps_call_host].
Qed.

(** X10.  Scope discipline: whatever a node evaluates to, and whatever a
    call returns (a value, a signal, a failure), the evaluator's current
    scope afterwards is the one it started from; a program leaves the
    interpreter in the global scope. *)
Theorem evaluate_keeps_the_current_scope fuel st :
  (∀ n, current_env (snd (evaluate PyHost.host fuel n st)) = current_env st)
  ∧ (∀ callee args,
       current_env (snd (call PyHost.host fuel callee args st))
       = current_env st)
  ∧ (∀ body, current_env (snd (PyHost.run fuel body)) = 0%nat).
Proof.
  destruct (keeps_evaluate fuel) as [He Hc].
  split; [|split].
  - intros n. apply He.
  - intros c a. apply Hc.
  - intros body. unfold PyHost.run, execute_program, execute.
    by rewrite keeps_eval_sequence.
Qed.

End ScopeDiscipline.
(** ** Closures and declarations *)

Section ClosureFacts.

(** Parameters without defaults are bound without evaluating anything: the
    binding leaves the lookups of the other names as they were. *)
Lemma bind_parameters_frame with_rest evd env args i params st y :
  Forall (fun p => p_default p = None ∧ p_name p ≠ y) params →
  ∃ st', bind_parameters with_rest evd env args i params st = (Ok tt, st')
         ∧ current_env st' = current_env st
         ∧ ∀ d, Environment.get (envs st') d y = Environment.get (envs st) d y.
Proof.
  intros Hps. revert i st.
  induction Hps as [|p params [Hd Hn] _ IH]; intros i st; simpl.
  - by exists st.
  - assert (Hdef : ∀ v st0, ∃ st1,
              env_define env (p_name p) v false false None st0 = (Ok tt, st1)
              ∧ current_env st1 = current_env st0
              ∧ ∀ d, Environment.get (envs st1) d y
                     = Environment.get (envs st0) d y).
    { intros v st0. eexists. split; [reflexivity|]. split; [done|].
      intros d. simpl. unfold Environment.get.
      by apply get_walk_define_other. }
    destruct (with_rest && p_rest p).
    + apply Hdef.
    + destruct (args !! i) as [a|].
      * destruct (Hdef a st) as (st1 & H1 & Hc1 & Hg1).
        destruct (IH (S i) st1) as (st2 & H2 & Hc2 & Hg2).
        exists st2. unfold bind at 1. rewrite H1. split; [done|].
        split; [congruence|]. intros d. by rewrite Hg2.
      * rewrite Hd.
        destruct (Hdef VNone st) as (st1 & H1 & Hc1 & Hg1).
        destruct (IH (S i) st1) as (st2 & H2 & Hc2 & Hg2).
        exists st2. unfold bind at 1. rewrite H1. split; [done|].
        split; [congruence|]. intros d. by rewrite Hg2.
Qed.

Lemma evaluate_S host k n :
  evaluate host (S k) n = evaluate_node host (evaluate host k) (call host k) k n.
Proof. reflexivity. Qed.

Lemma call_S host k c a :
  call host (S k) c a = _call host (evaluate host k) (call host k) c a.
Proof. reflexivity. Qed.

(** An identifier evaluates to what [get] finds from the current scope. *)
Lemma evaluate_Identifier host k y st :
  evaluate host (S k) (Identifier y) st
  = (Environment.get (envs st) (current_env st) y, st).
Proof. reflexivity. Qed.

(** The block [give y], evaluated. *)
Lemma evaluate_give_identifier host k y st :
  evaluate host (S (S (S k))) (Block [GiveStatement (Some (Identifier y))]) st
  = (match Environment.get (envs st) (current_env st) y with
     | Ok v => Signalled (ReturnSignal v)
     | Signalled s => Signalled s
     | Raised e => Raised e
     | HostRaised e => HostRaised e
     | Abort w => Abort w
     end, st).
Proof.
  rewrite evaluate_S. unfold evaluate_node, _eval_Block.
  cbn [eval_sequence]. unfold bind at 1.
  rewrite evaluate_S. unfold evaluate_node, _eval_GiveStatement.
  unfold bind at 1. cbn [eval_optional].
  rewrite evaluate_Identifier.
  by destruct (Environment.get (envs st) (current_env st) y).
Qed.

(** X11.  Lexical scope: a function or lambda whose parameters have no
    defaults and whose body gives the free name [y] returns what the scope
    captured at its creation holds for [y] at the time of the call (or fails
    as that lookup does), whatever scope the call is made from. *)
Theorem function_body_reads_the_captured_scope
    host fuel y name params clo serial is_method args st :
  Environment.wf_store (envs st) → (clo < List.length (envs st))%nat →
  Forall (fun p => p_default p = None ∧ p_name p ≠ y) params →
  fst (call host (S (S (S (S fuel))))
         (VFunction
            (mkRiftFunction serial
               (mkFunctionDecl name params
                  (Block [GiveStatement (Some (Identifier y))]))
               clo is_method))
         args st)
  = Environment.get (envs st) clo y
  ∧ fst (call host (S (S fuel)) (VLambda serial params (Identifier y) clo)
              args st)
    = Environment.get (envs st) clo y.
Proof.
  intros Hwf Hclo Hps.
  pose proof (child_get (envs st) clo) as Hchild.
  split.
  - rewrite call_S.
    change (_call host ?ev ?cl (VFunction ?f) args)
      with (_call_function ev f args).
    unfold _call_function. cbn [declaration fd_name fd_params fd_body closure].
    destruct (Environment.child (envs st) clo name) as [env σ1] eqn:Hch.
    specialize (Hchild name y Hwf Hclo). rewrite Hch in Hchild.
    cbn [fst snd] in Hchild.
    destruct (bind_parameters_frame true (evaluate host (S (S (S fuel)))) env
                args 0 params (set_envs σ1 st) y Hps) as (st2 & Hb & Hc & Hg).
    erewrite bind_step; [|unfold env_child; by rewrite Hch].
    erewrite bind_step; [|exact Hb].
    unfold in_env, catch_return. unfold bind at 1.
    rewrite evaluate_give_identifier.
    cbn [envs current_env set_current_env]. rewrite Hg.
    cbn [envs set_envs]. rewrite Hchild.
    pose proof (get_no_signal (envs st) clo y) as Hns.
    destruct (Environment.get (envs st) clo y); try done. by destruct (Hns s).
  - rewrite call_S.
    change (_call host ?ev ?cl (VLambda ?n ?ps ?b ?c) args)
      with (_call_lambda ev ps b c args).
    unfold _call_lambda.
    destruct (Environment.child (envs st) clo "lambda") as [env σ1] eqn:Hch.
    specialize (Hchild "lambda" y Hwf Hclo). rewrite Hch in Hchild.
    cbn [fst snd] in Hchild.
    erewrite bind_step; [|unfold env_child; by rewrite Hch].
    destruct (bind_parameters_frame true
                (fun d => in_env env (evaluate host (S fuel) d)) env args
                0 params (set_envs σ1 st) y Hps) as (st2 & Hb & Hc & Hg).
    erewrite bind_step; [|exact Hb].
    unfold in_env, catch_return.
    rewrite evaluate_Identifier. cbn [envs current_env set_current_env].
    rewrite Hg. cbn [envs set_envs]. rewrite Hchild.
    pose proof (get_no_signal (envs st) clo y) as Hns.
    destruct (Environment.get (envs st) clo y); try done. by destruct (Hns s).
Qed.

Lemma function_body_reads_the_captured_scope_witness :
  let σ := snd (Environment.child
                  (Environment.define [Environment.global] 0%nat "d" (VInt 1)
                     false false None) 0%nat "g") in
  let st := mkState σ [] [] 1%nat 0%nat in
  let params := [mkParameter "x" None None false] in
  Environment.wf_store (envs st)
  ∧ (0 < List.length (envs st))%nat
  ∧ Forall (fun p : Param => p_default p = None ∧ p_name p ≠ "d") params
  ∧ fst (call PyHost.host 4
           (VFunction
              (mkRiftFunction 0
                 (mkFunctionDecl "f" params
                    (Block [GiveStatement (Some (Identifier "d"))]))
                 0 false))
           [VInt 7] st)
    = Environment.get (envs st) 0%nat "d"
  ∧ fst (call PyHost.host 2 (VLambda 0 params (Identifier "d") 0) [VInt 7] st)
    = Environment.get (envs st) 0%nat "d".
Proof.
  intros σ st params.
  assert (H1 : Environment.wf_store (envs st)).
  { intros a e p Ha Hp. destruct a as [|[|a]]; simpl in Ha; try done.
    - by simplify_eq.
    - simplify_eq. simpl in Hp. simplify_eq. lia. }
  assert (H2 : (0 < List.length (envs st))%nat) by (simpl; lia).
  assert (H3 : Forall (fun p : Param => p_default p = None ∧ p_name p ≠ "d")
                      params).
  { constructor; [|constructor]. split; [reflexivity|discriminate]. }
  split; [exact H1|]. split; [exact H2|]. split; [exact H3|].
  exact (function_body_reads_the_captured_scope PyHost.host 0 "d" "f" params
           0%nat 0%nat false [VInt 7] st H1 H2 H3).
Defined.

Section Declarations.

Variable ev : node → M value.

(** X12.  Declare and read: after a declaration [kind x = e] without a type
    hint, whatever [x] was bound to in the current scope before (a constant
    included), the identifier [x] evaluates to the value of [e]. *)
Theorem declaration_then_identifier kind x e v st st1 :
  ev e st = (Ok v, st1) →
  (current_env st1 < List.length (envs st1))%nat →
  ∃ st2,
    _eval_VariableDeclaration ev kind x None (Some e) st = (Ok VNone, st2)
    ∧ _eval_Identifier x st2 = (Ok v, st2).
Proof.
  intros He Hcur.
  exists (set_envs (Environment.define (envs st1) (current_env st1) x v
                      (String.eqb kind "mut") (String.eqb kind "const") None)
                   st1).
  split.
  - unfold _eval_VariableDeclaration.
    erewrite bind_step by (simpl; exact He). reflexivity.
  - unfold _eval_Identifier, bind, get_current_env, env_get.
    cbn [envs set_envs current_env]. f_equal.
    by apply get_define_same.
Qed.

End Declarations.

Lemma declaration_then_identifier_witness :
  let ev := evaluate PyHost.host 1 in
  let st := PyHost.initial_state in
  ev (Literal (LitInt 2)) st = (Ok (VInt 2), st)
  ∧ (current_env st < List.length (envs st))%nat
  ∧ ∃ st2,
      _eval_VariableDeclaration ev "const" "yes" None
        (Some (Literal (LitInt 2))) st = (Ok VNone, st2)
      ∧ _eval_Identifier "yes" st2 = (Ok (VInt 2), st2).
Proof.
  intros ev st.
  assert (H1 : ev (Literal (LitInt 2)) st = (Ok (VInt 2), st)) by reflexivity.
  assert (H2 : (current_env st < List.length (envs st))%nat) by (simpl; lia).
  split; [exact H1|]. split; [exact H2|].
  exact (declaration_then_identifier ev "const" "yes" (Literal (LitInt 2))
           (VInt 2) st st H1 H2).
Defined.

End ClosureFacts.

(** ** Pipelines, try statements, literals and operators *)

Section PipelineComposition.

Variable host : host_interface.
Variable ev : node → M value.
Variable cl : value → list value → M value.

Lemma pipeline_stages_app piped s1 s2 st :
  pipeline_stages host ev cl piped (s1 ++ s2) st
  = (v <- pipeline_stages host ev cl piped s1 ;;
     pipeline_stages host ev cl v s2) st.
Proof.
  revert piped st. induction s1 as [|s s1 IH]; intros piped st; simpl.
  - done.
  - rewrite bind_assoc. apply bind_ext. intros v st'. apply IH.
Qed.

(** X13.  Pipelines compose: the stages [s1] followed by [s2] give what
    [s2] gives on the result of the pipeline with the stages [s1] alone,
    effects and failures included. *)
Theorem pipeline_stages_compose value_ s1 s2 st :
  _eval_Pipeline host ev cl value_ (s1 ++ s2) st
  = (v <- _eval_Pipeline host ev cl value_ s1 ;;
     pipeline_stages host ev cl v s2) st.
Proof.
  unfold _eval_Pipeline. rewrite bind_assoc. apply bind_ext.
  intros v st'. apply pipeline_stages_app.
Qed.

End PipelineComposition.

Section EvaluatorFacts.

Variable ev : node → M value.

(** X14.  A try statement that has neither a catch block nor a finally
    block never fails: a failure of the try block, of the language or of
    the host, is dropped and the statement evaluates to none. *)
Theorem try_without_catch_never_fails tb cv st :
  (∀ e, fst (_eval_TryStatement ev tb cv None None st) ≠ Raised e)
  ∧ (∀ e, fst (_eval_TryStatement ev tb cv None None st) ≠ HostRaised e)
  ∧ (∀ st1, (∃ e, ev tb st = (Raised e, st1))
            ∨ (∃ e, ev tb st = (HostRaised e, st1)) →
            _eval_TryStatement ev tb cv None None st = (Ok VNone, st1)).
Proof.
  unfold _eval_TryStatement, run_catch.
  destruct (ev tb st) as [[v|s|e|e|w] st']; simpl; split_and!; try done.
  all: intros st1 [[e' He]|[e' He]]; by simplify_eq.
Qed.

Lemma map_entries_keys_distinct entries acc st m st' :
  keys_distinct acc = true →
  map_entries ev entries acc st = (Ok m, st') →
  keys_distinct m = true.
Proof.
  revert acc st. induction entries as [|[key val] entries IH]; intros acc st Hd.
  - simpl. by intros [= <- _].
  - assert (Hplain :
      (key_val <- eval_optional ev key ;;
       val0 <- ev val ;;
       if hashable key_val
       then map_entries ev entries (dict_set acc key_val val0)
       else lift (host_raise "TypeError" "unhashable type")) st = (Ok m, st') →
      keys_distinct m = true).
    { intros H. apply bind_Ok in H as (k & st1 & _ & H).
      apply bind_Ok in H as (v & st2 & _ & H).
      destruct (hashable k); [|done].
      eapply IH; [|exact H]. by apply dict_set_keys_distinct. }
    destruct key as [k|]; [exact Hplain|].
    destruct val; try exact Hplain.
    simpl. intros H. apply bind_Ok in H as (sv & st1 & _ & H).
    eapply IH; [|exact H].
    destruct sv; try done. by apply dict_update_keys_distinct.
Qed.

(** A text is, or equals, no key but the same text. *)
Lemma py_eq_item_text_l s k : py_eq_item (VStr s) k = true → k = VStr s.
Proof.
  unfold py_eq_item. simpl.
  destruct k as [| | | |t| | | | | | | | | | | |]; try done.
  by intros ->%String.eqb_eq.
Qed.

Lemma py_eq_item_text_r s k : py_eq_item k (VStr s) = true → k = VStr s.
Proof.
  unfold py_eq_item.
  destruct k as [| | | |t| | | | | | | | | | | |]; try done.
  simpl. by intros ->%String.eqb_eq.
Qed.

(** Write and look up, on a text key: the key then reads the value
    written, and every other key reads what it read before. *)
Lemma dict_find_set_text (m : list (value * value)) s v k :
  dict_find (dict_set m (VStr s) v) k
  = if py_eq_item k (VStr s) then Some v else dict_find m k.
Proof.
  induction m as [|[k0 v0] m IH]; simpl; [done|].
  destruct (py_eq_item (VStr s) k0) eqn:H0; simpl.
  - apply py_eq_item_text_l in H0 as ->.
    by destruct (py_eq_item k (VStr s)).
  - rewrite IH. destruct (py_eq_item k (VStr s)) eqn:Hk; [|done].
    apply py_eq_item_text_r in Hk as ->. by rewrite H0.
Qed.

Lemma dict_find_text_writes (kvs : list (string * value)) acc s :
  dict_find
    (fold_left (fun acc kv => dict_set acc (VStr (fst kv)) (snd kv)) kvs acc)
    (VStr s)
  = match last_value kvs s with
    | Some v => Some v
    | None => dict_find acc (VStr s)
    end.
Proof.
  revert acc. induction kvs as [|[k v] kvs IH]; intros acc; simpl; [done|].
  rewrite IH. destruct (last_value kvs s); [done|].
  rewrite dict_find_set_text. unfold py_eq_item. simpl.
  by destruct (String.eqb s k).
Qed.

Lemma text_writes_keys_distinct (kvs : list (string * value)) acc :
  keys_distinct acc = true →
  keys_distinct
    (fold_left (fun acc kv => dict_set acc (VStr (fst kv)) (snd kv)) kvs acc)
  = true.
Proof.
  revert acc. induction kvs as [|[k v] kvs IH]; intros acc Hd; simpl; [done|].
  apply IH. by apply dict_set_keys_distinct.
Qed.

Lemma map_entries_text (kes : list (string * node)) acc st vs st' :
  (∀ s st, ev (Literal (LitStr s)) st = (Ok (VStr s), st)) →
  eval_each ev (snd <$> kes) st = (Ok vs, st') →
  map_entries ev (text_entries kes) acc st
  = (Ok (fold_left (fun acc kv => dict_set acc (VStr (fst kv)) (snd kv))
                   (zip (fst <$> kes) vs) acc), st').
Proof.
  intros Hlit. revert acc st vs.
  induction kes as [|[k e] kes IH]; intros acc st vs; simpl.
  - by intros [= <- <-].
  - intros H. apply bind_Ok in H as (v & st1 & Hv & H).
    apply bind_Ok in H as (ws & st2 & Hws & H). injection H as <- <-.
    unfold bind at 1. rewrite Hlit. unfold bind at 1. rewrite Hv. simpl.
    by apply IH.
Qed.

Lemma map_literal_text_entries (kes : list (string * node)) st vs st' :
  (∀ s st, ev (Literal (LitStr s)) st = (Ok (VStr s), st)) →
  eval_each ev (snd <$> kes) st = (Ok vs, st') →
  ∃ m, _eval_MapLiteral ev (text_entries kes) st = (Ok (VMap m), st')
       ∧ keys_distinct m = true
       ∧ ∀ s, dict_find m (VStr s) = last_value (zip (fst <$> kes) vs) s.
Proof.
  intros Hlit Hvs. eexists. split_and!.
  - unfold _eval_MapLiteral, bind.
    by rewrite (map_entries_text kes [] st vs st' Hlit Hvs).
  - by apply text_writes_keys_distinct.
  - intros s. rewrite dict_find_text_writes.
    by destruct (last_value (zip (fst <$> kes) vs) s).
Qed.

(** X17.  Safe indexing of a sequence by an integer never fails: [l?[z]] is
    the item at position [z] when [0 <= z < len], and none otherwise, a
    negative [z] included.  Plain indexing [l[z]] gives the same item for
    such a position, counts a negative index from the end, and fails with
    the host's index error beyond either end. *)
Theorem safe_index_never_fails o i l z st st1 st2 :
  ev o st = (Ok (VList l), st1) →
  ev i st1 = (Ok (VInt z), st2) →
  _eval_IndexAccess ev o i true st
  = (Ok (default VNone (if 0 <=? z then l !! Z.to_nat z else None)), st2)
  ∧ _eval_IndexAccess ev o i false st
    = (match py_index (List.length l) z with
       | Some n => Ok (default VNone (l !! n))
       | None => host_raise "IndexError" "list index out of range"
       end, st2)
  ∧ (0 ≤ z < Z.of_nat (List.length l) →
     py_index (List.length l) z = Some (Z.to_nat z))
  ∧ (- Z.of_nat (List.length l) ≤ z < 0 →
     py_index (List.length l) z
     = Some (Z.to_nat (Z.of_nat (List.length l) + z)))
  ∧ (z < - Z.of_nat (List.length l) ∨ Z.of_nat (List.length l) ≤ z →
     py_index (List.length l) z = None).
Proof.
  intros Ho Hi. split_and!.
  - unfold _eval_IndexAccess. erewrite bind_step by exact Ho. simpl.
    erewrite bind_step by exact Hi. unfold subscript. simpl.
    destruct (Z.ltb_spec z 0) as [Hneg|Hpos]; simpl.
    + destruct (Z.leb_spec 0 z); [lia|done].
    + destruct (Z.leb_spec 0 z); [|lia].
      destruct (Z.leb_spec (Z.of_nat (List.length l)) z) as [Hge|Hlt]; simpl.
      * rewrite lookup_ge_None_2 by lia. done.
      * unfold item_at, py_index. simpl.
        destruct (Z.leb_spec 0 z); [|lia].
        destruct (Z.ltb_spec z (Z.of_nat (List.length l))); [|lia]. simpl.
        destruct (lookup_lt_is_Some_2 l (Z.to_nat z)) as [x Hx]; [lia|].
        by rewrite Hx.
  - unfold _eval_IndexAccess. erewrite bind_step by exact Ho. simpl.
    erewrite bind_step by exact Hi. unfold subscript. simpl.
    unfold item_at. simpl.
    destruct (py_index (List.length l) z) as [n|] eqn:Hn; [|done].
    assert (Hlt : (n < List.length l)%nat).
    { unfold py_index in Hn.
      destruct (Z.leb_spec 0 z), (Z.ltb_spec z (Z.of_nat (List.length l)));
        simpl in Hn; try (injection Hn as <-; lia).
      all: destruct (Z.ltb_spec z 0),
             (Z.leb_spec (- Z.of_nat (List.length l)) z);
        simpl in Hn; try done; injection Hn as <-; lia. }
    destruct (lookup_lt_is_Some_2 l n Hlt) as [x Hx]. by rewrite Hx.
  - intros H. unfold py_index.
    destruct (Z.leb_spec 0 z), (Z.ltb_spec z (Z.of_nat (List.length l)));
      try lia; done.
  - intros H. unfold py_index.
    destruct (Z.leb_spec 0 z); [lia|]. simpl.
    destruct (Z.ltb_spec z 0), (Z.leb_spec (- Z.of_nat (List.length l)) z);
      try lia; done.
  - intros H. unfold py_index.
    destruct (Z.leb_spec 0 z), (Z.ltb_spec z (Z.of_nat (List.length l)));
      simpl; try lia;
      destruct (Z.ltb_spec z 0), (Z.leb_spec (- Z.of_nat (List.length l)) z);
      simpl; try lia; done.
Qed.

End EvaluatorFacts.

(** X15.  A map literal whose keys are names or texts evaluates to a map
    with one entry for each distinct key, in which a key reads the value of
    the last entry written with it: an entry whose key equals an earlier
    one replaces its value.  ([vs] are the values of the entries, in their
    order.) *)
Theorem map_literal_keeps_the_last_value
    host fuel (kes : list (string * node)) st vs st' :
  eval_each (evaluate host (S fuel)) (snd <$> kes) st = (Ok vs, st') →
  ∃ m, evaluate host (S (S fuel)) (MapLiteral (text_entries kes)) st
       = (Ok (VMap m), st')
       ∧ keys_distinct m = true
       ∧ ∀ s, dict_find m (VStr s) = last_value (zip (fst <$> kes) vs) s.
Proof.
  intros Hvs.
  change (evaluate host (S (S fuel)) (MapLiteral (text_entries kes)) st)
    with (_eval_MapLiteral (evaluate host (S fuel)) (text_entries kes) st).
  apply map_literal_text_entries; [|done]. by intros.
Qed.

Lemma map_literal_keeps_the_last_value_witness :
  let lit (z : Z) := Literal (LitInt z) in
  let kes := [("a", lit 1); ("a", lit 2); ("b", lit 3)] in
  let vs := [VInt 1; VInt 2; VInt 3] in
  let st := PyHost.initial_state in
  eval_each (evaluate PyHost.host 1) (snd <$> kes) st = (Ok vs, st)
  ∧ evaluate PyHost.host 2 (MapLiteral (text_entries kes)) st
    = (Ok (VMap [(VStr "a", VInt 2); (VStr "b", VInt 3)]), st)
  ∧ ∃ m, evaluate PyHost.host 2 (MapLiteral (text_entries kes)) st
         = (Ok (VMap m), st)
         ∧ keys_distinct m = true
         ∧ ∀ s, dict_find m (VStr s) = last_value (zip (fst <$> kes) vs) s.
Proof.
  intros lit kes vs st.
  assert (H1 : eval_each (evaluate PyHost.host 1) (snd <$> kes) st
               = (Ok vs, st)) by reflexivity.
  split; [exact H1|]. split; [reflexivity|].
  exact (map_literal_keeps_the_last_value PyHost.host 0 kes st vs st H1).
Defined.

(** The keys of a map literal, by identity first: a computed key that is
    the same NaN replaces the entry, a NaN of its own adds one; [1], [1.0]
    and [yes] are one key. *)
Example map_literal_keys :
  let inf := Literal (LitFloat (S754_infinity false)) in
  let nan := BinaryOp "-" inf inf in
  let lit (z : Z) := Literal (LitInt z) in
  let one := Literal (LitFloat (S754_finite false 4503599627370496 (-52))) in
  PyHost.result_of 8
    [VariableDeclaration "let" "x" None (Some nan);
     ExpressionStatement
       (MapLiteral [(Some (Identifier "x"), lit 1);
                    (Some (Identifier "x"), lit 2)])]
  = Ok (VMap [(VNaN 0, VInt 2)])
  ∧ PyHost.result_of 8
      [ExpressionStatement
         (MapLiteral [(Some nan, lit 1); (Some nan, lit 2)])]
    = Ok (VMap [(VNaN 0, VInt 1); (VNaN 1, VInt 2)])
  ∧ PyHost.result_of 8
      [ExpressionStatement
         (MapLiteral [(Some (lit 1), Literal (LitStr "a"));
                      (Some one, Literal (LitStr "b"));
                      (Some (Identifier "yes"), Literal (LitStr "c"))])]
    = Ok (VMap [(VInt 1, VStr "c")]).
Proof. split_and!; vm_compute; reflexivity. Qed.

Lemma safe_index_never_fails_witness :
  let ev := evaluate PyHost.host 2 in
  let o := ListLiteral [Literal (LitInt 10); Literal (LitInt 20)] in
  let i := Literal (LitInt (-1)) in
  let l := [VInt 10; VInt 20] in
  let st := PyHost.initial_state in
  ev o st = (Ok (VList l), st)
  ∧ ev i st = (Ok (VInt (-1)), st)
  ∧ _eval_IndexAccess ev o i true st = (Ok VNone, st)
  ∧ _eval_IndexAccess ev o i false st = (Ok (VInt 20), st).
Proof.
  intros ev o i l st.
  assert (H1 : ev o st = (Ok (VList l), st)) by reflexivity.
  assert (H2 : ev i st = (Ok (VInt (-1)), st)) by reflexivity.
  split; [exact H1|]. split; [exact H2|].
  pose proof (safe_index_never_fails ev o i l (-1) st st st H1 H2)
    as (Hs & Hu & _).
  split; [exact Hs|exact Hu].
Defined.

Section MembershipFacts.

(** X16.  Membership in a range: with integer operands, [z in a..b] (or
    [a to b]) is true exactly when [a <= z <= b], the integers that a loop
    over the range visits. *)
Theorem membership_in_a_range host fuel l s e z a b st st1 st2 st3 :
  evaluate host (S fuel) l st = (Ok (VInt z), st1) →
  evaluate host fuel s st1 = (Ok (VInt a), st2) →
  evaluate host fuel e st2 = (Ok (VInt b), st3) →
  evaluate host (S (S fuel)) (BinaryOp "in" l (Range_default s e)) st
  = (Ok (VBool (bool_decide (z ∈ range_items a (b + 1)))), st3)
  ∧ (z ∈ range_items a (b + 1) ↔ a ≤ z ≤ b).
Proof.
  intros Hl Hs He. split.
  - rewrite evaluate_S. unfold evaluate_node, _eval_BinaryOp.
    erewrite bind_step by exact Hl.
    erewrite bind_step.
    2: { rewrite evaluate_S. unfold evaluate_node, Range_default, _eval_Range.
         erewrite bind_step by exact Hs. erewrite bind_step by exact He.
         reflexivity. }
    unfold binary_operation. simpl. unfold bind, lift, ret. simpl.
    do 3 f_equal.
    destruct (bool_decide (z ∈ range_items a (b + 1))) eqn:Hb.
    + apply bool_decide_eq_true in Hb. apply elem_of_range_items in Hb.
      apply andb_true_iff. split; [apply Z.leb_le|apply Z.ltb_lt]; lia.
    + apply bool_decide_eq_false in Hb. rewrite elem_of_range_items in Hb.
      apply andb_false_iff.
      destruct (Z.leb_spec a z); [right|by left]. apply Z.ltb_ge. lia.
  - rewrite elem_of_range_items. lia.
Qed.

Lemma membership_in_a_range_witness :
  let ev := evaluate PyHost.host in
  let st := PyHost.initial_state in
  let l := Literal (LitInt 5) in
  let s := Literal (LitInt 1) in
  let e := Literal (LitInt 5) in
  ev 2%nat l st = (Ok (VInt 5), st)
  ∧ ev 1%nat s st = (Ok (VInt 1), st)
  ∧ ev 1%nat e st = (Ok (VInt 5), st)
  ∧ ev 3%nat (BinaryOp "in" l (Range_default s e)) st
    = (Ok (VBool (bool_decide (5 ∈ range_items 1 (5 + 1)))), st)
  ∧ (5 ∈ range_items 1 (5 + 1) ↔ 1 ≤ 5 ≤ 5).
Proof.
  intros ev st l s e.
  assert (H1 : ev 2%nat l st = (Ok (VInt 5), st)) by reflexivity.
  assert (H2 : ev 1%nat s st = (Ok (VInt 1), st)) by reflexivity.
  assert (H3 : ev 1%nat e st = (Ok (VInt 5), st)) by reflexivity.
  split; [exact H1|]. split; [exact H2|]. split; [exact H3|].
  exact (membership_in_a_range PyHost.host 1 l s e 5 1 5 st st st st H1 H2 H3).
Defined.

End MembershipFacts.

Section CallArguments.

Variable host : host_interface.
Variable ev : node → M value.
Variable cl : value → list value → M value.

Lemma eval_each_length nodes st vs st' :
  eval_each ev nodes st = (Ok vs, st') → List.length vs = List.length nodes.
Proof.
  revert st vs st'. induction nodes as [|n nodes IH]; intros st vs st'; simpl.
  - by intros [= <- _].
  - intros H. apply bind_Ok in H as (v & st1 & _ & H).
    apply bind_Ok in H as (ws & st2 & Hws & H). injection H as <- _.
    simpl. f_equal. by eapply IH.
Qed.

Lemma flatten_args_plain nodes args :
  forallb (fun n => negb (is_spread n)) nodes = true →
  List.length args = List.length nodes →
  flatten_args nodes args = args.
Proof.
  revert args. induction nodes as [|n nodes IH]; intros [|a args]; simpl;
    try done.
  intros [Hn Hns]%andb_true_iff [= Hlen].
  apply negb_true_iff in Hn. rewrite Hn. simpl. f_equal. by apply IH.
Qed.

(** X18.  A call none of whose arguments is a spread passes the values of
    its arguments to the callee as they are, in their order. *)
Theorem call_without_spread_passes_the_arguments callee arguments st :
  forallb (fun n => negb (is_spread n)) arguments = true →
  _eval_Call host ev cl callee arguments st
  = (c <- ev callee ;;
     args <- eval_each ev arguments ;;
     _call host ev cl c args) st.
Proof.
  intros Hplain. unfold _eval_Call. apply bind_ext. intros c st1.
  unfold bind.
  destruct (eval_each ev arguments st1) as [[vs|?|?|?|?] st2] eqn:He; try done.
  rewrite flatten_args_plain; [done|done|]. by eapply eval_each_length.
Qed.

End CallArguments.

Lemma call_without_spread_passes_the_arguments_witness :
  let host := PyHost.host in
  let ev := evaluate host 1 in
  let cl := call host 1 in
  let arguments := [Literal (LitStr "abc")] in
  let st := PyHost.initial_state in
  forallb (fun n => negb (is_spread n)) arguments = true
  ∧ _eval_Call host ev cl (Identifier "len") arguments st
    = (c <- ev (Identifier "len") ;;
       args <- eval_each ev arguments ;;
       _call host ev cl c args) st.
Proof.
  intros host ev cl arguments st.
  assert (H1 : forallb (fun n => negb (is_spread n)) arguments = true)
    by reflexivity.
  split; [exact H1|].
  exact (call_without_spread_passes_the_arguments host ev cl (Identifier "len")
           arguments st H1).
Defined.
(** ** The built-in functions that take a callback *)

Section LambdaCalls.


(** The lambda [(a, x) => a + x], called on two integers from any state. *)
Lemma call_adding_lambda host fuel serial clo y z st :
  ∃ st',
    call host (S (S (S fuel)))
      (VLambda serial
         [mkParameter "a" None None false; mkParameter "x" None None false]
         (BinaryOp "+" (Identifier "a") (Identifier "x")) clo)
      [VInt y; VInt z] st
    = (Ok (VInt (y + z)), st').
Proof.
  rewrite call_S.
  change (_call host ?ev ?cl (VLambda ?n ?ps ?b ?c) ?args)
    with (_call_lambda ev ps b c args).
  unfold _call_lambda, env_child, Environment.child.
  unfold bind at 1. cbn [bind_parameters p_rest andb lookup list_lookup].
  do 3 unfold bind at 1. cbn [env_define ret].
  unfold in_env, catch_return. rewrite evaluate_S.
  unfold evaluate_node, _eval_BinaryOp. unfold bind at 1.
  rewrite evaluate_Identifier.
  cbn [envs set_envs current_env set_current_env p_name].
  unfold Environment.get at 1.
  rewrite get_walk_define_other by done.
  fold (Environment.get
          (Environment.define
             (envs st ++ [Environment.init (Some clo) "lambda"])
             (List.length (envs st)) "a" (VInt y) false false None)
          (List.length (envs st)) "a").
  rewrite get_define_same by (rewrite length_app; simpl; lia).
  unfold bind at 1. rewrite evaluate_Identifier.
  cbn [envs set_envs current_env set_current_env].
  rewrite get_define_same
    by (unfold Environment.define; rewrite length_alter, length_app;
        simpl; lia).
  unfold binary_operation. simpl. by eexists.
Qed.

End LambdaCalls.

Section CallbackFacts.

Variable cl : value → list value → M value.

Section Callback.

Variable func : value.
Variable g : value → value.
Variable I : state → Prop.
Variable items : list value.

Hypothesis Hg :
  ∀ x s, x ∈ items → I s → ∃ s', cl func [x] s = (Ok (g x), s') ∧ I s'.






End Callback.


Lemma reduce_loop_result func (g : value → value → value)
    (I : state → Prop) (J : value → Prop) items :
  (∀ a x s, J a → x ∈ items → I s →
     ∃ s', cl func [a; x] s = (Ok (g a x), s') ∧ I s' ∧ J (g a x)) →
  ∀ l acc st, l ⊆ items → J acc → I st →
    fst (Builtins.reduce_loop cl func acc l st) = Ok (fold_left g l acc).
Proof.
  intros Hg l. induction l as [|x l IH]; intros acc st Hl HJ HI; simpl;
    [done|].
  destruct (Hg acc x st) as (s1 & Hx & H1 & H2); [done|set_solver|done|].
  unfold bind at 1. rewrite Hx. apply IH; [set_solver|done|done].
Qed.

(** X21.  [reduce] folds from the left, seeded by the initial value or,
    when that is missing or none, by the first item.  When each call of the
    callback returns [g] of the accumulated value and the item, in every
    state that the run passes through and for every value that is
    accumulated (an invariant [I] on the states, one [J] on the values),
    [reduce] returns the left fold of [g]; on an empty sequence it returns
    the initial value, and fails with an Argument error when there is
    none.  A callback that updates a sequence in place is outside the
    embedding. *)
Theorem reduce_is_a_left_fold
    func (g : value → value → value) (I : state → Prop) (J : value → Prop)
    items initial st :
  I st →
  Forall J items →
  (is_none initial = false → J initial) →
  (∀ a x s, J a → x ∈ items → I s →
     ∃ s', cl func [a; x] s = (Ok (g a x), s') ∧ I s' ∧ J (g a x)) →
  fst (Builtins._builtin_reduce cl func (VList items) initial st)
  = match initial, items with
    | VNone, [] =>
        raise ArgumentError "reduce() of empty sequence with no initial value"
    | VNone, first :: rest => Ok (fold_left g rest first)
    | _, _ => Ok (fold_left g items initial)
    end.
Proof.
  intros HI HJ Hinit Hg. unfold Builtins._builtin_reduce.
  erewrite bind_step by reflexivity.
  pose proof (reduce_loop_result func g I J items Hg) as Hloop.
  destruct initial; simpl;
    try (apply Hloop; [done|by apply Hinit|done]).
  destruct items as [|first rest]; [done|].
  apply Hloop; [set_solver| |done]. by apply Forall_cons in HJ as [? _].
Qed.

End CallbackFacts.


Lemma reduce_is_a_left_fold_witness :
  let cl := call PyHost.host 3 in
  let func :=
    VLambda 0
      [mkParameter "a" None None false; mkParameter "x" None None false]
      (BinaryOp "+" (Identifier "a") (Identifier "x")) 0 in
  let g a x :=
    match a, x with VInt y, VInt z => VInt (y + z) | _, _ => VNone end in
  let J a := ∃ z, a = VInt z in
  let items := [VInt 1; VInt 2; VInt 3] in
  let st := PyHost.initial_state in
  Forall J items
  ∧ (∀ a x s, J a → x ∈ items → True →
       ∃ s', cl func [a; x] s = (Ok (g a x), s') ∧ True ∧ J (g a x))
  ∧ fst (Builtins._builtin_reduce cl func (VList items) VNone st)
    = Ok (VInt 6)
  ∧ fst (Builtins._builtin_reduce cl func (VList items) (VInt 10) st)
    = Ok (VInt 16).
Proof.
  intros cl func g J items st.
  assert (HJ : Forall J items).
  { unfold items, J. repeat constructor; eauto. }
  assert (Hg : ∀ a x s, J a → x ∈ items → True →
                 ∃ s', cl func [a; x] s = (Ok (g a x), s') ∧ True ∧ J (g a x)).
  { intros a x s [y ->] Hx _.
    assert (∃ z, x = VInt z) as [z ->].
    { unfold items in Hx. rewrite !elem_of_cons in Hx.
      destruct Hx as [->|[->|[->|Hx]]]; eauto. by apply elem_of_nil in Hx. }
    destruct (call_adding_lambda PyHost.host 0 0 0 y z s) as [s' Hs'].
    exists s'. split; [exact Hs'|]. split; [done|]. simpl. unfold J. eauto. }
  assert (Hnone : is_none VNone = false → J VNone)
    by (intros H; discriminate H).
  assert (Hten : is_none (VInt 10) = false → J (VInt 10))
    by (intros _; by exists 10).
  split; [exact HJ|]. split; [exact Hg|]. split.
  - exact (reduce_is_a_left_fold cl func g (fun _ => True) J items VNone st
             Logic.I HJ Hnone Hg).
  - exact (reduce_is_a_left_fold cl func g (fun _ => True) J items (VInt 10)
             st Logic.I HJ Hten Hg).
Defined.

Section FlattenFacts.

Lemma flat_item_zero d item : d ≤ 0 → Builtins.flat_item d item = [item].
Proof.
  intros Hd. destruct item; try done. simpl.
  destruct (Z.ltb_spec 0 d); [lia|done].
Qed.

Lemma flat_map_singleton {A : Type} (f : A → list A) (l : list A) :
  (∀ x, f x = [x]) → flat_map f l = l.
Proof.
  intros Hf. induction l as [|x l IH]; simpl; [done|]. by rewrite Hf, IH.
Qed.

Lemma flat_item_list d sub :
  0 < d →
  Builtins.flat_item d (VList sub) = flat_map (Builtins.flat_item (d - 1)) sub.
Proof.
  intros Hd. simpl. destruct (Z.ltb_spec 0 d); [|lia].
  induction sub as [|x sub IH]; [done|]. simpl in *. by rewrite IH.
Qed.

(** X22.  Flattening by one level, the default depth, is concatenation:
    [flat(lst)] is [concat] applied to the items of [lst]; with a depth of
    zero or less the result holds the items of [lst] as they are. *)
Theorem flat_one_level_is_concat l :
  Builtins._builtin_flat l 1 = Builtins._builtin_concat l
  ∧ ∀ d, d ≤ 0 → Builtins._builtin_flat l d = VList l.
Proof.
  split.
  - unfold Builtins._builtin_flat, Builtins._builtin_concat. f_equal.
    induction l as [|x l IH]; [done|].
    cbn [flat_map]. rewrite IH. f_equal.
    destruct x; try done. rewrite flat_item_list by lia.
    apply flat_map_singleton. intros y. by apply flat_item_zero.
  - intros d Hd. unfold Builtins._builtin_flat. f_equal.
    apply flat_map_singleton. intros x. by apply flat_item_zero.
Qed.

End FlattenFacts.

(** ** Instances and classes *)

Section InstanceFacts.

(** X23.  The properties of an instance are its own: after a property is
    set, [get_property] returns the value set, and no other property, of
    this instance or of any other, has changed. *)
Theorem instance_properties_are_separate i x v st :
  (i < List.length (instances st))%nat →
  let st' := snd (set_property i x v st) in
  get_property st' i x = Some v
  ∧ ∀ j y, j ≠ i ∨ y ≠ x → get_property st' j y = get_property st j y.
Proof.
  intros Hi st'. destruct (lookup_lt_is_Some_2 _ _ Hi) as [o Ho].
  unfold st', set_property, get_property. simpl. split.
  - rewrite list_lookup_alter_eq, Ho. simpl. by rewrite lookup_insert_eq.
  - intros j y Hne. destruct (decide (j = i)) as [->|Hji].
    + rewrite list_lookup_alter_eq, Ho. simpl.
      destruct Hne as [|Hy]; [done|]. by rewrite lookup_insert_ne.
    + by rewrite list_lookup_alter_ne.
Qed.

Lemma class_method_S n cs c x :
  class_method (S n) cs (Some c) x
  = match cs !! c with
    | Some k =>
        match methods k !! x with
        | Some f => Some f
        | None => class_method n cs (cls_parent k) x
        end
    | None => None
    end.
Proof. reflexivity. Qed.

Lemma class_method_steps n m cs c x :
  classes_well_founded cs → (c < n)%nat → (c < m)%nat →
  class_method n cs (Some c) x = class_method m cs (Some c) x.
Proof.
  intros Hwf. revert m c.
  induction n as [|n IH]; intros [|m] c Hn Hm; try lia. simpl.
  destruct (cs !! c) as [k|] eqn:Hk; [|done].
  destruct (methods k !! x); [done|].
  destruct (cls_parent k) as [p|] eqn:Hp.
  - specialize (Hwf c k p Hk Hp). apply IH; lia.
  - by destruct n, m.
Qed.

(** X24.  Inheritance: an instance finds a method in its own class first,
    and otherwise exactly as an instance of the parent class finds it. *)
Theorem methods_are_inherited st i j oi oj k p x :
  classes_well_founded (classes st) →
  instances st !! i = Some oi →
  instances st !! j = Some oj →
  classes st !! _class oi = Some k →
  cls_parent k = Some p →
  _class oj = p →
  get_method st i x
  = match methods k !! x with
    | Some f => Some f
    | None => get_method st j x
    end.
Proof.
  intros Hwf Hi Hj Hk Hp Hc. unfold get_method. rewrite Hi, Hj.
  rewrite (class_method_S (S (_class oi))), Hk.
  destruct (methods k !! x); [done|]. rewrite Hp, Hc.
  pose proof (Hwf _ _ _ Hk Hp) as Hlt.
  apply class_method_steps; [done|lia|lia].
Qed.

End InstanceFacts.

Lemma instance_properties_are_separate_witness :
  let st :=
    mkState [Environment.global] []
      [mkRiftInstance 0 ∅; mkRiftInstance 0 (<["n" := VInt 1]> ∅)] 0%nat 0%nat
  in
  (0 < List.length (instances st))%nat
  ∧ get_property (snd (set_property 0%nat "n" (VInt 5) st)) 0%nat "n"
    = Some (VInt 5)
  ∧ ∀ j y, j ≠ 0%nat ∨ y ≠ "n" →
           get_property (snd (set_property 0%nat "n" (VInt 5) st)) j y
           = get_property st j y.
Proof.
  intros st.
  assert (H1 : (0 < List.length (instances st))%nat) by (simpl; lia).
  split; [exact H1|].
  exact (instance_properties_are_separate 0%nat "n" (VInt 5) st H1).
Defined.

Lemma methods_are_inherited_witness :
  let f :=
    mkRiftFunction 0 (mkFunctionDecl "hello" [] (Block [])) 0%nat true in
  let A := mkRiftClass "A" (<["hello" := f]> ∅) ∅ None ∅ ∅ None in
  let B := mkRiftClass "B" ∅ ∅ (Some 0%nat) ∅ ∅ None in
  let oi := mkRiftInstance 1 ∅ in
  let oj := mkRiftInstance 0 ∅ in
  let st := mkState [Environment.global] [A; B] [oi; oj] 0%nat 1%nat in
  classes_well_founded (classes st)
  ∧ get_method st 0%nat "hello"
    = match methods B !! "hello" with
      | Some g => Some g
      | None => get_method st 1%nat "hello"
      end.
Proof.
  intros f A B oi oj st.
  assert (Hwf : classes_well_founded (classes st)).
  { intros c k p Hk Hp. destruct c as [|[|c]]; simpl in Hk; try done.
    - by simplify_eq.
    - simplify_eq. simpl in Hp. simplify_eq. lia. }
  split; [exact Hwf|].
  exact (methods_are_inherited st 0%nat 1%nat oi oj B 0%nat "hello" Hwf
           eq_refl eq_refl eq_refl eq_refl eq_refl).
Defined.

(** ** The cursor of the parser *)

Section ParserFacts.

Import Parser.

Lemma current_on_a_token p :
  on_a_token p → current p = tokens p !! pos p ∧ is_Some (current p).
Proof.
  intros [_ Hpos]. unfold current.
  destruct (Nat.leb_spec (List.length (tokens p)) (pos p)); [lia|].
  split; [done|]. by apply lookup_lt_is_Some_2.
Qed.

Lemma advance_on_a_token p :
  on_a_token p →
  on_a_token (advance p)
  ∧ tokens (advance p) = tokens p
  ∧ pos (advance p) = (if is_at_end p then pos p else S (pos p)).
Proof.
  intros Hp. pose proof Hp as [[tok [Hlast Heof]] Hpos].
  destruct (current_on_a_token p Hp) as [Hcur [cur Hc]].
  unfold advance. destruct (is_at_end p) eqn:Hend; [done|].
  split_and!; try done. split; [by exists tok|]. simpl.
  destruct (decide (S (pos p) < List.length (tokens p))%nat) as [|Hge];
    [done|].
  exfalso. assert (Hp1 : pos p = pred (List.length (tokens p))) by lia.
  unfold is_at_end in Hend. rewrite Hcur, Hp1 in Hend.
  rewrite <- last_lookup, Hlast in Hend. congruence.
Qed.

(** X25.  The cursor of the parser stays on a token: on a token sequence
    that ends with the end-of-input token, [advance] moves the cursor by
    one, except on the end-of-input token, where it stays; so [current]
    always finds a token. *)
Theorem advance_stays_on_a_token p :
  on_a_token p →
  on_a_token (advance p)
  ∧ tokens (advance p) = tokens p
  ∧ pos (advance p) = (if is_at_end p then pos p else S (pos p))
  ∧ is_Some (current (advance p)).
Proof.
  intros Hp. destruct (advance_on_a_token p Hp) as (Hp' & Ht & Hpos).
  split_and!; try done. by apply current_on_a_token.
Qed.

Lemma skip_newlines_spec rounds p :
  on_a_token p →
  (List.length (tokens p) - pos p < rounds)%nat →
  ∃ p', skip_newlines rounds p = Some p'
        ∧ on_a_token p'
        ∧ tokens p' = tokens p
        ∧ (pos p ≤ pos p')%nat
        ∧ check_newline p' = false
        ∧ ∀ i tok, (pos p ≤ i < pos p')%nat → tokens p !! i = Some tok →
                   is_newline (type tok) = true.
Proof.
  revert p. induction rounds as [|k IH]; intros p Hp Hk; [lia|]. simpl.
  destruct (check_newline p) eqn:Hnl.
  - destruct (advance_on_a_token p Hp) as (Hp' & Htok & Hpos).
    destruct (current_on_a_token p Hp) as [Hcur [cur Hc]].
    assert (Hend : is_at_end p = false).
    { unfold check_newline in Hnl. unfold is_at_end. rewrite Hc in *.
      by destruct (type cur). }
    rewrite Hend in Hpos.
    destruct (IH (advance p) Hp') as (p' & Hs & Hp'' & Ht & Hle & Hc' & Hall).
    { rewrite Htok, Hpos. destruct Hp as [_ ?]. lia. }
    exists p'. split_and!; try done; try congruence; try lia.
    intros i tok Hi Htk. destruct (decide (i = pos p)) as [->|Hne].
    + unfold check_newline in Hnl. rewrite Hcur, Htk in Hnl. done.
    + eapply Hall; [|by rewrite Htok]. lia.
  - exists p. split_and!; try done. intros i tok Hi. lia.
Qed.

(** X26.  [skip_newlines] returns, on a token sequence that ends with the
    end-of-input token: it moves the cursor forward over newline tokens
    only and leaves it on the first token that is not one. *)
Theorem skip_newlines_stops_after_the_newlines p :
  on_a_token p →
  ∃ p', skip_newlines (S (List.length (tokens p))) p = Some p'
        ∧ tokens p' = tokens p
        ∧ (pos p ≤ pos p' < List.length (tokens p))%nat
        ∧ check_newline p' = false
        ∧ ∀ i tok, (pos p ≤ i < pos p')%nat → tokens p !! i = Some tok →
                   is_newline (type tok) = true.
Proof.
  intros Hp.
  destruct (skip_newlines_spec (S (List.length (tokens p))) p Hp)
    as (p' & Hs & [_ Hp'] & Ht & Hle & Hc & Hall); [lia|].
  exists p'. split_and!; try done. by rewrite <- Ht.
Qed.

End ParserFacts.

Lemma advance_stays_on_a_token_witness :
  let p :=
    Parser.mk [Parser.mkToken Parser.NEWLINE "" 1 1;
               Parser.mkToken Parser.NUMBER "1" 2 1;
               Parser.mkToken Parser.EOF "" 2 2] 0 in
  on_a_token p
  ∧ on_a_token (Parser.advance p)
  ∧ Parser.tokens (Parser.advance p) = Parser.tokens p
  ∧ Parser.pos (Parser.advance p)
    = (if Parser.is_at_end p then Parser.pos p else S (Parser.pos p))
  ∧ is_Some (Parser.current (Parser.advance p)).
Proof.
  intros p.
  assert (Hp : on_a_token p).
  { split; [|simpl; lia]. eexists. split; reflexivity. }
  split; [exact Hp|]. exact (advance_stays_on_a_token p Hp).
Defined.

Lemma skip_newlines_stops_after_the_newlines_witness :
  let p :=
    Parser.mk [Parser.mkToken Parser.NEWLINE "" 1 1;
               Parser.mkToken Parser.NEWLINE "" 2 1;
               Parser.mkToken Parser.NUMBER "1" 3 1;
               Parser.mkToken Parser.EOF "" 3 2] 0 in
  on_a_token p
  ∧ ∃ p', Parser.skip_newlines (S (List.length (Parser.tokens p))) p = Some p'
          ∧ Parser.tokens p' = Parser.tokens p
          ∧ (Parser.pos p ≤ Parser.pos p' < List.length (Parser.tokens p))%nat
          ∧ Parser.check_newline p' = false
          ∧ ∀ i tok, (Parser.pos p ≤ i < Parser.pos p')%nat →
                     Parser.tokens p !! i = Some tok →
                     Parser.is_newline (Parser.type tok) = true.
Proof.
  intros p.
  assert (Hp : on_a_token p).
  { split; [|simpl; lia]. eexists. split; reflexivity. }
  split; [exact Hp|]. exact (skip_newlines_stops_after_the_newlines p Hp).
Defined.
